(** * DogTrace: trace and bytecode resolution engine

  A shallow embedding of the resolution core of DogTrace and the
  properties its specification states about it.

  - [JS]: the JavaScript primitives the TypeScript sources rely on
    (numbers with NaN, [parseInt], [BigInt], string methods).
  - [TransactionExecutor]: [parseTrace], [extractStorageChanges],
    [padHex] and the revert-reason decoding of [executeWithTrace].
  - [StorageLayoutParser]: [buildPCToInstructionMap],
    [buildSourceMapCache], [getSourceLocation], [getFunctionContext]
    and [decodeValue]; the scan of [findAllPotentialReverts] and
    [findAllRequires], and the storage map [parseContract] fills.
  - [DebugService]: the revert location [debug] computes.
  - [PDFGenerator]: [tryDecodeString] and the texts of a storage
    change in the report.
  - [RequestValidator]: [validateTxHash].

  Conventions.  A JavaScript string is a sequence of UTF-16 code units;
  the development covers strings whose code units are below 256 and
  writes them as Rocq strings, one character per code unit.  A [Map] is
  a [gmap]: only [get], [set] and [size] are used by the sources, so
  insertion order is not observable.  A thrown exception is [None]. *)

From Stdlib Require Import ZArith String Ascii List DecimalString DecimalPos Sorted Lia.
From stdpp Require Import base option list gmap strings.

Local Open Scope string_scope.
Local Open Scope Z_scope.

(* ===================================================================== *)
(** ** JavaScript primitives *)
(* ===================================================================== *)

Module JS.

(** A JavaScript Number that holds an integer, NaN or an infinity.  The
    sources only ever produce such numbers from [parseInt] and from
    integer arithmetic; [-0] is identified with [0], which no
    comparison used by the sources can distinguish. *)
Inductive number : Type :=
| NaN
| Infinity (negative : bool)
| Fin (z : Z).

Definition number_eqb (a b : number) : bool :=
  match a, b with
  | Fin x, Fin y => x =? y
  | Infinity s, Infinity t => Bool.eqb s t
  | _, _ => false
  end.

(** Rounding of a mathematical integer to the nearest IEEE-754 double,
    ties to even: the value a Number takes when it is made from an
    exact integer. *)
Definition to_double (z : Z) : number :=
  let a := Z.abs z in
  if a <? 2 ^ 53 then Fin z
  else
    let e := Z.log2 a - 52 in
    let q := Z.shiftr a e in
    let r := a - Z.shiftl q e in
    let half := 2 ^ (e - 1) in
    let q' := if r <? half then q
              else if half <? r then q + 1
              else if Z.even q then q else q + 1 in
    let v := Z.shiftl q' e in
    if 2 ^ 1024 <=? v then Infinity (z <? 0) else Fin (Z.sgn z * v).

(** [a > n] for an integer [a] and a Number [n]. *)
Definition Z_gt_number (a : Z) (n : number) : bool :=
  match n with
  | NaN => false
  | Infinity negative => negative
  | Fin z => z <? a
  end.

(** [n + z] and [n - z] for a Number [n] and an integer [z]. *)
Definition number_add_Z (n : number) (z : Z) : number :=
  match n with
  | Fin x => to_double (x + z)
  | other => other
  end.

Definition number_sub_Z (n : number) (z : Z) : number :=
  number_add_Z n (- z).

(** *** Characters *)

(** StrWhiteSpaceChar, restricted to code units below 256: TAB, LF, VT,
    FF, CR, SP and NBSP. *)
Definition isWhiteSpace (c : ascii) : bool :=
  let n := N_of_ascii c in
  ((9 <=? n) && (n <=? 13) || (n =? 32) || (n =? 160))%N.

(** Value of a character as a digit in radix up to 36. *)
Definition digitValue (c : ascii) : option Z :=
  let n := Z.of_N (N_of_ascii c) in
  if (48 <=? n) && (n <=? 57) then Some (n - 48)
  else if (97 <=? n) && (n <=? 122) then Some (n - 87)
  else if (65 <=? n) && (n <=? 90) then Some (n - 55)
  else None.

Definition isRadixDigit (R : Z) (c : ascii) : bool :=
  match digitValue c with
  | Some d => d <? R
  | None => false
  end.

(** [\w] of a regular expression: [A-Za-z0-9_]. *)
Definition isWordChar (c : ascii) : bool :=
  let n := N_of_ascii c in
  ((48 <=? n) && (n <=? 57) || (65 <=? n) && (n <=? 90)
   || (97 <=? n) && (n <=? 122) || (n =? 95))%N.

(** *** String methods *)

Fixpoint startsWith (s pre : string) {struct pre} : bool :=
  match pre, s with
  | EmptyString, _ => true
  | String p pre', String c s' => Ascii.eqb p c && startsWith s' pre'
  | String _ _, EmptyString => false
  end.

Fixpoint includes (s sub : string) : bool :=
  startsWith s sub ||
  match s with
  | EmptyString => false
  | String _ s' => includes s' sub
  end.

(** [s.slice(a)] and [s.slice(a, b)] for non-negative [a], [b]. *)
Fixpoint sliceFrom (s : string) (a : nat) {struct a} : string :=
  match a, s with
  | O, _ => s
  | S a', String _ s' => sliceFrom s' a'
  | S _, EmptyString => EmptyString
  end.

Definition slice (s : string) (a b : nat) : string :=
  substring a (b - a) s.

Fixpoint repeat (c : ascii) (n : nat) : string :=
  match n with
  | O => EmptyString
  | S n' => String c (repeat c n')
  end.

(** [s.padStart(n, c)] for a one-character fill string. *)
Definition padStart (s : string) (n : nat) (c : ascii) : string :=
  repeat c (n - String.length s) +:+ s.

(** [s.split(sep)] for a one-character separator. *)
Fixpoint split (sep : ascii) (s : string) : list string :=
  match s with
  | EmptyString => [EmptyString]
  | String c s' =>
      if Ascii.eqb c sep then EmptyString :: split sep s'
      else match split sep s' with
           | h :: t => String c h :: t
           | [] => [String c EmptyString]
           end
  end.

(** The number of occurrences of a character. *)
Fixpoint countChar (c : ascii) (s : string) : nat :=
  match s with
  | EmptyString => O
  | String d s' => if Ascii.eqb d c then S (countChar c s') else countChar c s'
  end.

(** [lines.join(sep)]. *)
Fixpoint join (sep : string) (l : list string) : string :=
  match l with
  | [] => EmptyString
  | [x] => x
  | x :: rest => x +:+ sep +:+ join sep rest
  end.

Fixpoint trimStart (s : string) : string :=
  match s with
  | EmptyString => EmptyString
  | String c s' => if isWhiteSpace c then trimStart s' else s
  end.

Fixpoint trimEnd (s : string) : string :=
  match s with
  | EmptyString => EmptyString
  | String c s' =>
      match trimEnd s' with
      | EmptyString => if isWhiteSpace c then EmptyString else String c EmptyString
      | t => String c t
      end
  end.

Definition trim (s : string) : string := trimEnd (trimStart s).

(** *** parseInt *)

(** The longest prefix of [s] made of radix-[R] digits, as a number;
    [None] when that prefix is empty. *)
Fixpoint digitsPrefix (R : Z) (s : string) (acc : Z) (seen : bool) : option Z :=
  match s with
  | EmptyString => if seen then Some acc else None
  | String c s' =>
      match digitValue c with
      | Some d =>
          if d <? R then digitsPrefix R s' (acc * R + d) true
          else if seen then Some acc else None
      | None => if seen then Some acc else None
      end
  end.

Definition stripHexPrefix (s : string) : option string :=
  match s with
  | String "0" (String "x" rest) => Some rest
  | String "0" (String "X" rest) => Some rest
  | _ => None
  end.

(** [parseInt(s, radix)]; [radix = 0] stands for an omitted radix.
    Leading white space is skipped, a sign is read, a [0x] prefix
    selects radix 16 when the radix is omitted or 16, and the digits
    that follow are read up to the first character that is not one.
    The result is the double nearest to the integer read (in radix 10
    the standard lets an implementation drop digits after the 20th
    before rounding; the exact value is rounded here). *)
Definition parseInt (s : string) (radix : Z) : number :=
  let S0 := trimStart s in
  let '(negative, S1) :=
    match S0 with
    | String "-" rest => (true, rest)
    | String "+" rest => (false, rest)
    | _ => (false, S0)
    end in
  if negb (radix =? 0) && ((radix <? 2) || (36 <? radix)) then NaN
  else
    let '(R, S2) :=
      if (radix =? 0) || (radix =? 16) then
        match stripHexPrefix S1 with
        | Some rest => (16, rest)
        | None => (if radix =? 0 then 10 else radix, S1)
        end
      else (radix, S1) in
    match digitsPrefix R S2 0 false with
    | None => NaN
    | Some v => to_double (if negative then - v else v)
    end.

(** *** BigInt *)

(** All of [s] as radix-[R] digits; [None] when a character is not one. *)
Fixpoint allDigits (R : Z) (s : string) (acc : Z) : option Z :=
  match s with
  | EmptyString => Some acc
  | String c s' =>
      match digitValue c with
      | Some d => if d <? R then allDigits R s' (acc * R + d) else None
      | None => None
      end
  end.

Definition nonEmptyDigits (R : Z) (s : string) : option Z :=
  match s with
  | EmptyString => None
  | _ => allDigits R s 0
  end.

(** [BigInt(s)] for a string: white space is trimmed, the empty string
    is zero, [0x], [0o] and [0b] literals take no sign, a decimal
    literal may; anything else is a SyntaxError ([None]). *)
Definition BigInt (s : string) : option Z :=
  match trim s with
  | EmptyString => Some 0
  | String "0" (String "x" ds) | String "0" (String "X" ds) => nonEmptyDigits 16 ds
  | String "0" (String "o" ds) | String "0" (String "O" ds) => nonEmptyDigits 8 ds
  | String "0" (String "b" ds) | String "0" (String "B" ds) => nonEmptyDigits 2 ds
  | String "-" ds => Z.opp <$> nonEmptyDigits 10 ds
  | String "+" ds => nonEmptyDigits 10 ds
  | ds => nonEmptyDigits 10 ds
  end.

(** [b.toString()] of a BigInt: its decimal digits. *)
Definition bigIntToString (z : Z) : string :=
  NilZero.string_of_int (Z.to_int z).

(** *** Number to string *)

Definition decimalDigits (z : Z) : string := NilZero.string_of_int (Z.to_int z).

Definition numDigits (z : Z) : Z := Z.of_nat (String.length (decimalDigits z)).

(** The digit strings [s] of [k] digits with [s * 10^(n-k)] rounding
    to the double [x]: at most the two integers around [x / 10^(n-k)]. *)
Definition shortestCandidates (x n k : Z) : list (Z * Z) :=
  let p := 10 ^ (n - k) in
  let lo := x / p in
  List.filter
    (fun '(s, _) =>
       (10 ^ (k - 1) <=? s) && (s <? 10 ^ k)
       && number_eqb (to_double (s * p)) (Fin x))
    [(lo, n); (lo + 1, n)].

Definition closest (x k : Z) (c : list (Z * Z)) : option (Z * Z) :=
  List.fold_left
    (fun best '(s, n) =>
       match best with
       | None => Some (s, n)
       | Some (s0, n0) =>
           if Z.abs (s * 10 ^ (n - k) - x) <? Z.abs (s0 * 10 ^ (n0 - k) - x)
           then Some (s, n) else best
       end) c None.

(** The shortest decimal significand that reads back as the double [x]
    (for [x >= 2^53]), with its decimal exponent [n]. *)
Fixpoint shortestDigits (x : Z) (k : Z) (fuel : nat) : Z * Z * Z :=
  match fuel with
  | O => (x, numDigits x, numDigits x)
  | S fuel' =>
      let d := numDigits x in
      match closest x k (shortestCandidates x d k ++ shortestCandidates x (d + 1) k) with
      | Some (s, n) => (s, n, k)
      | None => shortestDigits x (k + 1) fuel'
      end
  end.

(** Number::toString in radix 10 for a non-negative integer double. *)
Definition magnitudeToString (x : Z) : string :=
  if x <? 2 ^ 53 then decimalDigits x
  else
    let '(s, n, k) := shortestDigits x 1 17 in
    let ds := decimalDigits s in
    if n <=? 21 then ds +:+ repeat "0" (Z.to_nat (n - k))
    else
      match ds with
      | String d EmptyString => String d ("e+" +:+ decimalDigits (n - 1))
      | String d rest => String d ("." +:+ rest +:+ "e+" +:+ decimalDigits (n - 1))
      | EmptyString => EmptyString
      end.

(** The text of a Number inside a template literal. *)
Definition numberToString (n : number) : string :=
  match n with
  | NaN => "NaN"
  | Infinity false => "Infinity"
  | Infinity true => "-Infinity"
  | Fin z => if z <? 0 then "-" +:+ magnitudeToString (- z) else magnitudeToString z
  end.

(** [String.fromCharCode(n)]: the code unit ToUint16(n).  Code units
    above 255, which the string type of this development does not
    hold, are reduced modulo 256. *)
Definition fromCharCode (n : number) : ascii :=
  match n with
  | Fin z => ascii_of_N (Z.to_N ((z mod 65536) mod 256))
  | _ => ascii_of_N 0
  end.

End JS.

(* ===================================================================== *)
(** ** ABI decoding of one string *)
(* ===================================================================== *)

(** [ethers.AbiCoder.defaultAbiCoder().decode(['string'], data)[0]] is a
  call into the ethers library, which is not part of DogTrace.  The
  executor is therefore stated over any decoder (a function to
  [option string], [None] when the call throws); [Abi.decodeString] is
  the reference decoder.  It follows the Solidity ABI encoding of a
  single dynamic [string]: a 32-byte head holding the offset of the
  tail, and a tail made of a 32-byte length and the bytes, padded to a
  multiple of 32; the bytes are read as UTF-8 the way ethers does,
  which throws on every ill-formed sequence. *)
Module Abi.

Fixpoint hexPairs (s : string) : option (list Z) :=
  match s with
  | EmptyString => Some []
  | String a (String b rest) =>
      match JS.digitValue a, JS.digitValue b, hexPairs rest with
      | Some x, Some y, Some bs =>
          if (x <? 16) && (y <? 16) then Some (x * 16 + y :: bs) else None
      | _, _, _ => None
      end
  | String _ EmptyString => None
  end.

(** The bytes of a [0x]-prefixed hexadecimal string; [None] when the
    text is not one (odd length, a character that is no hex digit). *)
Definition getBytes (data : string) : option (list Z) :=
  match data with
  | String "0" (String "x" rest) => hexPairs rest
  | _ => None
  end.

Definition bigEndian (bs : list Z) : Z :=
  List.fold_left (fun acc b => acc * 256 + b) bs 0.

(** A 32-byte word read as an index; reading past the end of the data,
    or an index that is no safe integer, throws. *)
Definition readIndex (data : list Z) : option Z :=
  if (32 <=? length data)%nat then
    let v := bigEndian (take 32 data) in
    if v <? 2 ^ 53 then Some v else None
  else None.

(** [len] bytes after a length word, which must be there with their
    padding. *)
Definition readBytes (data : list Z) (len : Z) : option (list Z) :=
  let aligned := (len + 31) / 32 * 32 in
  if aligned <=? Z.of_nat (length data) then Some (take (Z.to_nat len) data)
  else None.

(** What a call of ethers that returns a text gives: the text, when
    each of its code units is below 256; [Wide] for a text with a code
    unit above 255, which the strings of this development do not hold;
    [Throws]. *)
Inductive Result : Type :=
| Text (s : string)
| Wide
| Throws.

(** The code point of a multi-byte sequence led by [c], from its
    continuation bytes [next]: the payload bits of [c], six bits of
    each continuation byte, and the checks on the result (range,
    surrogate halves, overlong forms).  [None] is a throw. *)
Definition codePoint (c extraLength overlongMask : Z) (next : list Z) : option Z :=
  let lead := Z.land c (Z.shiftl 1 (8 - extraLength - 1) - 1) in
  match
    foldl (fun acc nextChar =>
             match acc with
             | Some res =>
                 if negb (Z.land nextChar 0xc0 =? 0x80) then None
                 else Some (Z.lor (Z.shiftl res 6) (Z.land nextChar 0x3f))
             | None => None
             end) (Some lead) next
  with
  | Some res =>
      if 0x10ffff <? res then None
      else if (0xd800 <=? res) && (res <=? 0xdfff) then None
      else if res <=? overlongMask then None
      else Some res
  | None => None
  end.

(** [getUtf8CodePoints] with the error function that throws. *)
Fixpoint codePoints (bs : list Z) : option (list Z) :=
  match bs with
  | [] => Some []
  | c :: rest =>
      if Z.shiftr c 7 =? 0 then
        match codePoints rest with
        | Some cps => Some (c :: cps)
        | None => None
        end
      else if Z.land c 0xe0 =? 0xc0 then
        match rest with
        | c1 :: rest1 =>
            match codePoint c 1 0x7f [c1], codePoints rest1 with
            | Some res, Some cps => Some (res :: cps)
            | _, _ => None
            end
        | _ => None
        end
      else if Z.land c 0xf0 =? 0xe0 then
        match rest with
        | c1 :: c2 :: rest2 =>
            match codePoint c 2 0x7ff [c1; c2], codePoints rest2 with
            | Some res, Some cps => Some (res :: cps)
            | _, _ => None
            end
        | _ => None
        end
      else if Z.land c 0xf8 =? 0xf0 then
        match rest with
        | c1 :: c2 :: c3 :: rest3 =>
            match codePoint c 3 0xffff [c1; c2; c3], codePoints rest3 with
            | Some res, Some cps => Some (res :: cps)
            | _, _ => None
            end
        | _ => None
        end
      else None
  end.

(** The text of code points that are all below 256. *)
Fixpoint narrow (cps : list Z) : option string :=
  match cps with
  | [] => Some EmptyString
  | cp :: rest =>
      if cp <? 256 then String (ascii_of_N (Z.to_N cp)) <$> narrow rest
      else None
  end.

(** [toUtf8String(bytes)]. *)
Definition toUtf8String (bs : list Z) : Result :=
  match codePoints bs with
  | Some cps =>
      match narrow cps with
      | Some s => Text s
      | None => Wide
      end
  | None => Throws
  end.

Definition decodeString (data : string) : Result :=
  match
    bytes ← getBytes data;
    offset ← readIndex bytes;
    let tail := drop (Z.to_nat offset) bytes in
    len ← readIndex tail;
    readBytes (drop 32 tail) len
  with
  | Some payload => toUtf8String payload
  | None => Throws
  end.

(** A decoder into the strings of this development does what the
    reference decoder does wherever the decoded text is one of
    them. *)
Definition agrees (decode : string -> option string) : Prop :=
  forall data,
    match decodeString data with
    | Text s => decode data = Some s
    | Throws => decode data = None
    | Wide => True
    end.

(** The reference decoder as such a decoder. *)
Definition narrowDecoder (data : string) : option string :=
  match decodeString data with
  | Text s => Some s
  | _ => None
  end.

End Abi.

(* ===================================================================== *)
(** ** TransactionExecutor (core/executor) *)
(* ===================================================================== *)

Module TransactionExecutor.
Import JS.

(** One record of [structLogs], as [debug_traceTransaction] returns it.
    Optional fields are the ones [parseTrace] guards with [||] or a
    truthiness test. *)
Record StructLog : Type := {
  log_pc : Z;
  log_op : string;
  log_gas : Z;
  log_gasCost : option Z;
  log_stack : option (list string);
  log_memory : option (list string);
  log_depth : option Z
}.

Record StorageWrite : Type := { key : string; value : string }.

Record ExecutionTrace : Type := {
  step : Z;
  pc : Z;
  opcode : string;
  gas : Z;
  gasCost : Z;
  stack : list string;
  memory : string;
  storage : option StorageWrite;
  depth : Z
}.

(** An element of [analysis.storageChanges]; [changeStep] is its
    [step] field. *)
Record StorageChange : Type := {
  slot : string;
  slotNumber : number;
  oldValue : string;
  newValue : string;
  oldValueDecimal : string;
  newValueDecimal : string;
  changeStep : Z
}.

Record TraceResult : Type := {
  structLogs : option (list StructLog);
  returnValue : option string;
  revertReason : option string
}.

(** [s || d] for a string that may be undefined: the empty string is
    falsy. *)
Definition stringOr (s : option string) (d : string) : string :=
  match s with
  | Some v => if String.eqb v EmptyString then d else v
  | None => d
  end.

(** [stack[stack.length - k]]. *)
Definition fromTop (st : list string) (k : nat) : option string :=
  if (k <=? length st)%nat then st !! (length st - k)%nat else None.

Definition padHex (hex : string) (len : nat) : string :=
  let clean := if startsWith hex "0x" then sliceFrom hex 2 else hex in
  "0x" +:+ padStart clean len "0".

(** Body of the loop of [parseTrace] for the record at index [i]. *)
Definition parseStep (lastGas i : Z) (log : StructLog) : ExecutionTrace :=
  let st := default [] (log_stack log) in
  {| step := i;
     pc := log_pc log;
     opcode := log_op log;
     gas := log_gas log;
     gasCost := if 0 <? lastGas then lastGas - log_gas log
                else default 0 (log_gasCost log);
     stack := st;
     memory := match log_memory log with
               | Some m => "0x" +:+ join EmptyString m
               | None => "0x"
               end;
     storage :=
       if String.eqb (log_op log) "SSTORE" && (2 <=? length st)%nat then
         match fromTop st 1, fromTop st 2 with
         | Some k, Some v => Some {| key := padHex k 64; value := padHex v 64 |}
         | _, _ => None
         end
       else None;
     depth := default 0 (log_depth log) |}.

Fixpoint parseLoop (logs : list StructLog) (i lastGas : Z) : list ExecutionTrace :=
  match logs with
  | [] => []
  | log :: rest => parseStep lastGas i log :: parseLoop rest (i + 1) (log_gas log)
  end.

Definition parseTrace (traceResult : TraceResult) : list ExecutionTrace :=
  parseLoop (default [] (structLogs traceResult)) 0 0.

(** The gas the loop remembers when it reaches index [k]. *)
Definition gasBefore (logs : list StructLog) (lastGas : Z) (k : nat) : Z :=
  match k with
  | O => lastGas
  | S k' => default 0 (log_gas <$> logs !! k')
  end.

(** Callback of the [forEach] that fills [storageReads]. *)
Definition recordRead (traces : list ExecutionTrace)
    (storageReads : gmap string string) (index : nat) (t : ExecutionTrace)
    : gmap string string :=
  if String.eqb (opcode t) "SLOAD" && (1 <=? length (stack t))%nat then
    match fromTop (stack t) 1 with
    | Some slotValue =>
        if String.eqb slotValue EmptyString then storageReads
        else
          let slot := padHex slotValue 64 in
          match traces !! (index + 1)%nat with
          | Some nextTrace =>
              if (0 <? length (stack nextTrace))%nat then
                match fromTop (stack nextTrace) 1 with
                | Some loadedValue =>
                    if String.eqb loadedValue EmptyString then storageReads
                    else <[slot := loadedValue]> storageReads
                | None => storageReads
                end
              else storageReads
          | None => storageReads
          end
    | None => storageReads
    end
  else storageReads.

Fixpoint forEachRead (traces rest : list ExecutionTrace) (index : nat)
    (storageReads : gmap string string) : gmap string string :=
  match rest with
  | [] => storageReads
  | t :: rest' =>
      forEachRead traces rest' (S index) (recordRead traces storageReads index t)
  end.

Definition storageReadsOf (traces : list ExecutionTrace) : gmap string string :=
  forEachRead traces traces 0%nat ∅.

Definition zeroWord : string := "0x" +:+ repeat "0" 64.

(** Callback of the [map] over the steps that carry a [storage]
    field; either [BigInt] call may throw. *)
Definition toStorageChange (storageReads : gmap string string)
    (t : ExecutionTrace) (w : StorageWrite) : option StorageChange :=
  let slot := key w in
  let newValue := value w in
  let oldValue := stringOr (storageReads !! slot) zeroWord in
  let slotNumber := parseInt slot 16 in
  oldValueBigInt ← BigInt oldValue;
  newValueBigInt ← BigInt newValue;
  Some {| slot := slot;
          slotNumber := slotNumber;
          oldValue := oldValue;
          newValue := newValue;
          oldValueDecimal := bigIntToString oldValueBigInt;
          newValueDecimal := bigIntToString newValueBigInt;
          changeStep := step t |}.

Definition extractStorageChanges (traces : list ExecutionTrace)
    : option (list StorageChange) :=
  let storageReads := storageReadsOf traces in
  mapM (fun '(t, w) => toStorageChange storageReads t w)
       (omap (fun t => pair t <$> storage t) traces).

(** The table [panicReasons]; a Number indexes it through its decimal
    text, so only these nine integers hit. *)
Definition panicReasons (code : number) : option string :=
  match code with
  | Fin 0x01 => Some "Assertion failed"
  | Fin 0x11 => Some "Arithmetic overflow/underflow (unchecked)"
  | Fin 0x12 => Some "Division or modulo by zero"
  | Fin 0x21 => Some "Invalid enum value"
  | Fin 0x22 => Some "Invalid storage byte array"
  | Fin 0x31 => Some "Pop on empty array"
  | Fin 0x32 => Some "Array index out of bounds"
  | Fin 0x41 => Some "Out of memory"
  | Fin 0x51 => Some "Invalid internal function"
  | _ => None
  end.

Section RevertReason.

(** The ABI decoder of ethers, [None] when it throws. *)
Variable abiDecodeString : string -> option string.

(** The value of [errorMessage] in [executeWithTrace] once the return
    payload has been looked at; [status] is [receipt.status]. *)
Definition errorMessage (status : Z) (traceResult : TraceResult) : string :=
  let errorMessage := stringOr (revertReason traceResult) "Transaction reverted" in
  match returnValue traceResult with
  | Some returnData =>
      if (status =? 0) && negb (String.eqb returnData EmptyString) then
        if startsWith returnData "4e487b71" then
          let panicCode := parseInt (sliceFrom returnData 8) 16 in
          "Panic(" +:+ numberToString panicCode +:+ "): "
            +:+ stringOr (panicReasons panicCode) "Unknown panic"
        else if startsWith returnData "08c379a0" then
          match abiDecodeString ("0x" +:+ sliceFrom returnData 8) with
          | Some decoded => "Error: " +:+ decoded
          | None => errorMessage
          end
        else errorMessage
      else errorMessage
  | None => errorMessage
  end.

(** The [error] field of [result]: present for a failed receipt. *)
Definition resultError (status : Z) (traceResult : TraceResult) : option string :=
  if status =? 0 then Some (errorMessage status traceResult) else None.

End RevertReason.

(** *** Notions of the specification *)

(** Step [i] is an SLOAD whose operand normalizes to [slot] and whose
    result, the top of the stack of step [i + 1], is [v]. *)
Definition sloadObserved (traces : list ExecutionTrace) (i : nat)
    (slot v : string) : Prop :=
  exists t next slotValue,
    traces !! i = Some t /\ opcode t = "SLOAD"
    /\ fromTop (stack t) 1 = Some slotValue /\ slotValue <> EmptyString
    /\ slot = padHex slotValue 64
    /\ traces !! S i = Some next
    /\ fromTop (stack next) 1 = Some v /\ v <> EmptyString.

Fixpoint allHex (s : string) : bool :=
  match s with
  | EmptyString => true
  | String c s' => isRadixDigit 16 c && allHex s'
  end.

(** A stack word as the tracer prints it: [0x] and at least one
    hexadecimal digit. *)
Definition isHexWord (x : string) : bool :=
  match x with
  | String "0" (String "x" ds) => negb (String.eqb ds EmptyString) && allHex ds
  | _ => false
  end.

(** Traces whose stack words and written values are such words. *)
Definition wellFormed (traces : list ExecutionTrace) : Prop :=
  forall t, t ∈ traces ->
    (forall x, x ∈ stack t -> isHexWord x = true)
    /\ (forall w, storage t = Some w -> isHexWord (value w) = true).

(** Record [i] of the raw trace is an SLOAD with [slotKey] on top of
    its stack, and record [i + 1] has [v] on top of its stack. *)
Definition loads (logs : list StructLog) (i : nat) (slotKey v : string) : Prop :=
  exists li lnext sti stn,
    logs !! i = Some li /\ log_op li = "SLOAD"
    /\ log_stack li = Some sti /\ fromTop sti 1 = Some slotKey
    /\ logs !! S i = Some lnext
    /\ log_stack lnext = Some stn /\ fromTop stn 1 = Some v.

(** Record [i] is an SLOAD with [slotKey] on top of its stack. *)
Definition loadsSlot (logs : list StructLog) (i : nat) (slotKey : string) : Prop :=
  exists li sti,
    logs !! i = Some li /\ log_op li = "SLOAD"
    /\ log_stack li = Some sti /\ fromTop sti 1 = Some slotKey.

(** Record [j] is an SSTORE with [storeKey] on top of its stack and
    [w] below it. *)
Definition stores (logs : list StructLog) (j : nat) (storeKey w : string) : Prop :=
  exists lj stj,
    logs !! j = Some lj /\ log_op lj = "SSTORE"
    /\ log_stack lj = Some stj
    /\ fromTop stj 1 = Some storeKey /\ fromTop stj 2 = Some w.

Definition wellFormedLogs (logs : list StructLog) : Prop :=
  forall log st x,
    log ∈ logs -> log_stack log = Some st -> x ∈ st -> isHexWord x = true.

(** The check of [wellFormedLogs] on a given trace. *)
Definition hexStacks (logs : list StructLog) : bool :=
  forallb (fun log => forallb isHexWord (default [] (log_stack log))) logs.

(** The digits [padHex] pads: the word without its [0x] prefix. *)
Definition digitsOf (hex : string) : string :=
  if startsWith hex "0x" then sliceFrom hex 2 else hex.

(** The selectors as bytes, [0x4e487b71] and [0x08c379a0], and the
    codes of the table of panic reasons. *)
Definition panicSelector : string :=
  String (ascii_of_N 0x4e) (String (ascii_of_N 0x48)
    (String (ascii_of_N 0x7b) (String (ascii_of_N 0x71) EmptyString))).

Definition errorSelector : string :=
  String (ascii_of_N 0x08) (String (ascii_of_N 0xc3)
    (String (ascii_of_N 0x79) (String (ascii_of_N 0xa0) EmptyString))).

Definition panicCodes : list Z :=
  [0x01; 0x11; 0x12; 0x21; 0x22; 0x31; 0x32; 0x41; 0x51].

(** The unsigned number a sequence of bytes stands for, most
    significant byte first. *)
Fixpoint bytesValueFrom (acc : Z) (bytes : string) : Z :=
  match bytes with
  | EmptyString => acc
  | String c rest => bytesValueFrom (acc * 256 + Z.of_N (N_of_ascii c)) rest
  end.

Definition bytesValue (bytes : string) : Z := bytesValueFrom 0 bytes.

End TransactionExecutor.

(* ===================================================================== *)
(** ** StorageLayoutParser (services/storage_layout) *)
(* ===================================================================== *)

Module StorageLayoutParser.
Import JS.

Record FunctionContext : Type := {
  functionName : string;
  startLine : Z;
  endLine : Z;
  code : string;
  revertLine : Z
}.

(** A value of the source-map cache; [entryLength] is its [length]
    field. *)
Record SourceMapEntry : Type := {
  start : number;
  entryLength : number;
  fileIndex : number
}.

Record SourceLocation : Type := {
  line : Z;
  column : number;
  snippet : string
}.

(** The private fields of a parser instance, as [parseContract] leaves
    them. *)
Record Parser : Type := {
  sourceCode : string;
  sourceMap : string;
  bytecode : string;
  pcToInstructionIndex : gmap Z Z
}.

Definition newline : ascii := ascii_of_N 10.

Definition strip0x (s : string) : string :=
  if startsWith s "0x" then sliceFrom s 2 else s.

(** *** The storage layout read by parseContract *)

#[global] Instance number_eq_dec : EqDecision number.
Proof. solve_decision. Defined.

(** Numbers as keys of a [Map]: [NaN] is a key like any other. *)
#[global] Instance number_countable : Countable number.
Proof.
  refine (inj_countable'
            (fun n => match n with
                      | NaN => inl tt
                      | Infinity negative => inr (inl negative)
                      | Fin z => inr (inr z)
                      end)
            (fun x => match x with
                      | inl _ => NaN
                      | inr (inl negative) => Infinity negative
                      | inr (inr z) => Fin z
                      end) _).
  intros []; reflexivity.
Defined.

(** An entry of [storageLayout.storage] in the output of the
    compiler, which prints the slot as text. *)
Record StorageItem : Type := {
  item_label : string;
  item_type : string;
  item_slot : string
}.

(** A value of the storage map; the fields are [name], [type] and
    [slot]. *)
Record StorageVariable : Type := {
  var_name : string;
  var_type : string;
  var_slot : number
}.

(** Callback of the [forEach] over the entries. *)
Definition setVariable (storageMap : gmap number StorageVariable) (item : StorageItem)
    : gmap number StorageVariable :=
  let slot := parseInt (item_slot item) 0 in
  <[slot := {| var_name := item_label item; var_type := item_type item;
               var_slot := slot |}]> storageMap.

Definition storageMapOf (items : list StorageItem) : gmap number StorageVariable :=
  foldl setVariable ∅ items.

(** *** buildPCToInstructionMap *)

(** [parseInt(code.slice(pc * 2, pc * 2 + 2), 16)]. *)
Definition opcodeAt (code : string) (pc : Z) : number :=
  parseInt (slice code (Z.to_nat (pc * 2)) (Z.to_nat (pc * 2 + 2))) 16.

(** The amount [pc] advances by after an instruction with this opcode. *)
Definition advance (opcode : number) : Z :=
  match opcode with
  | Fin z =>
      if (0x60 <=? z) && (z <=? 0x7f) then
        let pushDataLength := z - 0x5f in
        1 + pushDataLength
      else 1
  | _ => 1
  end.

(** The [while] loop; every turn moves [pc] forward, so a fuel of the
    length of the code is never used up. *)
Fixpoint pcLoop (fuel : nat) (code : string) (pc instructionIndex : Z)
    (map : gmap Z Z) : gmap Z Z :=
  match fuel with
  | O => map
  | S fuel' =>
      if pc * 2 <? Z.of_nat (String.length code) then
        pcLoop fuel' code (pc + advance (opcodeAt code pc)) (instructionIndex + 1)
               (<[pc := instructionIndex]> map)
      else map
  end.

Definition buildPCToInstructionMap (bytecode : string) : gmap Z Z :=
  let code := strip0x bytecode in
  pcLoop (String.length code) code 0 0 ∅.

(** *** buildSourceMapCache *)

Record Last : Type := {
  lastStart : number;
  lastLength : number;
  lastFileIndex : number;
  lastJump : string
}.

Definition entryOf (st : Last) : SourceMapEntry :=
  {| start := lastStart st; entryLength := lastLength st;
     fileIndex := lastFileIndex st |}.

(** [parts[i] !== undefined && parts[i] !== ''] selects the update of a
    running value. *)
Definition field {A : Type} (parts : list string) (i : nat)
    (parse : string -> A) (previous : A) : A :=
  match parts !! i with
  | Some p => if String.eqb p EmptyString then previous else parse p
  | None => previous
  end.

(** The running values after one entry of the source map. *)
Definition decodeEntry (st : Last) (entry : string) : Last :=
  if String.eqb entry EmptyString then st
  else
    let parts := split ":" entry in
    {| lastStart := field parts 0 (fun p => parseInt p 0) (lastStart st);
       lastLength := field parts 1 (fun p => parseInt p 0) (lastLength st);
       lastFileIndex := field parts 2 (fun p => parseInt p 0) (lastFileIndex st);
       lastJump := field parts 3 (fun p => p) (lastJump st) |}.

(** [entries.forEach((entry, pc) => ...)]. *)
Fixpoint forEachEntry (entries : list string) (pc : Z) (st : Last)
    (cache : gmap Z SourceMapEntry) : gmap Z SourceMapEntry :=
  match entries with
  | [] => cache
  | entry :: rest =>
      let st' := decodeEntry st entry in
      forEachEntry rest (pc + 1) st' (<[pc := entryOf st']> cache)
  end.

Definition initialLast : Last :=
  {| lastStart := Fin 0; lastLength := Fin 0; lastFileIndex := Fin 0;
     lastJump := "-" |}.

(** Nothing in the body of the [try] throws, so its [catch] is never
    entered. *)
Definition buildSourceMapCache (sourceMap : string) : gmap Z SourceMapEntry :=
  if String.eqb sourceMap EmptyString then ∅
  else forEachEntry (split ";" sourceMap) 0 initialLast ∅.

(** The running values after the entries of a list. *)
Definition lastAfter (st : Last) (entries : list string) : Last :=
  foldl decodeEntry st entries.

(** *** getSourceLocation *)

(** The loop that turns a byte offset into a line and a column; [None]
    when it runs off the last line without a [break]. *)
Fixpoint scanLines (lines : list string) (i currentOffset : Z) (start : number)
    : option (Z * number) :=
  match lines with
  | [] => None
  | l :: rest =>
      let lineLength := Z.of_nat (String.length l) + 1 in
      if Z_gt_number (currentOffset + lineLength) start then
        Some (i + 1, number_add_Z (number_sub_Z start currentOffset) 1)
      else scanLines rest (i + 1) (currentOffset + lineLength) start
  end.

(** [lines[lineNumber - 1]?.trim() || '']. *)
Definition snippetAt (lines : list string) (lineNumber : Z) : string :=
  if lineNumber - 1 <? 0 then EmptyString
  else default EmptyString (trim <$> lines !! Z.to_nat (lineNumber - 1)).

(** Line, column and snippet of the byte offset [start]. *)
Definition locate (sourceCode : string) (start : number) : SourceLocation :=
  let lines := split newline sourceCode in
  let '(lineNumber, columnNumber) := default (1, Fin 1) (scanLines lines 0 0 start) in
  {| line := lineNumber; column := columnNumber; snippet := snippetAt lines lineNumber |}.

(** The same for a nearby entry, whose column is reported as 1. *)
Definition locateNearby (sourceCode : string) (start : number) : SourceLocation :=
  let lines := split newline sourceCode in
  let lineNumber := fst (default (1, Fin 1) (scanLines lines 0 0 start)) in
  {| line := lineNumber; column := Fin 1; snippet := snippetAt lines lineNumber |}.

Definition isZero (n : number) : bool :=
  match n with
  | Fin 0 => true
  | _ => false
  end.

(** [for (offset = 1; offset <= searchLimit; offset++)]: the first
    entry of file 0 among the preceding instruction indices. *)
Fixpoint searchBackwards (cache : gmap Z SourceMapEntry) (instructionIndex offset : Z)
    (turns : nat) : option SourceMapEntry :=
  match turns with
  | O => None
  | S turns' =>
      let prevIndex := instructionIndex - offset in
      if prevIndex <? 0 then None
      else
        match cache !! prevIndex with
        | Some prevPosition =>
            if isZero (fileIndex prevPosition) then Some prevPosition
            else searchBackwards cache instructionIndex (offset + 1) turns'
        | None => searchBackwards cache instructionIndex (offset + 1) turns'
        end
  end.

(** [for (offset = -5; offset <= 5; offset++)]: the first entry there
    is among the neighbouring instruction indices. *)
Fixpoint searchNearby (cache : gmap Z SourceMapEntry) (instructionIndex offset : Z)
    (turns : nat) : option SourceMapEntry :=
  match turns with
  | O => None
  | S turns' =>
      match cache !! (instructionIndex + offset) with
      | Some nearbyPos => Some nearbyPos
      | None => searchNearby cache instructionIndex (offset + 1) turns'
      end
  end.

Definition searchLimit : nat := 20.

Definition getSourceLocation (this : Parser) (pc : Z) : option SourceLocation :=
  if String.eqb (sourceMap this) EmptyString || String.eqb (sourceCode this) EmptyString then None
  else
    match pcToInstructionIndex this !! pc with
    | None => None
    | Some instructionIndex =>
        let sourceMapCache := buildSourceMapCache (sourceMap this) in
        match sourceMapCache !! instructionIndex with
        | Some position =>
            if negb (isZero (fileIndex position)) then
              match searchBackwards sourceMapCache instructionIndex 1 searchLimit with
              | Some prevPosition => Some (locate (sourceCode this) (start prevPosition))
              | None => None
              end
            else Some (locate (sourceCode this) (start position))
        | None =>
            match searchNearby sourceMapCache instructionIndex (-5) 11 with
            | Some nearbyPos => Some (locateNearby (sourceCode this) (start nearbyPos))
            | None => None
            end
        end
    end.

(** The fields of a parser after [parseContract] has stored the
    source, the source map and the bytecode the program counters refer
    to. *)
Definition loaded (source map code : string) : Parser :=
  {| sourceCode := source; sourceMap := map; bytecode := strip0x code;
     pcToInstructionIndex := buildPCToInstructionMap (strip0x code) |}.

(** *** getFunctionContext *)

Fixpoint dropWhile (f : ascii -> bool) (s : string) : string :=
  match s with
  | EmptyString => EmptyString
  | String c s' => if f c then dropWhile f s' else s
  end.

Fixpoint takeWhile (f : ascii -> bool) (s : string) : string :=
  match s with
  | EmptyString => EmptyString
  | String c s' => if f c then String c (takeWhile f s') else EmptyString
  end.

(** An attempt of [/function\s+(\w+)/] at the head of [s]: the capture
    group when it matches there. *)
Definition matchHere (s : string) : option string :=
  if startsWith s "function" then
    match sliceFrom s 8 with
    | String c rest =>
        if isWhiteSpace c then
          match takeWhile isWordChar (dropWhile isWhiteSpace rest) with
          | EmptyString => None
          | name => Some name
          end
        else None
    | EmptyString => None
    end
  else None.

(** [line.match(/function\s+(\w+)/)]: group 1 of the leftmost match. *)
Fixpoint matchFunctionName (s : string) : option string :=
  match matchHere s with
  | Some name => Some name
  | None =>
      match s with
      | EmptyString => None
      | String _ s' => matchFunctionName s'
      end
  end.

(** The backward scan [for (i = lineNumber - 1; i >= 0; i--)], given
    the number of indices left to visit: the name and the 1-based
    line of the nearest declaration. *)
Fixpoint findFunctionStart (lines : list string) (count : nat) : option (string * Z) :=
  match count with
  | O => None
  | S i =>
      let l := default EmptyString (trim <$> lines !! i) in
      if includes l "function " then
        match matchFunctionName l with
        | Some name => Some (name, Z.of_nat i + 1)
        | None => findFunctionStart lines i
        end
      else findFunctionStart lines i
  end.

(** The inner [for (const char of line)]: the brace depth after the
    characters read, and whether the loop left through its [break]. *)
Fixpoint scanChars (chars : string) (braceDepth : Z) (inFunction : bool) : Z * bool :=
  match chars with
  | EmptyString => (braceDepth, false)
  | String char rest =>
      let d1 := if Ascii.eqb char "{" then braceDepth + 1 else braceDepth in
      let d2 := if Ascii.eqb char "}" then d1 - 1 else d1 in
      if (d2 =? 0) && inFunction then (d2, true)
      else scanChars rest d2 inFunction
  end.

(** The outer forward loop over the lines from index [i] on: the
    1-based end line when one is found. *)
Fixpoint scanForward (lines : list string) (i braceDepth : Z) (inFunction : bool)
    : option Z :=
  match lines with
  | [] => None
  | l :: rest =>
      let '(braceDepth', found) := scanChars l braceDepth inFunction in
      let inFunction' := if 0 <? braceDepth' then true else inFunction in
      if found then Some (i + 1)
      else scanForward rest (i + 1) braceDepth' inFunction'
  end.

Definition getFunctionContext (this : Parser) (lineNumber : Z) : option FunctionContext :=
  if String.eqb (sourceCode this) EmptyString then None
  else
    let lines := split newline (sourceCode this) in
    match findFunctionStart lines (Z.to_nat lineNumber) with
    | None => None
    | Some (functionName, functionStartLine) =>
        let first := Z.to_nat (functionStartLine - 1) in
        let functionEndLine :=
          default (Z.of_nat (length lines))
                  (scanForward (drop first lines) (functionStartLine - 1) 0 false) in
        let functionLines := drop first (take (Z.to_nat functionEndLine) lines) in
        Some {| functionName := functionName;
                startLine := functionStartLine;
                endLine := functionEndLine;
                code := join (String newline EmptyString) functionLines;
                revertLine := lineNumber |}
    end.

(** *** findAllPotentialReverts and findAllRequires *)

(** An element of the result of [findAllPotentialReverts]; the fields
    are [line], [snippet], [functionName] and [type]. *)
Record PotentialRevert : Type := {
  pr_line : Z;
  pr_snippet : string;
  pr_functionName : string;
  pr_type : string
}.

(** An element of the result of [findAllRequires]. *)
Record RequireStatement : Type := {
  rq_line : Z;
  rq_snippet : string;
  rq_functionName : string
}.

(** An attempt of [/\[\s*\w+\s*\]/] at the head of [s].  The classes
    [\s] and [\w] share no character and neither holds the closing
    bracket, so each star can only stop where its class stops. *)
Definition matchIndexHere (s : string) : bool :=
  match s with
  | String "[" rest =>
      let afterSpace := dropWhile isWhiteSpace rest in
      match takeWhile isWordChar afterSpace with
      | EmptyString => false
      | _ =>
          match dropWhile isWhiteSpace (dropWhile isWordChar afterSpace) with
          | String "]" _ => true
          | _ => false
          end
      end
  | _ => false
  end.

(** [trimmed.match(/\[\s*\w+\s*\]/)] as a truth value. *)
Fixpoint matchesIndex (s : string) : bool :=
  matchIndexHere s ||
  match s with
  | EmptyString => false
  | String _ s' => matchesIndex s'
  end.

(** The five tests on one line, in the order the loop body makes
    them. *)
Definition checksOf (i : Z) (trimmed currentFunction : string) : list PotentialRevert :=
  let found type := {| pr_line := i + 1; pr_snippet := trimmed;
                       pr_functionName := currentFunction; pr_type := type |} in
  ((if includes trimmed "require(" then [found "require"] else [])
   ++ (if includes trimmed "revert(" || includes trimmed "revert "
       then [found "revert"] else [])
   ++ (if includes trimmed "assert(" then [found "assert"] else [])
   ++ (if includes trimmed " / " && negb (startsWith trimmed "//")
       then [found "division"] else [])
   ++ (if matchesIndex trimmed && negb (startsWith trimmed "//")
       then [found "array_access"] else []))%list.

(** The loop over the lines from index [i] on. *)
Fixpoint revertLoop (lines : list string) (i : Z) (currentFunction : string)
    : list PotentialRevert :=
  match lines with
  | [] => []
  | l :: rest =>
      let trimmed := trim l in
      let currentFunction' :=
        if includes trimmed "function " then
          match matchFunctionName trimmed with
          | Some name => name
          | None => currentFunction
          end
        else currentFunction in
      (checksOf i trimmed currentFunction'
       ++ revertLoop rest (i + 1) currentFunction')%list
  end.

Definition findAllPotentialReverts (this : Parser) : list PotentialRevert :=
  if String.eqb (sourceCode this) EmptyString then []
  else revertLoop (split newline (sourceCode this)) 0 "unknown".

Definition findAllRequires (this : Parser) : list RequireStatement :=
  (fun r => {| rq_line := pr_line r; rq_snippet := pr_snippet r;
               rq_functionName := pr_functionName r |})
    <$> List.filter (fun r => String.eqb (pr_type r) "require")
                    (findAllPotentialReverts this).

(** The function name the loop of [findAllPotentialReverts] holds
    after the first [count] lines. *)
Definition nameBefore (lines : list string) (count : nat) : string :=
  match findFunctionStart lines count with
  | Some (name, _) => name
  | None => "unknown"
  end.

(** The test that puts a line into the result under a given type. *)
Definition markOf (type trimmed : string) : bool :=
  if String.eqb type "require" then includes trimmed "require("
  else if String.eqb type "revert" then
    includes trimmed "revert(" || includes trimmed "revert "
  else if String.eqb type "assert" then includes trimmed "assert("
  else if String.eqb type "division" then
    includes trimmed " / " && negb (startsWith trimmed "//")
  else if String.eqb type "array_access" then
    matchesIndex trimmed && negb (startsWith trimmed "//")
  else false.

(** *** decodeValue *)

(** The loop that turns pairs of hex digits into characters. *)
Fixpoint hexToChars (stringHex : string) (i : nat) (turns : nat) : string :=
  match turns with
  | O => EmptyString
  | S turns' =>
      if (i <? String.length stringHex)%nat then
        String (fromCharCode (parseInt (slice stringHex i (i + 2)) 16))
               (hexToChars stringHex (i + 2) turns')
      else EmptyString
  end.

Definition quote : string := String (ascii_of_N 34) EmptyString.

Definition isEven (n : number) : bool :=
  match n with
  | Fin z => Z.rem z 2 =? 0
  | _ => false
  end.

Definition decodeValue (hexValue type : string) : string :=
  let hex := if startsWith hexValue "0x" then sliceFrom hexValue 2 else hexValue in
  let decimal := match BigInt ("0x" +:+ hex) with
                 | Some b => bigIntToString b
                 | None => hexValue
                 end in
  if includes type "string" then
    if String.eqb hex (repeat "0" 64) then quote +:+ quote
    else
      let lastByte := parseInt (slice hex 62 64) 16 in
      match lastByte with
      | Fin z =>
          if isEven lastByte && (0 <? z / 2) && (z / 2 <=? 31) then
            let stringHex := slice hex 0 (Z.to_nat (z / 2 * 2)) in
            quote +:+ hexToChars stringHex 0 (String.length stringHex) +:+ quote
          else "string (long)"
      | _ => "string (long)"
      end
  else if includes type "address" then "0x" +:+ slice hex 24 64
  else if includes type "bool" then
    if String.eqb hex (repeat "0" 64) then "false" else "true"
  else if includes type "uint" || includes type "int" then decimal
  else if includes type "bytes" then "0x" +:+ hex
  else decimal.

(** *** Notions of the specification *)

(** The operand bytes that follow an opcode: [opcode - 0x5f] for
    PUSH1..PUSH32, none otherwise. *)
Definition operandBytes (opcode : number) : Z :=
  match opcode with
  | Fin z => if (0x60 <=? z) && (z <=? 0x7f) then z - 0x5f else 0
  | _ => 0
  end.

(** The walk of the specification, started at byte offset [pc] with
    instruction index [k]: [walkFrom code pc k p i] when it records an
    instruction that starts at byte [p] and has index [i].  Each
    instruction is an opcode byte and its operand bytes, and takes the
    next index, whatever its width. *)
Inductive walkFrom (code : string) : Z -> Z -> Z -> Z -> Prop :=
| walk_here pc k :
    pc * 2 < Z.of_nat (String.length code) ->
    walkFrom code pc k pc k
| walk_step pc k p i :
    pc * 2 < Z.of_nat (String.length code) ->
    walkFrom code (pc + 1 + operandBytes (opcodeAt code pc)) (k + 1) p i ->
    walkFrom code pc k p i.

(** The instruction table of the specification: the walk from offset 0
    and index 0. *)
Definition instructionAt (code : string) (p i : Z) : Prop :=
  walkFrom code 0 0 p i.

(** The text of field [i] of an entry, for a field that is there and
    is not empty. *)
Definition fieldText (entry : string) (i : nat) : option string :=
  match split ":" entry !! i with
  | Some (String c rest) => Some (String c rest)
  | Some EmptyString => None
  | None => None
  end.

(** A numeric field of an entry after the value [previous]: a field
    left empty keeps [previous], any other is read with [parseInt]. *)
Definition inheritNumber (entry : string) (i : nat) (previous : number) : number :=
  match fieldText entry i with
  | Some text => parseInt text 0
  | None => previous
  end.

(** Run-length decompression of one entry after the entry [previous],
    field by field. *)
Definition inherit (previous : SourceMapEntry) (entry : string) : SourceMapEntry :=
  {| start := inheritNumber entry 0 (start previous);
     entryLength := inheritNumber entry 1 (entryLength previous);
     fileIndex := inheritNumber entry 2 (fileIndex previous) |}.

Definition zeroEntry : SourceMapEntry :=
  {| start := Fin 0; entryLength := Fin 0; fileIndex := Fin 0 |}.

Definition isNaN (n : number) : bool :=
  match n with
  | NaN => true
  | _ => false
  end.

(** A field of an entry that is there, is not empty and is no number. *)
Definition badField (parts : list string) (i : nat) : bool :=
  match parts !! i with
  | Some p => negb (String.eqb p EmptyString) && isNaN (parseInt p 0)
  | None => false
  end.

(** An entry with an unparseable [s], [l] or [f] field. *)
Definition unparseable (entry : string) : bool :=
  let parts := split ":" entry in
  badField parts 0 || badField parts 1 || badField parts 2.

Definition hasNaN (e : SourceMapEntry) : bool :=
  isNaN (start e) || isNaN (entryLength e) || isNaN (fileIndex e).

(** Decompression in the words of the specification: the entries are
    read in order, each against the one before it, and reading stops at
    the first entry that does not parse, the entries read before it
    being kept. *)
Fixpoint specEntries (entries : list string) (pc : Z) (previous : SourceMapEntry)
    (cache : gmap Z SourceMapEntry) : gmap Z SourceMapEntry :=
  match entries with
  | [] => cache
  | entry :: rest =>
      if unparseable entry then cache
      else
        let current := inherit previous entry in
        specEntries rest (pc + 1) current (<[pc := current]> cache)
  end.

Definition specSourceMapCache (sourceMap : string) : gmap Z SourceMapEntry :=
  if String.eqb sourceMap EmptyString then ∅
  else specEntries (split ";" sourceMap) 0 zeroEntry ∅.

(** The end line in the words of the specification: the depth is
    followed character by character, and the scan ends on the first
    line where it is back to zero after having been positive. *)
Fixpoint specScanChars (chars : string) (braceDepth : Z) (wasPositive : bool)
    : Z * bool * bool :=
  match chars with
  | EmptyString => (braceDepth, wasPositive, false)
  | String char rest =>
      let d1 := if Ascii.eqb char "{" then braceDepth + 1 else braceDepth in
      let d2 := if Ascii.eqb char "}" then d1 - 1 else d1 in
      let wasPositive' := wasPositive || (0 <? d2) in
      if (d2 =? 0) && wasPositive' then (d2, wasPositive', true)
      else specScanChars rest d2 wasPositive'
  end.

Fixpoint specScanForward (lines : list string) (i braceDepth : Z) (wasPositive : bool)
    : option Z :=
  match lines with
  | [] => None
  | l :: rest =>
      let '(braceDepth', wasPositive', found) := specScanChars l braceDepth wasPositive in
      if found then Some (i + 1)
      else specScanForward rest (i + 1) braceDepth' wasPositive'
  end.

(** The scan of the specification ends on a line it entered without
    the depth ever having been positive: the braces close on the line
    on which they first open. *)
Fixpoint closesWhereItOpens (lines : list string) (braceDepth : Z) (wasPositive : bool)
    : bool :=
  match lines with
  | [] => false
  | l :: rest =>
      let '(braceDepth', wasPositive', found) := specScanChars l braceDepth wasPositive in
      if found then negb wasPositive
      else closesWhereItOpens rest braceDepth' wasPositive'
  end.

Definition specEndLine (source : string) (functionStartLine : Z) : Z :=
  let lines := split newline source in
  default (Z.of_nat (length lines))
          (specScanForward (drop (Z.to_nat (functionStartLine - 1)) lines)
                           (functionStartLine - 1) 0 false).

(** The byte offset at which line [k], counted from 0, starts: every
    line before it takes its length and one newline. *)
Fixpoint lineStart (lines : list string) (k : nat) : Z :=
  match k, lines with
  | S k', l :: rest => Z.of_nat (String.length l) + 1 + lineStart rest k'
  | _, _ => 0
  end.

(** The name a line declares: what the test
    [line.includes('function ')] and the match of
    [/function\s+(\w+)/] give for it. *)
Definition declaredName (l : string) : option string :=
  if includes l "function " then matchFunctionName l else None.

(** The source file is UTF-8 and the compiler's offsets count its
    bytes: a character below 0x80 is one byte, and one from 0x80 to
    0xFF is two. *)
Definition utf8Char (c : ascii) : list Z :=
  let n := Z.of_N (N_of_ascii c) in
  if n <? 0x80 then [n]
  else [Z.lor 0xc0 (Z.shiftr n 6); Z.lor 0x80 (Z.land n 0x3f)].

Fixpoint utf8Bytes (s : string) : list Z :=
  match s with
  | EmptyString => []
  | String c rest => (utf8Char c ++ utf8Bytes rest)%list
  end.

Fixpoint isAscii (s : string) : bool :=
  match s with
  | EmptyString => true
  | String c rest => (Z.of_N (N_of_ascii c) <? 0x80) && isAscii rest
  end.

(** The offset of the first byte of line [k], counted from 0, in the
    file: every line before it takes its bytes and one newline. *)
Fixpoint byteLineStart (lines : list string) (k : nat) : Z :=
  match k, lines with
  | S k', l :: rest => Z.of_nat (length (utf8Bytes l)) + 1 + byteLineStart rest k'
  | _, _ => 0
  end.

End StorageLayoutParser.

(* ===================================================================== *)
(** ** DebugService (services/debug_service) *)
(* ===================================================================== *)

Module DebugService.
Import JS TransactionExecutor StorageLayoutParser.

(** The [revertLocation] field of a session's result. *)
Record RevertLocation : Type := {
  rl_line : Z;
  rl_column : number;
  rl_snippet : string;
  rl_functionContext : option FunctionContext
}.

Definition isRevertStep (t : ExecutionTrace) : bool :=
  String.eqb (opcode t) "REVERT" || String.eqb (opcode t) "INVALID".

(** [traces.findIndex(...)], counted from [i]; [None] stands for -1. *)
Fixpoint findIndex {A : Type} (f : A -> bool) (l : list A) (i : nat) : option nat :=
  match l with
  | [] => None
  | x :: rest => if f x then Some i else findIndex f rest (S i)
  end.

(** The loop [for (i = revertIndex - 1; i >= 0; i--)] with [count]
    indices left to visit: the program counter of the nearest earlier
    step that has a location, [triggerPC] when there is none. *)
Fixpoint findTrigger (parser : Parser) (traces : list ExecutionTrace) (count : nat)
    (triggerPC : Z) : Z :=
  match count with
  | O => triggerPC
  | S i =>
      match traces !! i with
      | None => findTrigger parser traces i triggerPC
      | Some trace =>
          match getSourceLocation parser (pc trace) with
          | Some tempLoc =>
              if 0 <? line tempLoc then pc trace
              else findTrigger parser traces i triggerPC
          | None => findTrigger parser traces i triggerPC
          end
      end
  end.

(** The fallback: the first [require] of the source. *)
Definition firstRequire (parser : Parser) : option RevertLocation :=
  match findAllRequires parser with
  | req :: _ =>
      Some {| rl_line := rq_line req; rl_column := Fin 1; rl_snippet := rq_snippet req;
              rl_functionContext := getFunctionContext parser (rq_line req) |}
  | [] => None
  end.

(** Step 4 of [debug]: the revert location of a transaction, given
    whether it succeeded, the parser (when a contract path was given)
    and the traces. *)
Definition revertLocation (success : bool) (parser : option Parser)
    (traces : list ExecutionTrace) : option RevertLocation :=
  match success, parser with
  | false, Some parser =>
      match findIndex isRevertStep traces 0 with
      | None => None
      | Some revertIndex =>
          match traces !! revertIndex with
          | None => None
          | Some revertTrace =>
              let triggerPC := findTrigger parser traces revertIndex (pc revertTrace) in
              match getSourceLocation parser triggerPC with
              | Some loc =>
                  if 1 <? line loc then
                    Some {| rl_line := line loc; rl_column := column loc;
                            rl_snippet := snippet loc;
                            rl_functionContext := getFunctionContext parser (line loc) |}
                  else firstRequire parser
              | None => firstRequire parser
              end
          end
      end
  | _, _ => None
  end.

End DebugService.

(* ===================================================================== *)
(** ** PDFGenerator (services/pdf_generator) *)
(* ===================================================================== *)

Module PDFGenerator.
Import JS TransactionExecutor.

(** The result of [tryDecodeString]; [decodedValue] is its [value]
    field. *)
Record Decoded : Type := {
  isString : bool;
  decodedValue : string
}.

Definition quote : string := String (ascii_of_N 34) EmptyString.

(** [/^[\x20-\x7E]*$/.test(s)]. *)
Fixpoint isPrintable (s : string) : bool :=
  match s with
  | EmptyString => true
  | String c s' =>
      let n := N_of_ascii c in
      ((32 <=? n) && (n <=? 126))%N && isPrintable s'
  end.

(** [ethers.toUtf8String(data)] for a hex string. *)
Definition toUtf8String (data : string) : Abi.Result :=
  match Abi.getBytes data with
  | Some bytes => Abi.toUtf8String bytes
  | None => Abi.Throws
  end.

(** [s.slice(-2)]. *)
Definition lastTwo (s : string) : string :=
  sliceFrom s (String.length s - 2).

(** The short-string branch: the text when the word has the format of
    a short string and its bytes are printable. *)
Definition shortString (paddedHex : string) : option string :=
  match parseInt (lastTwo paddedHex) 16 with
  | Fin lastByte =>
      if (0 <? lastByte) && (Z.rem lastByte 2 =? 0) && (lastByte <? 64) then
        let length := lastByte / 2 in
        let stringHex := slice paddedHex 0 (Z.to_nat (length * 2)) in
        match toUtf8String ("0x" +:+ stringHex) with
        | Abi.Text decoded => if isPrintable decoded then Some decoded else None
        | Abi.Wide => None (* the test fails on a code unit above 0x7E *)
        | Abi.Throws => None (* the inner [catch] *)
        end
      else None
  | _ => None
  end.

(** [None] when the function throws: the handler of the outer [try]
    calls [BigInt(hexValue)] again. *)
Definition tryDecodeString (hexValue : string) : option Decoded :=
  let hex := if startsWith hexValue "0x" then sliceFrom hexValue 2 else hexValue in
  let paddedHex := padStart hex 64 "0" in
  match shortString paddedHex with
  | Some decoded =>
      Some {| isString := true; decodedValue := quote +:+ decoded +:+ quote |}
  | None =>
      match BigInt hexValue with
      | Some b =>
          if b =? 0 then Some {| isString := false; decodedValue := "0" |}
          else Some {| isString := false; decodedValue := bigIntToString b |}
      | None => None
      end
  end.

(** The two texts [addCompactReport] prints for a storage change. *)
Definition valueTexts (change : StorageChange) : option (string * string) :=
  oldDecoded ← tryDecodeString (oldValue change);
  newDecoded ← tryDecodeString (newValue change);
  if isString oldDecoded || isString newDecoded then
    Some (if isString oldDecoded then decodedValue oldDecoded
          else if String.eqb (oldValueDecimal change) "0" then quote +:+ quote
               else decodedValue oldDecoded,
          if isString newDecoded then decodedValue newDecoded
          else if String.eqb (newValueDecimal change) "0" then quote +:+ quote
               else decodedValue newDecoded)
  else Some (oldValueDecimal change, newValueDecimal change).

(** *** Notions used to state properties *)

Definition hexDigit (n : N) : ascii :=
  if (n <? 10)%N then ascii_of_N (48 + n) else ascii_of_N (87 + n).

(** The bytes of a text as lower-case hexadecimal digits. *)
Fixpoint toHex (s : string) : string :=
  match s with
  | EmptyString => EmptyString
  | String c s' =>
      let n := N_of_ascii c in
      String (hexDigit (n / 16)) (String (hexDigit (n mod 16)) (toHex s'))
  end.

(** The storage word of a string of at most 31 bytes: the bytes, left
    aligned, and twice the length in the last byte. *)
Definition shortStringWord (s : string) : string :=
  toHex s +:+ repeat "0" (62 - 2 * String.length s)
    +:+ toHex (String (ascii_of_nat (2 * String.length s)) EmptyString).

End PDFGenerator.

(* ===================================================================== *)
(** ** Request validation (api/validators/request_validator) *)
(* ===================================================================== *)

Module RequestValidator.
Import JS.

(** What the middleware does with a request: it calls [next], or
    throws an error with a message. *)
Inductive Outcome : Type :=
| Next
| Throws (message : string).

(** [[a-fA-F0-9]]. *)
Definition isHexChar (c : ascii) : bool :=
  let n := N_of_ascii c in
  ((97 <=? n) && (n <=? 102) || (65 <=? n) && (n <=? 70)
   || (48 <=? n) && (n <=? 57))%N.

Fixpoint allHexChars (s : string) : bool :=
  match s with
  | EmptyString => true
  | String c s' => isHexChar c && allHexChars s'
  end.

(** [/^0x[a-fA-F0-9]{64}$/.test(txHash)]. *)
Definition isValid (txHash : string) : bool :=
  match txHash with
  | String "0" (String "x" digits) =>
      (String.length digits =? 64)%nat && allHexChars digits
  | _ => false
  end.

Definition validateTxHash (txHash : option string) : Outcome :=
  match txHash with
  | None => Throws "txHash not available"
  | Some txHash =>
      if negb (isValid txHash) then
        Throws "Invalid Ethereum address format. Expected: 0x followed by 40 hex characters"
      else Next
  end.

End RequestValidator.

(* ===================================================================== *)
(** ** Concrete inputs *)
(* ===================================================================== *)

Module Examples.
Import JS TransactionExecutor.

(** A 32-byte word written with its [0x] prefix. *)
Definition word (digits : string) : string := "0x" +:+ padStart digits 64 "0".

Definition record (op : string) (gasLeft : Z) (st : list string) : StructLog :=
  {| log_pc := 0; log_op := op; log_gas := gasLeft; log_gasCost := None;
     log_stack := Some st; log_memory := None; log_depth := Some 1 |}.

Definition traceOf (logs : list StructLog) : TraceResult :=
  {| structLogs := Some logs; returnValue := None; revertReason := None |}.

(** The trace of the specification: step 4 loads slot 1, step 5 has
    the loaded 7 on top of its stack, step 9 stores 9 to slot 1. *)
Definition loadThenStore : list StructLog :=
  [ record "PUSH1" 1000 [];
    record "PUSH1" 997 [word "80"];
    record "MSTORE" 994 [word "80"; word "40"];
    record "PUSH1" 982 [];
    record "SLOAD" 979 [word "1"];
    record "PUSH1" 879 [word "7"];
    record "ADD" 876 [word "7"; word "2"];
    record "PUSH1" 873 [word "9"];
    record "DUP1" 870 [word "9"; word "1"];
    record "SSTORE" 867 [word "9"; word "9"; word "1"] ].

(** A counter that is incremented twice: slot 1 is read as 7, written
    8, read again as 8 and written 9. *)
Definition incrementTwice : list StructLog :=
  [ record "SLOAD" 1000 [word "1"];
    record "PUSH1" 900 [word "7"];
    record "SSTORE" 897 [word "8"; word "1"];
    record "SLOAD" 797 [word "1"];
    record "PUSH1" 697 [word "8"];
    record "SSTORE" 694 [word "9"; word "1"] ].

(** A write that is only read back afterwards. *)
Definition storeThenLoad : list StructLog :=
  [ record "SSTORE" 1000 [word "9"; word "1"];
    record "SLOAD" 900 [word "1"];
    record "POP" 800 [word "9"] ].

(** A write to a slot no step loads. *)
Definition storeOnly : list StructLog :=
  [ record "PUSH1" 1000 [];
    record "SSTORE" 997 [word "5"; word "2"] ].

(** A trace in which a sub-call ends with no gas left: the step after
    it is not charged the difference of the two gas readings. *)
Definition outOfGasCall : TraceResult :=
  {| structLogs := Some
       [ {| log_pc := 10; log_op := "CALL"; log_gas := 1000; log_gasCost := Some 100;
            log_stack := Some []; log_memory := None; log_depth := Some 1 |};
         {| log_pc := 0; log_op := "STOP"; log_gas := 0; log_gasCost := Some 0;
            log_stack := Some []; log_memory := None; log_depth := Some 2 |};
         {| log_pc := 11; log_op := "POP"; log_gas := 900; log_gasCost := Some 2;
            log_stack := Some []; log_memory := None; log_depth := Some 1 |} ];
     returnValue := None;
     revertReason := None |}.

(** Return payloads: the selector and the ABI encoding of what
    follows it. *)
Definition panicPayload : string :=
  "4e487b71" +:+ padStart "11" 64 "0".

Definition errorPayload : string :=
  "08c379a0"
    +:+ padStart "20" 64 "0"
    +:+ padStart "9" 64 "0"
    +:+ "62616420696e707574" +:+ repeat "0" 46.

Definition failed (payload : string) (reason : option string) : TraceResult :=
  {| structLogs := None; returnValue := Some payload; revertReason := reason |}.

Definition lf : string := String StorageLayoutParser.newline EmptyString.

(** A function on one line, followed by a function on two. *)
Definition oneLineFunction : string :=
  "function f() { }" +:+ lf +:+ "function g() {" +:+ lf +:+ "}".

(** The function of the specification, one statement per line. *)
Definition fooSource : string :=
  "function foo() external {" +:+ lf +:+ "  uint x = 1;" +:+ lf
    +:+ "  require(x > 0);" +:+ lf +:+ "}".

(** A parser whose source map has one entry, in compiler-generated
    code, for a bytecode of two instructions. *)
Definition syntheticOnly : StorageLayoutParser.Parser :=
  StorageLayoutParser.loaded "contract C {}" "0:13:1:-" "0000".

(** Twenty-two instructions, all mapped to compiler-generated code
    but the first. *)
Definition farFromSource : StorageLayoutParser.Parser :=
  StorageLayoutParser.loaded "contract C {}"
    "0:13:0:-;0:13:1;;;;;;;;;;;;;;;;;;;;" (repeat "0" 44).

(** The 32-byte value that holds the short string [hi]. *)
Definition shortHi : string := "0x6869" +:+ repeat "0" 58 +:+ "04".

(** A trace in the older tracer format, whose stack words carry no
    [0x] prefix: slot 1 is loaded as 10 and then written. *)
Definition unprefixed : list StructLog :=
  [ record "SLOAD" 1000 [padStart "1" 64 "0"];
    record "PUSH1" 900 [padStart "a" 64 "0"];
    record "SSTORE" 897 [padStart "b" 64 "0"; padStart "1" 64 "0"] ].

(** A parser for the function of the specification: the first of its
    two instructions maps to the [require] of line 3, the second to
    compiler-generated code. *)
Definition fooParser : StorageLayoutParser.Parser :=
  StorageLayoutParser.loaded fooSource "42:15:0:-;0:0:1:-" "5ffd".

(** A call that reverts at its second instruction. *)
Definition revertedCall : list StructLog :=
  [ {| log_pc := 0; log_op := "PUSH0"; log_gas := 1000; log_gasCost := Some 2;
       log_stack := Some []; log_memory := None; log_depth := Some 1 |};
    {| log_pc := 1; log_op := "REVERT"; log_gas := 998; log_gasCost := Some 0;
       log_stack := Some [word "0"; word "0"]; log_memory := None;
       log_depth := Some 1 |} ].

(** The Panic payloads as bytes: the selector and a 32-byte code. *)
Definition panicBytes : string :=
  panicSelector +:+ repeat (ascii_of_N 0) 31 +:+ String (ascii_of_N 0x11) EmptyString.

Definition unknownPanicBytes : string :=
  panicSelector +:+ repeat (ascii_of_N 0) 31 +:+ String (ascii_of_N 0x99) EmptyString.

(** A source with a character outside ASCII on its first line (an e
    with an acute accent, two bytes in the file), and [ab] on the
    second. *)
Definition accented : string :=
  String (ascii_of_N 0xe9) (String StorageLayoutParser.newline "ab").

(** A function with a comment line that holds a [require(] and a
    division, and a line with a division. *)
Definition commentedSource : string :=
  "function f(uint a, uint b) public {" +:+ lf
    +:+ "  // require(b > 0); return a / b;" +:+ lf
    +:+ "  return a / b;" +:+ lf +:+ "}".

End Examples.

(** The 256 values of a character. *)
Ltac ascii_cases c :=
  let b0 := fresh "b" in let b1 := fresh "b" in let b2 := fresh "b" in
  let b3 := fresh "b" in let b4 := fresh "b" in let b5 := fresh "b" in
  let b6 := fresh "b" in let b7 := fresh "b" in
  destruct c as [b0 b1 b2 b3 b4 b5 b6 b7];
  destruct b0, b1, b2, b3, b4, b5, b6, b7.

(** Case analysis on every integer comparison of the goal. *)
Ltac compare_step :=
  match goal with
  | |- context [(?x <=? ?y)%Z] => destruct (Z.leb_spec x y)
  | |- context [(?x <? ?y)%Z] => destruct (Z.ltb_spec x y)
  | |- context [(?x =? ?y)%Z] => destruct (Z.eqb_spec x y)
  | |- context [(?x <=? ?y)%nat] => destruct (Nat.leb_spec x y)
  | |- context [(?x <? ?y)%nat] => destruct (Nat.ltb_spec x y)
  end.

Ltac compare_all := repeat compare_step; cbn [andb orb negb].

(* ===================================================================== *)
(** ** Properties of the disassembler *)
(* ===================================================================== *)

Module DisassemblerProofs.
Import JS StorageLayoutParser.

Lemma advance_operandBytes opcode : advance opcode = 1 + operandBytes opcode.
Proof.
  destruct opcode as [| b | z]; simpl; try reflexivity.
  destruct ((96 <=? z) && (z <=? 127)); lia.
Qed.

Lemma operandBytes_nonneg opcode : 0 <= operandBytes opcode.
Proof.
  destruct opcode as [| b | z]; simpl; try lia.
  destruct (96 <=? z) eqn:H1; destruct (z <=? 127) eqn:H2; simpl; lia.
Qed.

Lemma walkFrom_ge code pc k p i : walkFrom code pc k p i -> pc <= p /\ k <= i.
Proof.
  induction 1 as [pc k Hlt | pc k p i Hlt Hw IH].
  - lia.
  - pose proof (operandBytes_nonneg (opcodeAt code pc)). lia.
Qed.

(** The loop computes the walk: started in a state whose table only
    has keys below [pc], with fuel for the bytes that are left, it
    adds exactly the instructions the walk records from there. *)
Lemma pcLoop_spec code fuel : forall pc k (m : gmap Z Z),
  0 <= pc ->
  Z.of_nat (String.length code) - pc * 2 <= Z.of_nat fuel ->
  (forall p v, m !! p = Some v -> p < pc) ->
  forall p v,
    pcLoop fuel code pc k m !! p = Some v <->
    m !! p = Some v \/ walkFrom code pc k p v.
Proof.
  induction fuel as [| fuel IH]; intros pc k m Hpc Hfuel Hkeys p v; simpl.
  - split; [auto |]. intros [H | H]; [exact H |].
    inversion H; subst; lia.
  - destruct (pc * 2 <? Z.of_nat (String.length code)) eqn:Hlt.
    + apply Z.ltb_lt in Hlt.
      pose proof (operandBytes_nonneg (opcodeAt code pc)) as Hop.
      rewrite advance_operandBytes, Z.add_assoc.
      rewrite IH.
      * split.
        -- intros [H | H].
           ++ destruct (decide (pc = p)) as [-> | Hne].
              ** rewrite lookup_insert_eq in H. inversion H; subst.
                 right. now apply walk_here.
              ** rewrite lookup_insert_ne in H by exact Hne. now left.
           ++ right. now apply walk_step.
        -- intros [H | H].
           ++ left. rewrite lookup_insert_ne; [exact H |].
              apply Hkeys in H. lia.
           ++ inversion H; subst.
              ** left. apply lookup_insert_eq.
              ** now right.
      * lia.
      * lia.
      * intros q w Hq. destruct (decide (pc = q)) as [-> | Hne]; [lia |].
        rewrite lookup_insert_ne in Hq by exact Hne.
        apply Hkeys in Hq. lia.
    + apply Z.ltb_ge in Hlt. split; [auto |].
      intros [H | H]; [exact H |]. inversion H; subst; lia.
Qed.

(** The walk is a function both ways: an offset starts at most one
    instruction and an index names at most one offset. *)
Lemma walkFrom_functional code pc k p i p' i' :
  walkFrom code pc k p i -> walkFrom code pc k p' i' ->
  (p = p' <-> i = i').
Proof.
  intros H. revert p' i'.
  induction H as [pc k Hlt | pc k p i Hlt Hw IH]; intros p' i' H'.
  - inversion H'; subst; [tauto |].
    match goal with Hs : walkFrom _ _ _ _ _ |- _ => apply walkFrom_ge in Hs end.
    pose proof (operandBytes_nonneg (opcodeAt code pc)). lia.
  - inversion H'; subst.
    + apply walkFrom_ge in Hw.
      pose proof (operandBytes_nonneg (opcodeAt code p')). lia.
    + now apply IH.
Qed.

(** C5. [buildPCToInstructionMap] records exactly the instructions of
    the walk that starts at offset 0 with index 0, takes one opcode
    byte plus [opcode - 0x5f] operand bytes for the opcodes
    [0x60..0x7f], and gives the next instruction the next index; for
    the bytecode [600161020300] the table is [0 -> 0, 2 -> 1, 5 -> 2]
    and nothing else. *)
Theorem C5_buildPCToInstructionMap_walk :
  (forall bytecode p i,
      buildPCToInstructionMap bytecode !! p = Some i <->
      instructionAt (strip0x bytecode) p i)
  /\ buildPCToInstructionMap "600161020300" = {[ 0 := 0; 2 := 1; 5 := 2 ]}
  /\ size (buildPCToInstructionMap "600161020300") = 3%nat.
Proof.
  split; [| split].
  - intros bytecode p i. unfold buildPCToInstructionMap, instructionAt.
    rewrite pcLoop_spec.
    + rewrite lookup_empty. split; [intros [H | H]; [discriminate | exact H] | auto].
    + lia.
    + lia.
    + intros q w Hq. rewrite lookup_empty in Hq. discriminate.
  - apply map_eq. intros q.
    vm_compute (buildPCToInstructionMap "600161020300").
    reflexivity.
  - vm_compute. reflexivity.
Qed.

Lemma C5_buildPCToInstructionMap_walk_witness :
  instructionAt "600161020300" 5 2.
Proof.
  apply (proj1 C5_buildPCToInstructionMap_walk "600161020300" 5 2).
  vm_compute. reflexivity.
Defined.

End DisassemblerProofs.

(* ===================================================================== *)
(** ** Properties of the source-map decompression *)
(* ===================================================================== *)

Module SourceMapProofs.
Import JS StorageLayoutParser.

Lemma forEachEntry_lookup entries : forall pc st cache q,
  forEachEntry entries pc st cache !! q =
  if (pc <=? q) && (q <? pc + Z.of_nat (length entries))
  then Some (entryOf (lastAfter st (take (S (Z.to_nat (q - pc))) entries)))
  else cache !! q.
Proof.
  induction entries as [| e rest IH]; intros pc st cache q.
  - simpl. compare_all; reflexivity || lia.
  - cbn [forEachEntry]. rewrite IH. cbn [length]. compare_all; try lia.
    + replace (Z.to_nat (q - pc)) with (S (Z.to_nat (q - (pc + 1)))) by lia.
      reflexivity.
    + rewrite lookup_insert_ne by lia. reflexivity.
    + assert (q = pc) as -> by lia.
      rewrite lookup_insert_eq, Z.sub_diag. simpl. now destruct rest.
    + rewrite lookup_insert_ne by lia. reflexivity.
Qed.

Lemma forEachEntry_size entries : forall pc st (cache : gmap Z SourceMapEntry),
  (forall q, is_Some (cache !! q) -> q < pc) ->
  size (forEachEntry entries pc st cache) = (size cache + length entries)%nat.
Proof.
  induction entries as [| e rest IH]; intros pc st cache Hkeys; simpl.
  - lia.
  - rewrite IH.
    + rewrite map_size_insert_None; [lia |].
      destruct (cache !! pc) eqn:Hpc; [| reflexivity].
      specialize (Hkeys pc (ex_intro _ _ Hpc)). lia.
    + intros q [x Hq]. destruct (decide (pc = q)) as [-> | Hne]; [lia |].
      rewrite lookup_insert_ne in Hq by exact Hne.
      specialize (Hkeys q (ex_intro _ _ Hq)). lia.
Qed.

(** The cache of a source map that is not empty, position by
    position. *)
Lemma cache_lookup sourceMap (k : nat) :
  sourceMap <> EmptyString ->
  buildSourceMapCache sourceMap !! Z.of_nat k =
  if (k <? length (split ";" sourceMap))%nat
  then Some (entryOf (lastAfter initialLast (take (S k) (split ";" sourceMap))))
  else None.
Proof.
  intros Hne. unfold buildSourceMapCache.
  destruct (String.eqb_spec sourceMap EmptyString) as [-> | _]; [congruence |].
  rewrite forEachEntry_lookup, lookup_empty.
  replace (Z.to_nat (Z.of_nat k - 0)) with k by lia.
  compare_all; reflexivity || lia.
Qed.

Lemma cache_lookup_outside sourceMap q :
  q < 0 \/ Z.of_nat (length (split ";" sourceMap)) <= q ->
  buildSourceMapCache sourceMap !! q = None.
Proof.
  intros Hq. unfold buildSourceMapCache.
  destruct (String.eqb sourceMap EmptyString); [apply lookup_empty |].
  rewrite forEachEntry_lookup, lookup_empty.
  compare_all; reflexivity || lia.
Qed.

(** The code's update of a running value is the field-by-field
    inheritance. *)
Lemma field_inheritNumber entry i previous :
  field (split ":" entry) i (fun p => parseInt p 0) previous
  = inheritNumber entry i previous.
Proof.
  unfold field, inheritNumber, fieldText.
  destruct (split ":" entry !! i) as [[| c rest] |]; reflexivity.
Qed.

(** Decoding an entry is inheriting from the entry before it, also
    for the empty entry, whose only part is the empty string. *)
Lemma entryOf_decodeEntry st entry :
  entryOf (decodeEntry st entry) = inherit (entryOf st) entry.
Proof.
  unfold decodeEntry.
  destruct (String.eqb_spec entry EmptyString) as [-> | Hne].
  - destruct st; reflexivity.
  - unfold inherit, entryOf. cbn [lastStart lastLength lastFileIndex].
    now rewrite !field_inheritNumber.
Qed.

Lemma lastAfter_snoc st entries entry :
  lastAfter st (entries ++ [entry])%list = decodeEntry (lastAfter st entries) entry.
Proof. unfold lastAfter. now rewrite foldl_app. Qed.

Lemma take_S_lookup {A} (l : list A) k x :
  l !! k = Some x -> take (S k) l = (take k l ++ [x])%list.
Proof. intros H. now apply take_S_r. Qed.

Lemma split_length sep s : length (split sep s) = S (countChar sep s).
Proof.
  induction s as [| c s IH]; simpl; [reflexivity |].
  destruct (Ascii.eqb c sep); simpl; [now rewrite IH |].
  destruct (split sep s); simpl in *; [discriminate | exact IH].
Qed.

(** C6, counterexample.  The empty string has one ';'-separated
    position, whose entry is empty, yet its cache has no entry: the
    code takes the empty string for a source map that is missing. *)
Lemma C6_counterexample :
  length (split ";" EmptyString) = 1%nat
  /\ split ";" EmptyString !! 0%nat = Some EmptyString
  /\ buildSourceMapCache EmptyString !! 0 = None
  /\ size (buildSourceMapCache EmptyString) = 0%nat
  /\ size (buildSourceMapCache EmptyString) <> length (split ";" EmptyString).
Proof. repeat split. discriminate. Qed.

(** C6. For a source map that is not the empty string, the cache has
    one entry per ';'-separated position (one more than it has
    semicolons), keyed by the position; the entry at position 0 is read
    against zeros and the entry at every later position against the
    entry before it: a start, length or file index that is missing or
    empty is the one of the entry before, and one that is written is
    its [parseInt].  The string [10:5:0:-;;20:3:0:-] gives the three
    entries (10,5,0), (10,5,0) and (20,3,0); [10:5:0:-;:7;20] gives
    (10,5,0), (10,7,0) and (20,7,0), and [1:2:3;::4;5:] gives (1,2,3),
    (1,2,4) and (5,2,4); the empty string, which stands for no source
    map, gives none. *)
Theorem C6_decompression_inherits (sourceMap : string) :
  sourceMap <> EmptyString ->
  let entries := split ";" sourceMap in
  let cache := buildSourceMapCache sourceMap in
  let fieldOf (i : nat) (e : SourceMapEntry) :=
    match i with
    | 0%nat => start e
    | 1%nat => entryLength e
    | _ => fileIndex e
    end in
  size cache = length entries
  /\ length entries = S (countChar ";" sourceMap)
  /\ (forall q, is_Some (cache !! q) <-> 0 <= q < Z.of_nat (length entries))
  /\ (forall e, entries !! 0%nat = Some e -> cache !! 0 = Some (inherit zeroEntry e))
  /\ (forall k e, entries !! S k = Some e ->
        exists previous,
          cache !! Z.of_nat k = Some previous /\
          cache !! Z.of_nat (S k) = Some (inherit previous e))
  /\ (forall k e i, entries !! S k = Some e -> (i < 3)%nat ->
        exists previous current,
          cache !! Z.of_nat k = Some previous /\
          cache !! Z.of_nat (S k) = Some current /\
          match split ":" e !! i with
          | None => fieldOf i current = fieldOf i previous
          | Some text =>
              if String.eqb text EmptyString
              then fieldOf i current = fieldOf i previous
              else fieldOf i current = parseInt text 0
          end)
  /\ buildSourceMapCache "10:5:0:-;;20:3:0:-" =
       {[ 0 := {| start := Fin 10; entryLength := Fin 5; fileIndex := Fin 0 |};
          1 := {| start := Fin 10; entryLength := Fin 5; fileIndex := Fin 0 |};
          2 := {| start := Fin 20; entryLength := Fin 3; fileIndex := Fin 0 |} ]}
  /\ buildSourceMapCache "10:5:0:-;:7;20" =
       {[ 0 := {| start := Fin 10; entryLength := Fin 5; fileIndex := Fin 0 |};
          1 := {| start := Fin 10; entryLength := Fin 7; fileIndex := Fin 0 |};
          2 := {| start := Fin 20; entryLength := Fin 7; fileIndex := Fin 0 |} ]}
  /\ buildSourceMapCache "1:2:3;::4;5:" =
       {[ 0 := {| start := Fin 1; entryLength := Fin 2; fileIndex := Fin 3 |};
          1 := {| start := Fin 1; entryLength := Fin 2; fileIndex := Fin 4 |};
          2 := {| start := Fin 5; entryLength := Fin 2; fileIndex := Fin 4 |} ]}
  /\ buildSourceMapCache EmptyString = ∅.
Proof.
  intros Hne entries cache fieldOf. subst entries cache.
  assert (forall k e, split ";" sourceMap !! S k = Some e ->
            buildSourceMapCache sourceMap !! Z.of_nat k
            = Some (entryOf (lastAfter initialLast (take (S k) (split ";" sourceMap))))
            /\ buildSourceMapCache sourceMap !! Z.of_nat (S k)
               = Some (inherit (entryOf (lastAfter initialLast
                                           (take (S k) (split ";" sourceMap)))) e))
    as Hstep.
  { intros k e He.
    pose proof (lookup_lt_Some _ _ _ He) as Hlt.
    rewrite !cache_lookup by exact Hne.
    assert ((k <? length (split ";" sourceMap))%nat = true) as ->
      by (apply Nat.ltb_lt; lia).
    assert ((S k <? length (split ";" sourceMap))%nat = true) as ->
      by (apply Nat.ltb_lt; lia).
    split; [reflexivity |].
    rewrite (take_S_lookup _ _ _ He), lastAfter_snoc.
    f_equal. apply entryOf_decodeEntry. }
  split; [| split; [| split; [| split; [| split; [| split]]]]].
  - unfold buildSourceMapCache.
    destruct (String.eqb_spec sourceMap EmptyString) as [-> | _]; [congruence |].
    rewrite forEachEntry_size.
    + rewrite map_size_empty. lia.
    + intros q [x Hq]. rewrite lookup_empty in Hq. discriminate.
  - apply split_length.
  - intros q. split.
    + intros [x Hq].
      destruct (Z_lt_dec q 0) as [Hneg | Hpos];
        [rewrite cache_lookup_outside in Hq by lia; discriminate |].
      destruct (Z_le_dec (Z.of_nat (length (split ";" sourceMap))) q) as [Hbig | Hin];
        [rewrite cache_lookup_outside in Hq by lia; discriminate |].
      lia.
    + intros [H0 Hlt].
      replace q with (Z.of_nat (Z.to_nat q)) by lia.
      rewrite cache_lookup by exact Hne.
      destruct (Z.to_nat q <? length (split ";" sourceMap))%nat eqn:Hk;
        [eauto |].
      apply Nat.ltb_ge in Hk. lia.
  - intros e He.
    change 0 with (Z.of_nat 0). rewrite cache_lookup by exact Hne.
    pose proof (lookup_lt_Some _ _ _ He) as Hlt.
    apply Nat.ltb_lt in Hlt. rewrite Hlt.
    rewrite (take_S_lookup _ _ _ He). simpl.
    f_equal. apply (entryOf_decodeEntry initialLast e).
  - intros k e He. destruct (Hstep k e He) as [Hk HSk]. eauto.
  - intros k e i He Hi. destruct (Hstep k e He) as [Hk HSk].
    eexists _, _. split; [exact Hk |]. split; [exact HSk |].
    destruct i as [| [| [| i]]]; [| | | lia];
      cbn [fieldOf inherit start entryLength fileIndex];
      unfold inheritNumber, fieldText;
      destruct (split ":" e !! _) as [[| c rest] |]; reflexivity.
  - split; [| split; [| split]].
    + apply map_eq. intros q.
      vm_compute (buildSourceMapCache "10:5:0:-;;20:3:0:-").
      reflexivity.
    + apply map_eq. intros q.
      vm_compute (buildSourceMapCache "10:5:0:-;:7;20").
      reflexivity.
    + apply map_eq. intros q.
      vm_compute (buildSourceMapCache "1:2:3;::4;5:").
      reflexivity.
    + reflexivity.
Qed.

(** *** Entries that do not parse *)

Lemma inheritNumber_not_NaN entry i previous :
  isNaN previous = false -> badField (split ":" entry) i = false ->
  isNaN (inheritNumber entry i previous) = false.
Proof.
  unfold inheritNumber, fieldText, badField. intros Hprev Hbad.
  destruct (split ":" entry !! i) as [[| c rest] |]; assumption.
Qed.

Lemma inheritNumber_NaN entry i previous :
  badField (split ":" entry) i = true ->
  isNaN (inheritNumber entry i previous) = true.
Proof.
  unfold inheritNumber, fieldText, badField. intros Hbad.
  destruct (split ":" entry !! i) as [[| c rest] |];
    [discriminate | exact Hbad | discriminate].
Qed.

Lemma inherit_no_NaN previous entry :
  hasNaN previous = false -> unparseable entry = false ->
  hasNaN (inherit previous entry) = false.
Proof.
  unfold hasNaN, unparseable. intros Hprev Hentry.
  apply orb_false_elim in Hprev as [Hprev Hf].
  apply orb_false_elim in Hprev as [Hs Hl].
  apply orb_false_elim in Hentry as [Hentry H2].
  apply orb_false_elim in Hentry as [H0 H1].
  cbn [inherit start entryLength fileIndex].
  now rewrite !inheritNumber_not_NaN.
Qed.

Lemma inherit_NaN previous entry :
  unparseable entry = true -> hasNaN (inherit previous entry) = true.
Proof.
  unfold hasNaN, unparseable. intros Hentry.
  cbn [inherit start entryLength fileIndex].
  apply orb_true_iff in Hentry as [Hentry | H2].
  - apply orb_true_iff in Hentry as [H0 | H1].
    + now rewrite (inheritNumber_NaN _ 0 _ H0).
    + rewrite (inheritNumber_NaN _ 1 _ H1). now rewrite orb_true_r.
  - rewrite (inheritNumber_NaN _ 2 _ H2). now rewrite orb_true_r.
Qed.

Lemma lastAfter_no_NaN entries : forall st,
  hasNaN (entryOf st) = false ->
  Forall (fun e => unparseable e = false) entries ->
  hasNaN (entryOf (lastAfter st entries)) = false.
Proof.
  induction entries as [| e rest IH]; intros st Hst Hall; simpl.
  - exact Hst.
  - inversion Hall; subst. apply IH; [| assumption].
    rewrite entryOf_decodeEntry. now apply inherit_no_NaN.
Qed.

(** Over entries that all parse, the specified decompression does
    what the code does. *)
Lemma specEntries_parsed parsed : forall pc st cache others,
  Forall (fun e => unparseable e = false) parsed ->
  specEntries (parsed ++ others)%list pc (entryOf st) cache
  = specEntries others (pc + Z.of_nat (length parsed))
      (entryOf (lastAfter st parsed)) (forEachEntry parsed pc st cache).
Proof.
  induction parsed as [| e rest IH]; intros pc st cache others Hall.
  - cbn [app length forEachEntry lastAfter foldl]. now rewrite Z.add_0_r.
  - inversion Hall as [| ? ? He Hrest]; subst.
    cbn [app specEntries length forEachEntry]. rewrite He.
    rewrite <- entryOf_decodeEntry, IH by exact Hrest.
    f_equal. lia.
Qed.

Lemma parsed_before (entries : list string) (p : nat) :
  (forall q e, (q < p)%nat -> entries !! q = Some e -> unparseable e = false) ->
  Forall (fun e => unparseable e = false) (take p entries).
Proof.
  intros Hbefore. apply Forall_forall. intros e He.
  apply list_elem_of_lookup in He as [q Hq].
  pose proof (lookup_lt_Some _ _ _ Hq) as Hlen.
  rewrite length_take in Hlen.
  rewrite lookup_take_lt in Hq by lia.
  apply (Hbefore q e); [lia | exact Hq].
Qed.

(** The specified cache of a source map whose first entry that does
    not parse is at position [p]: what the code makes of the entries
    before [p]. *)
Lemma spec_cache_stops sourceMap (p : nat) bad :
  sourceMap <> EmptyString ->
  split ";" sourceMap !! p = Some bad ->
  unparseable bad = true ->
  (forall q e, (q < p)%nat -> split ";" sourceMap !! q = Some e ->
               unparseable e = false) ->
  specSourceMapCache sourceMap
  = forEachEntry (take p (split ";" sourceMap)) 0 initialLast ∅.
Proof.
  intros Hne Hbad Hun Hbefore. unfold specSourceMapCache.
  destruct (String.eqb_spec sourceMap EmptyString) as [E | _]; [congruence |].
  rewrite <- (take_drop_middle _ _ _ Hbad) at 1.
  change zeroEntry with (entryOf initialLast).
  rewrite specEntries_parsed by now apply parsed_before.
  cbn [specEntries]. now rewrite Hun.
Qed.

(** C2.  On a source map all of whose entries parse, the code builds
    the cache the specification asks for.  On one with an entry that
    does not parse, the first at position [p], it does not: the
    specified cache ends before [p] and the code agrees with it there,
    the entries before [p] holding numbers only, but the code goes on
    and has an entry at every position from [p] on, the one at [p]
    holding a NaN.  For [1:2:0;x;3:4:0] the specified cache is the
    entry (1,2,0) at position 0, and the code's has also (NaN,2,0) at
    position 1 and (3,4,0) at position 2. *)
Theorem C2_decompression_does_not_stop :
  (forall sourceMap,
      Forall (fun e => unparseable e = false) (split ";" sourceMap) ->
      buildSourceMapCache sourceMap = specSourceMapCache sourceMap)
  /\ (forall sourceMap (p : nat) bad,
        sourceMap <> EmptyString ->
        split ";" sourceMap !! p = Some bad ->
        unparseable bad = true ->
        (forall q e, (q < p)%nat -> split ";" sourceMap !! q = Some e ->
                     unparseable e = false) ->
        let cache := buildSourceMapCache sourceMap in
        let specified := specSourceMapCache sourceMap in
        (forall q, is_Some (specified !! q) <-> 0 <= q < Z.of_nat p)
        /\ (forall q e, specified !! q = Some e ->
              cache !! q = Some e /\ hasNaN e = false)
        /\ (forall k, (p <= k < length (split ";" sourceMap))%nat ->
              is_Some (cache !! Z.of_nat k) /\ specified !! Z.of_nat k = None)
        /\ (exists e, cache !! Z.of_nat p = Some e /\ hasNaN e = true)
        /\ cache <> specified)
  /\ unparseable "x" = true
  /\ specSourceMapCache "1:2:0;x;3:4:0" =
       {[ 0 := {| start := Fin 1; entryLength := Fin 2; fileIndex := Fin 0 |} ]}
  /\ buildSourceMapCache "1:2:0;x;3:4:0" =
       {[ 0 := {| start := Fin 1; entryLength := Fin 2; fileIndex := Fin 0 |};
          1 := {| start := NaN; entryLength := Fin 2; fileIndex := Fin 0 |};
          2 := {| start := Fin 3; entryLength := Fin 4; fileIndex := Fin 0 |} ]}.
Proof.
  split; [| split; [| split; [| split]]].
  - intros sourceMap Hall. unfold buildSourceMapCache, specSourceMapCache.
    destruct (String.eqb sourceMap EmptyString); [reflexivity |].
    pose proof (specEntries_parsed (split ";" sourceMap) 0 initialLast ∅ [] Hall)
      as H.
    rewrite app_nil_r in H. exact (eq_sym H).
  - intros sourceMap p bad Hne Hbad Hun Hbefore cache specified.
    subst cache specified.
    pose proof (lookup_lt_Some _ _ _ Hbad) as Hp.
    rewrite (spec_cache_stops _ _ _ Hne Hbad Hun Hbefore).
    assert (forall q,
              forEachEntry (take p (split ";" sourceMap)) 0 initialLast ∅ !! q
              = if (0 <=? q) && (q <? Z.of_nat p)
                then buildSourceMapCache sourceMap !! q
                else None) as Hspec.
    { intros q. rewrite forEachEntry_lookup, lookup_empty, length_take.
      replace (0 + Z.of_nat (p `min` length (split ";" sourceMap)))
        with (Z.of_nat p) by lia.
      destruct ((0 <=? q) && (q <? Z.of_nat p)) eqn:Hq; [| reflexivity].
      apply andb_true_iff in Hq as [Hq0 Hqp].
      apply Z.leb_le in Hq0. apply Z.ltb_lt in Hqp.
      replace q with (Z.of_nat (Z.to_nat q)) at 2 by lia.
      rewrite cache_lookup by exact Hne.
      assert ((Z.to_nat q <? length (split ";" sourceMap))%nat = true) as ->
        by (apply Nat.ltb_lt; lia).
      rewrite Z.sub_0_r, take_take.
      now replace (S (Z.to_nat q) `min` p)%nat with (S (Z.to_nat q)) by lia. }
    assert (exists e, buildSourceMapCache sourceMap !! Z.of_nat p = Some e
                      /\ hasNaN e = true) as Hnan.
    { rewrite cache_lookup by exact Hne.
      apply Nat.ltb_lt in Hp. rewrite Hp.
      eexists; split; [reflexivity |].
      rewrite (take_S_lookup _ _ _ Hbad), lastAfter_snoc, entryOf_decodeEntry.
      now apply inherit_NaN. }
    split; [| split; [| split; [| split]]].
    + intros q. rewrite Hspec.
      destruct ((0 <=? q) && (q <? Z.of_nat p)) eqn:Hq.
      * apply andb_true_iff in Hq as [Hq0 Hqp].
        apply Z.leb_le in Hq0. apply Z.ltb_lt in Hqp.
        split; [lia |]. intros _.
        replace q with (Z.of_nat (Z.to_nat q)) by lia.
        rewrite cache_lookup by exact Hne.
        assert ((Z.to_nat q <? length (split ";" sourceMap))%nat = true) as ->
          by (apply Nat.ltb_lt; lia).
        eauto.
      * split; [intros [x Hx]; discriminate |].
        intros [Hq0 Hqp]. apply andb_false_iff in Hq as [Hq | Hq];
          [apply Z.leb_gt in Hq | apply Z.ltb_ge in Hq]; lia.
    + intros q e. rewrite Hspec.
      destruct ((0 <=? q) && (q <? Z.of_nat p)) eqn:Hq; [| discriminate].
      intros He. split; [exact He |].
      apply andb_true_iff in Hq as [Hq0 Hqp].
      apply Z.leb_le in Hq0. apply Z.ltb_lt in Hqp.
      replace q with (Z.of_nat (Z.to_nat q)) in He by lia.
      rewrite cache_lookup in He by exact Hne.
      assert ((Z.to_nat q <? length (split ";" sourceMap))%nat = true) as Hlt
        by (apply Nat.ltb_lt; lia).
      rewrite Hlt in He. inversion He; subst.
      apply lastAfter_no_NaN; [reflexivity |].
      apply (parsed_before (split ";" sourceMap) (S (Z.to_nat q))).
      intros q' e' Hq' He'. apply (Hbefore q' e'); [lia | exact He'].
    + intros k [Hk1 Hk2]. split.
      * rewrite cache_lookup by exact Hne.
        apply Nat.ltb_lt in Hk2. rewrite Hk2. eauto.
      * rewrite Hspec.
        assert ((Z.of_nat k <? Z.of_nat p) = false) as ->
          by (apply Z.ltb_ge; lia).
        now rewrite andb_false_r.
    + exact Hnan.
    + intros Heq. destruct Hnan as (e & He & _).
      pose proof (Hspec (Z.of_nat p)) as Hat.
      rewrite <- Heq, He, Z.ltb_irrefl, andb_false_r in Hat. discriminate.
  - reflexivity.
  - apply map_eq. intros q.
    vm_compute (specSourceMapCache "1:2:0;x;3:4:0"). reflexivity.
  - apply map_eq. intros q.
    vm_compute (buildSourceMapCache "1:2:0;x;3:4:0"). reflexivity.
Qed.

Lemma C2_decompression_does_not_stop_witness :
  buildSourceMapCache "1:2:0;x;3:4:0" <> specSourceMapCache "1:2:0;x;3:4:0".
Proof.
  destruct C2_decompression_does_not_stop as (_ & H & _).
  apply (H "1:2:0;x;3:4:0" 1%nat "x").
  - discriminate.
  - reflexivity.
  - reflexivity.
  - intros q e Hq. destruct q as [| q]; [| lia].
    intros He. vm_compute in He. inversion He. reflexivity.
Defined.

Lemma C6_decompression_inherits_witness :
  size (buildSourceMapCache "10:5:0:-;;20:3:0:-") = 3%nat.
Proof.
  apply (C6_decompression_inherits "10:5:0:-;;20:3:0:-"). discriminate.
Defined.

End SourceMapProofs.

(* ===================================================================== *)
(** ** Properties of the trace normalizer *)
(* ===================================================================== *)

Module NormalizerProofs.
Import JS TransactionExecutor.

Lemma parseLoop_length logs : forall i lastGas,
  length (parseLoop logs i lastGas) = length logs.
Proof.
  induction logs as [| log rest IH]; intros i lastGas; simpl.
  - reflexivity.
  - now rewrite IH.
Qed.

Lemma parseLoop_lookup logs : forall i lastGas k log,
  logs !! k = Some log ->
  parseLoop logs i lastGas !! k =
  Some (parseStep (gasBefore logs lastGas k) (i + Z.of_nat k) log).
Proof.
  induction logs as [| l rest IH]; intros i lastGas k log Hk.
  - discriminate.
  - destruct k as [| k]; simpl in *.
    + inversion Hk; subst. now rewrite Z.add_0_r.
    + rewrite (IH _ _ _ _ Hk). do 2 f_equal; [| lia].
      destruct k as [| k]; reflexivity.
Qed.

Lemma parseLoop_lookup_None logs i lastGas k :
  logs !! k = None -> parseLoop logs i lastGas !! k = None.
Proof.
  intros H. apply lookup_ge_None. rewrite parseLoop_length.
  now apply lookup_ge_None.
Qed.

(** C7, counterexample.  Step 2 follows a step with no gas left: its
    cost is the [gasCost] of the input, 2, and not the difference
    [0 - 900] of the two gas readings. *)
Lemma C7_counterexample :
  (gas <$> parseTrace Examples.outOfGasCall !! 1%nat) = Some 0
  /\ (gas <$> parseTrace Examples.outOfGasCall !! 2%nat) = Some 900
  /\ (gasCost <$> parseTrace Examples.outOfGasCall !! 2%nat) = Some 2
  /\ (gasCost <$> parseTrace Examples.outOfGasCall !! 2%nat) <> Some (0 - 900).
Proof. repeat split; try reflexivity. discriminate. Qed.

(** C7, as the code has it.  [parseTrace] is a one-to-one transform:
    the result has the length of the input and the step at index [i]
    carries [i] and the program counter, opcode and gas of record [i].
    Its gas cost is the gas of record [i - 1] minus its own gas when
    [i > 0] and record [i - 1] has gas left; at index 0, and after a
    record with no gas left, it is the [gasCost] of the record when it
    has one and 0 otherwise. *)
Theorem C7_parseTrace_gas_cost (traceResult : TraceResult)
    (logs : list StructLog) (i : nat) (log : StructLog) :
  structLogs traceResult = Some logs ->
  logs !! i = Some log ->
  length (parseTrace traceResult) = length logs
  /\ exists t,
      parseTrace traceResult !! i = Some t
      /\ step t = Z.of_nat i /\ pc t = log_pc log
      /\ opcode t = log_op log /\ gas t = log_gas log
      /\ (i = 0%nat -> gasCost t = default 0 (log_gasCost log))
      /\ (forall previous, logs !! (i - 1)%nat = Some previous -> (0 < i)%nat ->
            (0 < log_gas previous ->
             gasCost t = log_gas previous - log_gas log)
            /\ (log_gas previous <= 0 ->
                gasCost t = default 0 (log_gasCost log))).
Proof.
  intros Hlogs Hi. unfold parseTrace. rewrite Hlogs. simpl.
  split; [apply parseLoop_length |].
  eexists. split; [apply (parseLoop_lookup _ _ _ _ _ Hi) |].
  cbn [parseStep step pc opcode gas gasCost].
  repeat split; try lia.
  - intros ->. reflexivity.
  - destruct i as [| i]; [lia |].
    replace (S i - 1)%nat with i in H by lia.
    simpl. rewrite H. simpl.
    destruct (Z.ltb_spec 0 (log_gas previous)); [reflexivity | lia].
  - destruct i as [| i]; [lia |].
    replace (S i - 1)%nat with i in H by lia.
    simpl. rewrite H. simpl.
    destruct (Z.ltb_spec 0 (log_gas previous)); [lia | reflexivity].
Qed.

Lemma C7_parseTrace_gas_cost_witness :
  length (parseTrace Examples.outOfGasCall) = 3%nat
  /\ exists t,
      parseTrace Examples.outOfGasCall !! 1%nat = Some t
      /\ step t = 1 /\ pc t = 0 /\ opcode t = "STOP" /\ gas t = 0
      /\ gasCost t = 1000 - 0.
Proof.
  destruct (C7_parseTrace_gas_cost Examples.outOfGasCall
              (default [] (structLogs Examples.outOfGasCall)) 1
              {| log_pc := 0; log_op := "STOP"; log_gas := 0; log_gasCost := Some 0;
                 log_stack := Some []; log_memory := None; log_depth := Some 2 |}
              eq_refl eq_refl)
    as [Hlen [t (Ht & Hstep & Hpc & Hop & Hgas & _ & Hcost)]].
  split; [exact Hlen |].
  exists t. repeat split; try assumption.
  apply (Hcost {| log_pc := 10; log_op := "CALL"; log_gas := 1000;
                  log_gasCost := Some 100; log_stack := Some [];
                  log_memory := None; log_depth := Some 1 |});
    [reflexivity | lia | reflexivity].
Defined.

End NormalizerProofs.

(* ===================================================================== *)
(** ** Properties of the storage diff *)
(* ===================================================================== *)

Module StorageDiffProofs.
Import JS TransactionExecutor.

(** *** Hexadecimal words never make [BigInt] throw *)

Lemma hex_digit_not_space c : isRadixDigit 16 c = true -> isWhiteSpace c = false.
Proof.
  ascii_cases c; vm_compute; congruence.
Qed.

Lemma trimEnd_id s :
  (forall c, In c (list_ascii_of_string s) -> isWhiteSpace c = false) ->
  trimEnd s = s.
Proof.
  induction s as [| c s IH]; intros Hall; simpl.
  - reflexivity.
  - rewrite IH by (intros d Hd; apply Hall; now right).
    destruct s; [| reflexivity].
    now rewrite (Hall c (or_introl eq_refl)).
Qed.

Lemma allHex_In s c :
  allHex s = true -> In c (list_ascii_of_string s) -> isRadixDigit 16 c = true.
Proof.
  induction s as [| d s IH]; simpl; [tauto |].
  intros H [-> | Hin]; apply andb_true_iff in H as [H1 H2]; auto.
Qed.

Lemma allDigits_hex s : forall acc, allHex s = true -> is_Some (allDigits 16 s acc).
Proof.
  induction s as [| c s IH]; intros acc H; simpl in *.
  - eauto.
  - apply andb_true_iff in H as [Hc Hs]. unfold isRadixDigit in Hc.
    destruct (digitValue c) as [d |]; [| discriminate].
    rewrite Hc. now apply IH.
Qed.

Lemma allHex_app s1 s2 :
  allHex s1 = true -> allHex s2 = true -> allHex (s1 +:+ s2) = true.
Proof.
  induction s1 as [| c s1 IH]; simpl; [auto |].
  intros H1 H2. apply andb_true_iff in H1 as [Hc H1].
  rewrite Hc. simpl. now apply IH.
Qed.

Lemma allHex_repeat n : allHex (repeat "0" n) = true.
Proof. induction n as [| n IH]; simpl; [reflexivity | exact IH]. Qed.

Lemma isHexWord_inv x :
  isHexWord x = true ->
  exists ds, x = String "0" (String "x" ds) /\ ds <> EmptyString /\ allHex ds = true.
Proof.
  destruct x as [| a [| b ds]]; simpl; try discriminate.
  - ascii_cases a; discriminate.
  - ascii_cases a; try discriminate.
    ascii_cases b; try discriminate.
    intros H. apply andb_true_iff in H as [Hne Hhex].
    exists ds. split; [reflexivity | split; [| exact Hhex]].
    intros ->. discriminate.
Qed.

Lemma BigInt_hexWord x : isHexWord x = true -> is_Some (BigInt x).
Proof.
  intros H. destruct (isHexWord_inv x H) as (ds & -> & Hne & Hhex).
  unfold BigInt, trim. cbn [trimStart isWhiteSpace].
  change (trimStart (String "0" (String "x" ds))) with (String "0" (String "x" ds)).
  rewrite trimEnd_id.
  - cbn. destruct ds as [| c ds]; [congruence |].
    now apply allDigits_hex.
  - intros c [<- | [<- | Hin]]; [reflexivity | reflexivity |].
    apply hex_digit_not_space. now apply (allHex_In ds).
Qed.

Lemma padHex_hexWord x n : isHexWord x = true -> isHexWord (padHex x n) = true.
Proof.
  intros H. destruct (isHexWord_inv x H) as (ds & -> & Hne & Hhex).
  unfold padHex, padStart. cbn.
  apply andb_true_iff. split.
  - destruct (n - String.length ds)%nat; simpl; [| reflexivity].
    destruct ds; [congruence | reflexivity].
  - apply allHex_app; [apply allHex_repeat | exact Hhex].
Qed.

Lemma isHexWord_nonempty x : isHexWord x = true -> x <> EmptyString.
Proof. intros H ->. discriminate. Qed.

(** *** The map of observed reads *)

Lemma fromTop_1_length (st : list string) x :
  fromTop st 1 = Some x -> (1 <=? length st)%nat = true /\ (0 <? length st)%nat = true.
Proof.
  unfold fromTop. intros H.
  destruct (Nat.leb_spec 1 (length st)); [| discriminate].
  split; [reflexivity | apply Nat.ltb_lt; lia].
Qed.

Lemma fromTop_elem (st : list string) k x : fromTop st k = Some x -> x ∈ st.
Proof.
  unfold fromTop. intros H.
  destruct (k <=? length st)%nat; [| discriminate].
  apply list_elem_of_lookup. eauto.
Qed.

Lemma fromTop_length (st : list string) k x :
  fromTop st k = Some x -> (k <=? length st)%nat = true.
Proof. unfold fromTop. now destruct (k <=? length st)%nat. Qed.

Lemma string_eqb_false (a b : string) : a <> b -> String.eqb a b = false.
Proof. intros H. now destruct (String.eqb_spec a b). Qed.

Lemma sloadObserved_functional traces i s v s' v' :
  sloadObserved traces i s v -> sloadObserved traces i s' v' -> s = s' /\ v = v'.
Proof.
  intros (t & next & sv & Ht & _ & Hsv & _ & -> & Hn & Hv & _)
         (t' & next' & sv' & Ht' & _ & Hsv' & _ & -> & Hn' & Hv' & _).
  rewrite Ht in Ht'. inversion Ht'; subst t'.
  rewrite Hn in Hn'. inversion Hn'; subst next'.
  rewrite Hsv in Hsv'. inversion Hsv'; subst sv'.
  rewrite Hv in Hv'. inversion Hv'; subst v'. auto.
Qed.

(** One turn of the [forEach]: it records the observation of step
    [index] when there is one and leaves the map alone otherwise. *)
Lemma recordRead_cases traces reads index t :
  traces !! index = Some t ->
  (exists s v, sloadObserved traces index s v
               /\ recordRead traces reads index t = <[s := v]> reads)
  \/ ((forall s v, ~ sloadObserved traces index s v)
      /\ recordRead traces reads index t = reads).
Proof.
  intros Ht. unfold recordRead.
  destruct (String.eqb_spec (opcode t) "SLOAD") as [Hop | Hop]; cbn [andb].
  2: { right. split; [| reflexivity].
       intros s v (t' & _ & _ & Ht' & Hop' & _).
       rewrite Ht in Ht'. inversion Ht'; subst. contradiction. }
  destruct (fromTop (stack t) 1) as [slotValue |] eqn:Hsv.
  2: { right. split; [| now destruct (1 <=? length (stack t))%nat].
       intros s v (t' & _ & sv & Ht' & _ & Hsv' & _).
       rewrite Ht in Ht'. inversion Ht'; subst. congruence. }
  destruct (fromTop_1_length _ _ Hsv) as [-> _].
  destruct (String.eqb_spec slotValue EmptyString) as [Hempty | Hempty].
  { right. split; [| reflexivity].
    intros s v (t' & _ & sv & Ht' & _ & Hsv' & Hne & _).
    rewrite Ht in Ht'. inversion Ht'; subst. congruence. }
  rewrite Nat.add_1_r.
  destruct (traces !! S index) as [next |] eqn:Hnext.
  2: { right. split; [| reflexivity].
       intros s v (_ & next & _ & _ & _ & _ & _ & _ & Hn & _). congruence. }
  destruct (fromTop (stack next) 1) as [loaded |] eqn:Hl.
  2: { right. split; [| now destruct (0 <? length (stack next))%nat].
       intros s v (_ & next' & _ & _ & _ & _ & _ & _ & Hn & Hv & _).
       inversion Hn; subst. congruence. }
  destruct (fromTop_1_length _ _ Hl) as [_ ->].
  destruct (String.eqb_spec loaded EmptyString) as [Hle | Hle].
  { right. split; [| reflexivity].
    intros s v (_ & next' & _ & _ & _ & _ & _ & _ & Hn & Hv & Hne).
    inversion Hn; subst. congruence. }
  left. exists (padHex slotValue 64), loaded. split; [| reflexivity].
  exists t, next, slotValue. repeat split; assumption.
Qed.

Lemma drop_cons_inv {A} (l : list A) n x rest :
  drop n l = x :: rest -> l !! n = Some x /\ drop (S n) l = rest.
Proof.
  intros H. split.
  - rewrite <- (Nat.add_0_r n), <- lookup_drop, H. reflexivity.
  - replace (S n) with (n + 1)%nat by lia.
    rewrite <- drop_drop, H. reflexivity.
Qed.

(** After the [forEach], the value of a slot is the observation of
    the last step that has one for it, wherever that step is. *)
Lemma forEachRead_spec traces rest : forall index reads,
  drop index traces = rest ->
  forall s,
    (exists i v, (index <= i)%nat /\ sloadObserved traces i s v
                 /\ (forall i' v', (i < i')%nat -> ~ sloadObserved traces i' s v')
                 /\ forEachRead traces rest index reads !! s = Some v)
    \/ ((forall i v, (index <= i)%nat -> ~ sloadObserved traces i s v)
        /\ forEachRead traces rest index reads !! s = reads !! s).
Proof.
  induction rest as [| t rest IH]; intros index reads Hdrop s.
  - right. split; [| reflexivity].
    intros i v Hi (t & _ & _ & Ht & _).
    apply lookup_lt_Some in Ht.
    assert (length (drop index traces) = 0%nat) as Hlen by now rewrite Hdrop.
    rewrite length_drop in Hlen. lia.
  - apply drop_cons_inv in Hdrop as [Ht Hdrop]. cbn [forEachRead].
    destruct (IH (S index) (recordRead traces reads index t) Hdrop s)
      as [(i & v & Hi & Hobs & Hlast & Hres) | [Hnone Hres]].
    + left. exists i, v. repeat split; try assumption. lia.
    + destruct (recordRead_cases traces reads index t Ht)
        as [(s0 & v0 & Hobs & Heq) | [Hno Heq]].
      * destruct (decide (s0 = s)) as [-> | Hne].
        -- left. exists index, v0.
           split; [lia | split; [exact Hobs | split]].
           ++ intros i' v' Hi'. apply Hnone. lia.
           ++ rewrite Hres, Heq. apply lookup_insert_eq.
        -- right. split.
           ++ intros i v Hi Hobs'.
              destruct (decide (i = index)) as [-> | Hi'].
              ** destruct (sloadObserved_functional _ _ _ _ _ _ Hobs Hobs'). congruence.
              ** apply (Hnone i v); [lia | exact Hobs'].
           ++ rewrite Hres, Heq. now apply lookup_insert_ne.
      * right. split.
        -- intros i v Hi Hobs'.
           destruct (decide (i = index)) as [-> | Hi'].
           ++ now apply (Hno s v).
           ++ apply (Hnone i v); [lia | exact Hobs'].
        -- now rewrite Hres, Heq.
Qed.

Lemma reads_last traces i s v :
  sloadObserved traces i s v ->
  (forall i' v', (i < i')%nat -> ~ sloadObserved traces i' s v') ->
  storageReadsOf traces !! s = Some v.
Proof.
  intros Hobs Hlast. unfold storageReadsOf.
  destruct (forEachRead_spec traces traces 0 ∅ eq_refl s)
    as [(j & u & _ & Hj & Hjl & Hres) | [Hnone _]].
  - rewrite Hres. f_equal.
    destruct (Nat.lt_trichotomy i j) as [Hlt | [-> | Hgt]].
    + now apply Hlast in Hj.
    + now destruct (sloadObserved_functional _ _ _ _ _ _ Hobs Hj).
    + now apply Hjl in Hobs.
  - exfalso. apply (Hnone i v); [lia | exact Hobs].
Qed.

Lemma reads_none traces s :
  (forall i v, ~ sloadObserved traces i s v) ->
  storageReadsOf traces !! s = None.
Proof.
  intros Hno. unfold storageReadsOf.
  destruct (forEachRead_spec traces traces 0 ∅ eq_refl s)
    as [(j & u & _ & Hj & _) | [_ Hres]].
  - now apply Hno in Hj.
  - now rewrite Hres, lookup_empty.
Qed.

Lemma reads_Some_inv traces s v :
  storageReadsOf traces !! s = Some v -> exists i, sloadObserved traces i s v.
Proof.
  unfold storageReadsOf. intros H.
  destruct (forEachRead_spec traces traces 0 ∅ eq_refl s)
    as [(j & u & _ & Hj & _ & Hres) | [_ Hres]].
  - rewrite Hres in H. inversion H; subst. eauto.
  - rewrite Hres, lookup_empty in H. discriminate.
Qed.

(** *** The emitted changes *)

Lemma toStorageChange_fields reads t w c :
  toStorageChange reads t w = Some c ->
  slot c = key w /\ newValue c = value w
  /\ oldValue c = stringOr (reads !! key w) zeroWord
  /\ changeStep c = step t.
Proof.
  unfold toStorageChange. intros H.
  destruct (BigInt (stringOr (reads !! key w) zeroWord)); [| discriminate].
  destruct (BigInt (value w)); [| discriminate].
  simpl in H. inversion H; subst. auto.
Qed.

Lemma extract_elem traces changes c :
  extractStorageChanges traces = Some changes -> c ∈ changes ->
  exists t w, t ∈ traces /\ storage t = Some w
              /\ toStorageChange (storageReadsOf traces) t w = Some c.
Proof.
  unfold extractStorageChanges. intros H Hc.
  apply mapM_Some_1 in H.
  apply list_elem_of_lookup in Hc as [n Hn].
  destruct (Forall2_lookup_r _ _ _ _ _ H Hn) as ([t w] & Htw & Hf).
  apply list_elem_of_lookup_2, list_elem_of_omap in Htw as (t' & Ht' & Hst).
  destruct (storage t') as [w' |] eqn:Hw; [| discriminate].
  simpl in Hst. inversion Hst; subst. eauto.
Qed.

Lemma extract_has traces changes t w :
  extractStorageChanges traces = Some changes ->
  t ∈ traces -> storage t = Some w ->
  exists c, c ∈ changes /\ toStorageChange (storageReadsOf traces) t w = Some c.
Proof.
  unfold extractStorageChanges. intros H Ht Hw.
  apply mapM_Some_1 in H.
  assert ((t, w) ∈ omap (fun t => pair t <$> storage t) traces) as Hin.
  { apply list_elem_of_omap. exists t. split; [exact Ht |]. now rewrite Hw. }
  apply list_elem_of_lookup in Hin as [n Hn].
  destruct (Forall2_lookup_l _ _ _ _ _ H Hn) as (c & Hc & Hf).
  exists c. split; [| exact Hf]. now apply list_elem_of_lookup_2 in Hc.
Qed.

Lemma stringOr_Some v d : v <> EmptyString -> stringOr (Some v) d = v.
Proof. intros H. unfold stringOr. now rewrite string_eqb_false. Qed.

Lemma observed_value traces i s v :
  sloadObserved traces i s v -> v <> EmptyString /\ exists t, t ∈ traces /\ v ∈ stack t.
Proof.
  intros (_ & next & _ & _ & _ & _ & _ & _ & Hn & Hv & Hne).
  split; [exact Hne |]. exists next. split.
  - now apply list_elem_of_lookup_2 in Hn.
  - now apply fromTop_elem in Hv.
Qed.

(** The old value of a change: the last observation of its slot, or
    the zero word when there is none. *)
Lemma oldValue_cases traces s :
  (exists i v, sloadObserved traces i s v
               /\ (forall i' v', (i < i')%nat -> ~ sloadObserved traces i' s v')
               /\ stringOr (storageReadsOf traces !! s) zeroWord = v)
  \/ ((forall i v, ~ sloadObserved traces i s v)
      /\ stringOr (storageReadsOf traces !! s) zeroWord = zeroWord).
Proof.
  unfold storageReadsOf.
  destruct (forEachRead_spec traces traces 0 ∅ eq_refl s)
    as [(j & u & _ & Hj & Hjl & Hres) | [Hnone Hres]].
  - left. exists j, u. repeat split; try assumption.
    rewrite Hres. apply stringOr_Some. now apply observed_value in Hj.
  - right. split.
    + intros i v. apply Hnone. lia.
    + now rewrite Hres, lookup_empty.
Qed.

(** On well-formed traces no [BigInt] call throws. *)
Lemma extract_total traces :
  wellFormed traces -> is_Some (extractStorageChanges traces).
Proof.
  intros Hwf. unfold extractStorageChanges.
  apply mapM_is_Some_2, Forall_forall. intros [t w] Htw.
  apply list_elem_of_omap in Htw as (t' & Ht' & Hst).
  destruct (storage t') as [w' |] eqn:Hw; [| discriminate].
  simpl in Hst. inversion Hst; subst t' w'.
  unfold compose, toStorageChange.
  assert (is_Some (BigInt (stringOr (storageReadsOf traces !! key w) zeroWord)))
    as [old Hold].
  { destruct (oldValue_cases traces (key w))
      as [(i & v & Hobs & _ & ->) | [_ ->]].
    - apply observed_value in Hobs as (_ & u & Hu & Hv).
      apply BigInt_hexWord. now apply (Hwf u Hu).
    - vm_compute. eauto. }
  destruct (BigInt_hexWord (value w)) as [new Hnew];
    [now apply (Hwf t Ht') |].
  rewrite Hold, Hnew. simpl. eauto.
Qed.

(** C10. [extractStorageChanges] returns on well-formed traces, and
    whenever it returns: the old value of a change is the value
    observed by the last step that loads its slot, be that step before
    or after the write, and the zero word when no step loads it; two
    changes of one slot carry the same old value; every change is the write of a step, with the slot, the new
    value and the step of that write.  In [storeThenLoad] the write of
    step 0 gets as old value the 9 that step 1 loads after it. *)
Theorem C10_old_value_is_last_read_anywhere (traces : list ExecutionTrace) :
  (wellFormed traces -> is_Some (extractStorageChanges traces))
  /\ (forall changes, extractStorageChanges traces = Some changes ->
        (forall c i v, c ∈ changes ->
           sloadObserved traces i (slot c) v ->
           (forall i' v', (i < i')%nat -> ~ sloadObserved traces i' (slot c) v') ->
           oldValue c = v)
        /\ (forall c, c ∈ changes ->
              (forall i v, ~ sloadObserved traces i (slot c) v) ->
              oldValue c = zeroWord)
        /\ (forall c1 c2, c1 ∈ changes -> c2 ∈ changes ->
              slot c1 = slot c2 -> oldValue c1 = oldValue c2)
        /\ (forall c, c ∈ changes ->
              exists t w, t ∈ traces /\ storage t = Some w
                /\ slot c = key w /\ newValue c = value w
                /\ changeStep c = step t))
  /\ (oldValue <$> extractStorageChanges
                     (parseTrace (Examples.traceOf Examples.storeThenLoad)) ≫= head)
     = Some (Examples.word "9").
Proof.
  split; [apply extract_total | split; [| vm_compute; reflexivity]].
  intros changes Hex.
  assert (forall c, c ∈ changes ->
            oldValue c = stringOr (storageReadsOf traces !! slot c) zeroWord) as Hold.
  { intros c Hc. destruct (extract_elem _ _ _ Hex Hc) as (t & w & _ & _ & Hf).
    apply toStorageChange_fields in Hf as (-> & _ & -> & _). reflexivity. }
  split; [| split; [| split]].
  - intros c i v Hc Hobs Hlast. rewrite (Hold c Hc).
    rewrite (reads_last _ _ _ _ Hobs Hlast).
    apply stringOr_Some. now apply observed_value in Hobs.
  - intros c Hc Hnone. now rewrite (Hold c Hc), (reads_none _ _ Hnone).
  - intros c1 c2 H1 H2 Hslot. now rewrite (Hold c1 H1), (Hold c2 H2), Hslot.
  - intros c Hc. destruct (extract_elem _ _ _ Hex Hc) as (t & w & Ht & Hw & Hf).
    apply toStorageChange_fields in Hf as (? & ? & _ & ?).
    exists t, w. auto.
Qed.

(** *** From the raw trace to the changes *)

Lemma parseTrace_lookup logs i log :
  logs !! i = Some log ->
  exists lastGas,
    parseTrace (Examples.traceOf logs) !! i = Some (parseStep lastGas (Z.of_nat i) log).
Proof.
  intros H. eexists. unfold parseTrace. simpl.
  now rewrite (NormalizerProofs.parseLoop_lookup _ _ _ _ _ H).
Qed.

Lemma parseTrace_elem logs t :
  t ∈ parseTrace (Examples.traceOf logs) ->
  exists i log lastGas, logs !! i = Some log /\ t = parseStep lastGas (Z.of_nat i) log.
Proof.
  intros Ht. apply list_elem_of_lookup in Ht as [i Hi].
  destruct (logs !! i) as [log |] eqn:Hlog.
  - destruct (parseTrace_lookup _ _ _ Hlog) as [g Hg].
    rewrite Hg in Hi. inversion Hi. eauto.
  - unfold parseTrace in Hi. simpl in Hi.
    now rewrite NormalizerProofs.parseLoop_lookup_None in Hi.
Qed.

Lemma parseStep_storage lastGas i log w :
  storage (parseStep lastGas i log) = Some w ->
  exists st k v, log_op log = "SSTORE" /\ default [] (log_stack log) = st
    /\ fromTop st 1 = Some k /\ fromTop st 2 = Some v
    /\ w = {| key := padHex k 64; value := padHex v 64 |}.
Proof.
  cbn [parseStep storage].
  destruct (String.eqb_spec (log_op log) "SSTORE") as [Hop | Hop]; [| discriminate].
  destruct (2 <=? length (default [] (log_stack log)))%nat; [| discriminate].
  cbn [andb].
  destruct (fromTop (default [] (log_stack log)) 1) as [k |] eqn:Hk; [| discriminate].
  destruct (fromTop (default [] (log_stack log)) 2) as [v |] eqn:Hv; [| discriminate].
  intros H. inversion H. exists (default [] (log_stack log)), k, v. auto.
Qed.

Lemma parseTrace_wellFormed logs :
  wellFormedLogs logs -> wellFormed (parseTrace (Examples.traceOf logs)).
Proof.
  intros Hwf t Ht.
  destruct (parseTrace_elem _ _ Ht) as (i & log & g & Hlog & ->).
  apply list_elem_of_lookup_2 in Hlog.
  assert (forall x, x ∈ default [] (log_stack log) -> isHexWord x = true) as Hst.
  { intros x Hx. destruct (log_stack log) as [st |] eqn:Hs.
    - now apply (Hwf log st x).
    - simpl in Hx. now apply elem_of_nil in Hx. }
  split.
  - exact Hst.
  - intros w Hw. apply parseStep_storage in Hw as (st & k & v & _ & <- & _ & Hv & ->).
    simpl. apply padHex_hexWord, Hst. now apply fromTop_elem in Hv.
Qed.

Lemma loads_observed logs i slotKey v :
  wellFormedLogs logs -> loads logs i slotKey v ->
  sloadObserved (parseTrace (Examples.traceOf logs)) i (padHex slotKey 64) v.
Proof.
  intros Hwf (li & lnext & sti & stn & Hi & Hop & Hsti & Hk & Hn & Hstn & Hv).
  destruct (parseTrace_lookup _ _ _ Hi) as [g Hg].
  destruct (parseTrace_lookup _ _ _ Hn) as [g' Hg'].
  eexists _, _, slotKey. split; [exact Hg |].
  cbn [parseStep opcode stack]. rewrite Hsti. simpl.
  split; [exact Hop |]. split; [exact Hk |]. split.
  { apply isHexWord_nonempty, (Hwf li sti);
      [now apply list_elem_of_lookup_2 in Hi | exact Hsti | now apply fromTop_elem in Hk]. }
  split; [reflexivity |]. split; [exact Hg' |].
  cbn [parseStep stack]. rewrite Hstn. simpl. split; [exact Hv |].
  apply isHexWord_nonempty, (Hwf lnext stn);
    [now apply list_elem_of_lookup_2 in Hn | exact Hstn | now apply fromTop_elem in Hv].
Qed.

Lemma observed_loads logs i s v :
  sloadObserved (parseTrace (Examples.traceOf logs)) i s v ->
  exists slotKey, loadsSlot logs i slotKey /\ s = padHex slotKey 64.
Proof.
  intros (t & next & slotValue & Ht & Hop & Hsv & _ & -> & _).
  exists slotValue. split; [| reflexivity].
  destruct (logs !! i) as [li |] eqn:Hi.
  - destruct (parseTrace_lookup _ _ _ Hi) as [g Hg].
    rewrite Hg in Ht. inversion Ht; subst t.
    cbn [parseStep opcode stack] in Hop, Hsv.
    destruct (log_stack li) as [sti |] eqn:Hsti; [| discriminate].
    exists li, sti. auto.
  - unfold parseTrace in Ht. simpl in Ht.
    now rewrite NormalizerProofs.parseLoop_lookup_None in Ht.
Qed.

Lemma stores_storage logs j storeKey w :
  stores logs j storeKey w ->
  exists t, t ∈ parseTrace (Examples.traceOf logs)
    /\ step t = Z.of_nat j
    /\ storage t = Some {| key := padHex storeKey 64; value := padHex w 64 |}.
Proof.
  intros (lj & stj & Hj & Hop & Hst & Hk & Hw).
  destruct (parseTrace_lookup _ _ _ Hj) as [g Hg].
  eexists. split; [exact (list_elem_of_lookup_2 _ _ _ Hg) |].
  cbn [parseStep step storage]. split; [reflexivity |].
  rewrite Hop, Hst. cbn [default from_option id String.eqb Ascii.eqb Bool.eqb andb].
  rewrite (fromTop_length _ _ _ Hw), Hk, Hw. reflexivity.
Qed.

(** C3, counterexample.  In [incrementTwice] step 0 loads slot 1,
    step 1 has the loaded 7 on top of its stack and the later step 2
    stores 8 to slot 1; the change emitted for step 2 has old value
    8, the value step 3 loads after the write, and not 7. *)
Lemma C3_counterexample :
  loads Examples.incrementTwice 0 (Examples.word "1") (Examples.word "7")
  /\ stores Examples.incrementTwice 2 (Examples.word "1") (Examples.word "8")
  /\ extractStorageChanges (parseTrace (Examples.traceOf Examples.incrementTwice)) =
     Some [ {| slot := Examples.word "1"; slotNumber := Fin 1;
               oldValue := Examples.word "8"; newValue := Examples.word "8";
               oldValueDecimal := "8"; newValueDecimal := "8"; changeStep := 2 |};
            {| slot := Examples.word "1"; slotNumber := Fin 1;
               oldValue := Examples.word "8"; newValue := Examples.word "9";
               oldValueDecimal := "8"; newValueDecimal := "9"; changeStep := 5 |} ]
  /\ Examples.word "8" <> Examples.word "7".
Proof.
  split; [| split; [| split]].
  - eexists _, _, _, _. repeat split; reflexivity.
  - eexists _, _. repeat split; reflexivity.
  - vm_compute. reflexivity.
  - vm_compute. discriminate.
Qed.

(** C3, as the code has it.  Take a raw trace whose stack words are
    [0x]-prefixed hexadecimal and in which record [j] is an SSTORE of
    value [w] to the slot [storeKey].  Then [extractStorageChanges]
    returns, and one of its changes has that slot, new value [w] and
    step [j].  Its old value is [v] whenever an earlier record [i] is
    an SLOAD of the same slot with [v] on top of the next stack and no
    record after [i] is an SLOAD of that slot; it is the zero word
    when no record is an SLOAD of that slot.  The trace of the
    specification gives slot 1, old value 7, new value 9, step 9; a
    write to a slot that is never loaded has 32 zero bytes as its old
    value. *)
Theorem C3_storage_change_of_write :
  (forall (traceResult : TraceResult) (logs : list StructLog) (j : nat)
          (storeKey w : string),
      structLogs traceResult = Some logs ->
      wellFormedLogs logs ->
      stores logs j storeKey w ->
      exists changes c,
        extractStorageChanges (parseTrace traceResult) = Some changes
        /\ c ∈ changes
        /\ slot c = padHex storeKey 64
        /\ newValue c = padHex w 64
        /\ changeStep c = Z.of_nat j
        /\ (forall i slotKey v,
              (i < j)%nat ->
              loads logs i slotKey v ->
              padHex slotKey 64 = padHex storeKey 64 ->
              (forall i' k', (i < i')%nat -> loadsSlot logs i' k' ->
                             padHex k' 64 <> padHex storeKey 64) ->
              oldValue c = v)
        /\ ((forall i k, loadsSlot logs i k -> padHex k 64 <> padHex storeKey 64) ->
            oldValue c = zeroWord))
  /\ extractStorageChanges (parseTrace (Examples.traceOf Examples.loadThenStore)) =
     Some [ {| slot := Examples.word "1"; slotNumber := Fin 1;
               oldValue := Examples.word "7"; newValue := Examples.word "9";
               oldValueDecimal := "7"; newValueDecimal := "9"; changeStep := 9 |} ]
  /\ extractStorageChanges (parseTrace (Examples.traceOf Examples.storeOnly)) =
     Some [ {| slot := Examples.word "2"; slotNumber := Fin 2;
               oldValue := "0x" +:+ repeat "0" 64; newValue := Examples.word "5";
               oldValueDecimal := "0"; newValueDecimal := "5"; changeStep := 1 |} ].
Proof.
  split; [| split; vm_compute; reflexivity].
  intros traceResult logs j storeKey w Hlogs Hwf Hstore.
  replace (parseTrace traceResult) with (parseTrace (Examples.traceOf logs))
    by (unfold parseTrace; now rewrite Hlogs).
  pose proof (parseTrace_wellFormed _ Hwf) as Hwft.
  destruct (extract_total _ Hwft) as [changes Hex].
  destruct (stores_storage _ _ _ _ Hstore) as (t & Ht & Hstep & Hst).
  destruct (extract_has _ _ _ _ Hex Ht Hst) as (c & Hc & Hf).
  apply toStorageChange_fields in Hf as (Hslot & Hnew & Hold & Hcs).
  simpl in Hslot, Hnew, Hold.
  exists changes, c. repeat split; try assumption; try congruence.
  - intros i slotKey v _ Hload Hsame Hlast.
    rewrite Hold, <- Hsame.
    pose proof (loads_observed _ _ _ _ Hwf Hload) as Hobs.
    rewrite (reads_last _ _ _ _ Hobs).
    + apply stringOr_Some. now apply observed_value in Hobs.
    + intros i' v' Hi' Hobs'.
      apply observed_loads in Hobs' as (k' & Hk' & Heq).
      apply (Hlast i' k' Hi' Hk'). congruence.
  - intros Hnone. rewrite Hold, reads_none; [reflexivity |].
    intros i v Hobs.
    apply observed_loads in Hobs as (k & Hk & Heq).
    now apply (Hnone i k Hk).
Qed.

(** *** The theorems at the traces of the specification *)

Lemma hexStacks_wellFormed logs : hexStacks logs = true -> wellFormedLogs logs.
Proof.
  unfold hexStacks. intros H log st x Hlog Hst Hx.
  rewrite forallb_forall in H.
  apply list_elem_of_In in Hlog. specialize (H log Hlog).
  rewrite Hst in H. simpl in H.
  rewrite forallb_forall in H. apply H. now apply list_elem_of_In.
Qed.

Lemma C3_storage_change_of_write_witness :
  exists changes c,
    extractStorageChanges (parseTrace (Examples.traceOf Examples.loadThenStore))
      = Some changes
    /\ c ∈ changes
    /\ slot c = Examples.word "1"
    /\ newValue c = Examples.word "9"
    /\ changeStep c = 9
    /\ oldValue c = Examples.word "7".
Proof.
  destruct C3_storage_change_of_write as [H _].
  destruct (H (Examples.traceOf Examples.loadThenStore) Examples.loadThenStore
              9%nat (Examples.word "1") (Examples.word "9"))
    as (changes & c & Hex & Hc & Hslot & Hnew & Hstep & Hold & _).
  - reflexivity.
  - apply hexStacks_wellFormed. reflexivity.
  - eexists _, _. repeat split; reflexivity.
  - exists changes, c. repeat split; try assumption.
    apply (Hold 4%nat (Examples.word "1") (Examples.word "7")).
    + lia.
    + eexists _, _, _, _. repeat split; reflexivity.
    + reflexivity.
    + intros i' k' Hi' (li & sti & Hli & Hop & _).
      do 10 (destruct i' as [| i'];
             [try lia; simpl in Hli; inversion Hli; subst li; discriminate Hop |]).
      simpl in Hli. discriminate Hli.
Defined.

Lemma C10_old_value_is_last_read_anywhere_witness :
  is_Some (extractStorageChanges
             (parseTrace (Examples.traceOf Examples.incrementTwice))).
Proof.
  apply (C10_old_value_is_last_read_anywhere
           (parseTrace (Examples.traceOf Examples.incrementTwice))).
  apply parseTrace_wellFormed, hexStacks_wellFormed. reflexivity.
Defined.

End StorageDiffProofs.

(* ===================================================================== *)
(** ** Properties of the source-location resolver *)
(* ===================================================================== *)

Module ResolverProofs.
Import JS StorageLayoutParser.

Lemma isZero_Fin n : isZero n = true -> n = Fin 0.
Proof.
  destruct n as [| b | z]; try discriminate.
  destruct z; try discriminate. reflexivity.
Qed.

(** The backward search returns an entry of file 0 that lies among
    the [turns] indices it may visit. *)
Lemma searchBackwards_Some cache instructionIndex turns : forall offset e,
  searchBackwards cache instructionIndex offset turns = Some e ->
  exists k, cache !! k = Some e /\ fileIndex e = Fin 0 /\ 0 <= k
            /\ instructionIndex - offset - Z.of_nat turns < k <= instructionIndex - offset.
Proof.
  induction turns as [| turns IH]; intros offset e H; simpl in H.
  - discriminate.
  - destruct (Z.ltb_spec (instructionIndex - offset) 0) as [Hneg | Hpos];
      [discriminate |].
    destruct (cache !! (instructionIndex - offset)) as [p |] eqn:Hp.
    + destruct (isZero (fileIndex p)) eqn:Hz.
      * inversion H; subst. exists (instructionIndex - offset).
        repeat split; try assumption; try lia. now apply isZero_Fin.
      * destruct (IH _ _ H) as (k & ? & ? & ? & ?). exists k.
        repeat split; try assumption; lia.
    + destruct (IH _ _ H) as (k & ? & ? & ? & ?). exists k.
      repeat split; try assumption; lia.
Qed.

(** It gives up only when no index it may visit has an entry of
    file 0. *)
Lemma searchBackwards_None cache instructionIndex turns : forall offset,
  searchBackwards cache instructionIndex offset turns = None ->
  forall k e, 0 <= k ->
    instructionIndex - offset - Z.of_nat turns < k <= instructionIndex - offset ->
    cache !! k = Some e -> fileIndex e <> Fin 0.
Proof.
  induction turns as [| turns IH]; intros offset H k e Hk Hrange He; simpl in H.
  - lia.
  - destruct (Z.ltb_spec (instructionIndex - offset) 0) as [Hneg | Hpos]; [lia |].
    destruct (decide (k = instructionIndex - offset)) as [-> | Hne].
    + rewrite He in H. destruct (isZero (fileIndex e)) eqn:Hz; [discriminate |].
      intros Heq. rewrite Heq in Hz. discriminate.
    + apply (IH (offset + 1)) with (k := k); try assumption; [| lia].
      destruct (cache !! (instructionIndex - offset)) as [p |]; [| exact H].
      destruct (isZero (fileIndex p)); [discriminate | exact H].
Qed.

(** When the instruction has an entry of its own, the location
    returned is that of an entry of file 0: its own, or one among the
    20 preceding instruction indices. *)
Lemma getSourceLocation_entry_present this pc instructionIndex position loc :
  pcToInstructionIndex this !! pc = Some instructionIndex ->
  buildSourceMapCache (sourceMap this) !! instructionIndex = Some position ->
  getSourceLocation this pc = Some loc ->
  exists k e,
    buildSourceMapCache (sourceMap this) !! k = Some e
    /\ fileIndex e = Fin 0
    /\ instructionIndex - 20 <= k <= instructionIndex
    /\ loc = locate (sourceCode this) (start e).
Proof.
  intros Hpc Hpos. unfold getSourceLocation.
  destruct (String.eqb (sourceMap this) EmptyString || String.eqb (sourceCode this) EmptyString);
    [discriminate |].
  rewrite Hpc, Hpos.
  destruct (isZero (fileIndex position)) eqn:Hz; cbn [negb].
  - intros H. inversion H. exists instructionIndex, position.
    repeat split; try lia; [exact Hpos | now apply isZero_Fin].
  - destruct (searchBackwards _ instructionIndex 1 searchLimit) as [e |] eqn:Hs;
      [| discriminate].
    intros H. inversion H.
    apply searchBackwards_Some in Hs as (k & Hk & Hf & H0 & Hr).
    exists k, e. unfold searchLimit in Hr. repeat split; try assumption; lia.
Qed.

(** An instruction in compiler-generated code with no entry of file 0
    among the 20 preceding indices is unresolved. *)
Lemma getSourceLocation_generated_unresolved this pc instructionIndex position :
  pcToInstructionIndex this !! pc = Some instructionIndex ->
  buildSourceMapCache (sourceMap this) !! instructionIndex = Some position ->
  fileIndex position <> Fin 0 ->
  (forall k e, instructionIndex - 20 <= k < instructionIndex ->
     buildSourceMapCache (sourceMap this) !! k = Some e -> fileIndex e <> Fin 0) ->
  getSourceLocation this pc = None.
Proof.
  intros Hpc Hpos Hgen Hnone. unfold getSourceLocation.
  destruct (String.eqb (sourceMap this) EmptyString || String.eqb (sourceCode this) EmptyString);
    [reflexivity |].
  rewrite Hpc, Hpos.
  destruct (isZero (fileIndex position)) eqn:Hz; cbn [negb].
  - apply isZero_Fin in Hz. contradiction.
  - destruct (searchBackwards _ instructionIndex 1 searchLimit) as [e |] eqn:Hs;
      [| reflexivity].
    apply searchBackwards_Some in Hs as (k & Hk & Hf & H0 & Hr).
    unfold searchLimit in Hr. exfalso. apply (Hnone k e); [lia | exact Hk | exact Hf].
Qed.

(** C1, the failing input.  The only entry of the source map of
    [syntheticOnly] is in file 1.  The program counter 1 is
    instruction 1, which has no entry; the neighbour fallback takes
    the entry of instruction 0 without looking at its file index and
    reports line 1 of the source. *)
Theorem C1_neighbour_fallback_reports_generated_code :
  let this := Examples.syntheticOnly in
  let cache := buildSourceMapCache (sourceMap this) in
  pcToInstructionIndex this !! 1 = Some 1
  /\ cache !! 1 = None
  /\ cache !! 0 = Some {| start := Fin 0; entryLength := Fin 13; fileIndex := Fin 1 |}
  /\ (forall k e, cache !! k = Some e -> fileIndex e = Fin 1)
  /\ getSourceLocation this 1 =
     Some {| line := 1; column := Fin 1; snippet := "contract C {}" |}.
Proof.
  assert (buildSourceMapCache (sourceMap Examples.syntheticOnly) =
          {[ 0 := {| start := Fin 0; entryLength := Fin 13; fileIndex := Fin 1 |} ]})
    as Hcache.
  { apply map_eq. intros q.
    vm_compute (buildSourceMapCache (sourceMap Examples.syntheticOnly)).
    reflexivity. }
  cbv zeta. rewrite Hcache.
  split; [reflexivity | split; [reflexivity | split; [reflexivity | split]]].
  - intros k e He. apply lookup_singleton_Some in He as [_ <-]. reflexivity.
  - vm_compute. reflexivity.
Qed.

Example entry_present_example :
  getSourceLocation Examples.farFromSource 21 = None
  /\ getSourceLocation Examples.farFromSource 20 =
     Some {| line := 1; column := Fin 1; snippet := "contract C {}" |}.
Proof. split; vm_compute; reflexivity. Qed.

End ResolverProofs.

(* ===================================================================== *)
(** ** Properties of the function-context extractor and of decodeValue *)
(* ===================================================================== *)

Module ContextProofs.
Import JS StorageLayoutParser.

(** Once a line has ended inside the braces, the scan of the code and
    that of the specification read a line alike. *)
Lemma scanChars_in_function chars : forall d,
  specScanChars chars d true =
  (fst (scanChars chars d true), true, snd (scanChars chars d true)).
Proof.
  induction chars as [| c rest IH]; intros d; simpl; [reflexivity |].
  rewrite !andb_true_r.
  set (d2 := if Ascii.eqb c "}" then _ else _).
  destruct (d2 =? 0); [reflexivity | apply IH].
Qed.

(** Before that, the code finds no end on a line; when the
    specification finds none either, both leave the line with the same
    depth, which is positive exactly when it has been so. *)
Lemma scanChars_not_in_function chars : forall d w d' w',
  (w = true <-> 0 < d) ->
  specScanChars chars d w = (d', w', false) ->
  scanChars chars d false = (d', false) /\ (w' = true <-> 0 < d').
Proof.
  induction chars as [| c rest IH]; intros d w d' w' Hinv H; simpl in *.
  - inversion H; subst. auto.
  - rewrite andb_false_r.
    set (d1 := if Ascii.eqb c "{" then d + 1 else d) in *.
    set (d2 := if Ascii.eqb c "}" then d1 - 1 else d1) in *.
    assert (d - 1 <= d2) as Hd2
      by (subst d2 d1; destruct (Ascii.eqb c "{"), (Ascii.eqb c "}"); lia).
    destruct ((d2 =? 0) && (w || (0 <? d2))) eqn:Hfound; [discriminate |].
    apply (IH d2 (w || (0 <? d2))); [| exact H].
    split.
    + intros Hw. rewrite Hw, andb_true_r in Hfound.
      apply Z.eqb_neq in Hfound.
      apply orb_true_iff in Hw as [Hw | Hw].
      * apply Hinv in Hw. lia.
      * now apply Z.ltb_lt in Hw.
    + intros Hpos. apply Z.ltb_lt in Hpos. now rewrite Hpos, orb_true_r.
Qed.

(** The forward scan of the code is the scan of the specification,
    unless the latter ends on the line on which the braces first open. *)
Lemma scanForward_agrees lines : forall i d b,
  (b = false -> d <= 0) ->
  closesWhereItOpens lines d b = false ->
  scanForward lines i d b = specScanForward lines i d b.
Proof.
  induction lines as [| l rest IH]; intros i d b Hd Hsafe; simpl in *;
    [reflexivity |].
  destruct b.
  - rewrite scanChars_in_function in *.
    destruct (scanChars l d true) as [d' found]. simpl in *.
    destruct found; [reflexivity |].
    replace (if 0 <? d' then true else true) with true by now destruct (0 <? d').
    apply IH; [discriminate | exact Hsafe].
  - destruct (specScanChars l d false) as [[d' w'] found] eqn:Hspec.
    destruct found; [discriminate |].
    destruct (scanChars_not_in_function l d false d' w') as [Hcode Hw];
      [split; [discriminate | intros; specialize (Hd eq_refl); lia] | exact Hspec |].
    rewrite Hcode.
    assert ((if 0 <? d' then true else false) = w') as ->.
    { destruct (Z.ltb_spec 0 d') as [Hpos | Hle].
      - symmetry. now apply Hw.
      - destruct w'; [| reflexivity]. destruct Hw as [Hw _].
        specialize (Hw eq_refl). lia. }
    apply IH; [| exact Hsafe].
    intros ->. destruct (Z.ltb_spec 0 d') as [Hpos | Hle]; [| exact Hle].
    destruct Hw as [_ Hw]. now specialize (Hw Hpos).
Qed.

(** So [getFunctionContext] reports the end line of the specification
    for every function but those that close on the line on which they
    open. *)
Lemma getFunctionContext_endLine_agrees this lineNumber context :
  getFunctionContext this lineNumber = Some context ->
  closesWhereItOpens
    (drop (Z.to_nat (startLine context - 1)) (split newline (sourceCode this)))
    0 false = false ->
  endLine context = specEndLine (sourceCode this) (startLine context).
Proof.
  unfold getFunctionContext, specEndLine.
  destruct (String.eqb (sourceCode this) EmptyString); [discriminate |].
  destruct (findFunctionStart _ _) as [[name first] |]; [| discriminate].
  intros H Hsafe. inversion H; subst context. cbn [endLine startLine] in *.
  now rewrite scanForward_agrees by (lia || exact Hsafe).
Qed.

(** C9, the failing input.  In [oneLineFunction] the braces of [f]
    open and close on line 1, so the depth is back to zero on line 1
    after having been positive; [getFunctionContext] reports line 3,
    the end of the next function, and returns both functions as the
    code of [f].  A function whose braces span several lines is
    bracketed as the specification says. *)
Theorem C9_one_line_function_end_is_missed :
  specEndLine Examples.oneLineFunction 1 = 1
  /\ getFunctionContext (loaded Examples.oneLineFunction EmptyString EmptyString) 1 =
     Some {| functionName := "f"; startLine := 1; endLine := 3;
             code := Examples.oneLineFunction; revertLine := 1 |}
  /\ getFunctionContext (loaded Examples.fooSource EmptyString EmptyString) 3 =
     Some {| functionName := "foo"; startLine := 1; endLine := 4;
             code := Examples.fooSource; revertLine := 3 |}
  /\ specEndLine Examples.fooSource 1 = 4.
Proof. repeat split; vm_compute; reflexivity. Qed.

(** C8.  The reference cases of [decodeValue]: 32 zero bytes are
    [false] as a bool and [0] as a uint256, with or without the [0x]
    prefix and under the type names of the storage layout; the short
    string [hi], whose last byte is 4, is the quoted [hi]. *)
Theorem C8_decodeValue_reference_cases :
  decodeValue (repeat "0" 64) "bool" = "false"
  /\ decodeValue ("0x" +:+ repeat "0" 64) "bool" = "false"
  /\ decodeValue ("0x" +:+ repeat "0" 64) "t_bool" = "false"
  /\ decodeValue (repeat "0" 64) "uint256" = "0"
  /\ decodeValue ("0x" +:+ repeat "0" 64) "uint256" = "0"
  /\ decodeValue ("0x" +:+ repeat "0" 64) "t_uint256" = "0"
  /\ parseInt (slice (sliceFrom Examples.shortHi 2) 62 64) 16 = Fin 4
  /\ decodeValue Examples.shortHi "string" = quote +:+ "hi" +:+ quote
  /\ decodeValue Examples.shortHi "t_string_storage" = quote +:+ "hi" +:+ quote.
Proof. repeat split; vm_compute; reflexivity. Qed.

End ContextProofs.

(* ===================================================================== *)
(** ** Further properties of the executor *)
(* ===================================================================== *)

Module ExecutorMore.
Import JS TransactionExecutor StorageDiffProofs.

Lemma length_append (a b : string) :
  String.length (a +:+ b) = (String.length a + String.length b)%nat.
Proof. induction a as [| c a IH]; simpl; [reflexivity | now rewrite IH]. Qed.

Lemma length_repeat c n : String.length (repeat c n) = n.
Proof. induction n as [| n IH]; simpl; [reflexivity | now rewrite IH]. Qed.

Lemma padStart_long s n c : (n <= String.length s)%nat -> padStart s n c = s.
Proof.
  intros H. unfold padStart.
  replace (n - String.length s)%nat with 0%nat by lia. reflexivity.
Qed.

Lemma length_padStart s n c :
  String.length (padStart s n c) = Nat.max n (String.length s).
Proof. unfold padStart. rewrite length_append, length_repeat. lia. Qed.

Lemma padHex_unfold hex n :
  padHex hex n = String "0" (String "x" (padStart (digitsOf hex) n "0")).
Proof. reflexivity. Qed.

Lemma digitsOf_prefixed s : digitsOf (String "0" (String "x" s)) = s.
Proof. reflexivity. Qed.

(** X1. [padHex] puts exactly one [0x] in front of the digits, fills them
    to the asked length without ever cutting a longer word, and padding
    a padded word again changes nothing. *)
Theorem padHex_normal_form (hex : string) (n : nat) :
  startsWith (padHex hex n) "0x" = true
  /\ String.length (padHex hex n) = (2 + Nat.max n (String.length (digitsOf hex)))%nat
  /\ padHex (padHex hex n) n = padHex hex n.
Proof.
  rewrite !padHex_unfold, digitsOf_prefixed.
  split; [reflexivity | split].
  - cbn [String.length]. rewrite length_padStart. lia.
  - rewrite (padStart_long (padStart _ _ _)); [reflexivity |].
    rewrite length_padStart. lia.
Qed.

Lemma allDigits_zero R s : 0 < R -> allDigits R (String "0" s) 0 = allDigits R s 0.
Proof.
  intros HR. cbn [allDigits].
  replace (digitValue "0") with (Some 0) by reflexivity.
  destruct (Z.ltb_spec 0 R); [| lia].
  now replace (0 * R + 0) with 0 by lia.
Qed.

Lemma allDigits_zeros R k s :
  0 < R -> allDigits R (repeat "0" k +:+ s) 0 = allDigits R s 0.
Proof.
  intros HR. induction k as [| k IH]; [reflexivity |].
  change (repeat "0" (S k) +:+ s) with (String "0" (repeat "0" k +:+ s)).
  now rewrite allDigits_zero.
Qed.

Lemma BigInt_hex ds :
  ds <> EmptyString -> allHex ds = true ->
  BigInt (String "0" (String "x" ds)) = allDigits 16 ds 0.
Proof.
  intros Hne Hhex. unfold BigInt, trim.
  change (trimStart (String "0" (String "x" ds))) with (String "0" (String "x" ds)).
  rewrite trimEnd_id.
  - cbn. destruct ds; [congruence | reflexivity].
  - intros c [<- | [<- | Hin]]; [reflexivity | reflexivity |].
    apply hex_digit_not_space. now apply (allHex_In ds).
Qed.

(** X2. Padding does not change the number a stack word stands for. *)
Theorem padHex_keeps_value (x : string) (n : nat) :
  isHexWord x = true -> BigInt (padHex x n) = BigInt x.
Proof.
  intros H. destruct (isHexWord_inv x H) as (ds & -> & Hne & Hhex).
  rewrite (BigInt_hex ds Hne Hhex).
  rewrite padHex_unfold, digitsOf_prefixed. unfold padStart.
  rewrite BigInt_hex.
  - now apply allDigits_zeros.
  - destruct (n - String.length ds)%nat; simpl; [exact Hne | discriminate].
  - apply allHex_app; [apply allHex_repeat | exact Hhex].
Qed.

Lemma padHex_keeps_value_witness :
  BigInt (padHex "0x7" 64) = BigInt "0x7".
Proof. apply padHex_keeps_value. reflexivity. Defined.

(** *** Storage writes *)

(** X3. A step carries a storage write exactly when its record is an SSTORE
    whose stack has at least two entries: the key is the padded top of
    the stack and the value the padded entry below it.  A trace result
    without [structLogs] gives no steps. *)
Theorem parseTrace_storage_write (traceResult : TraceResult)
    (logs : list StructLog) (i : nat) (log : StructLog) :
  structLogs traceResult = Some logs ->
  logs !! i = Some log ->
  exists t, parseTrace traceResult !! i = Some t
    /\ stack t = default [] (log_stack log)
    /\ (forall w, storage t = Some w <->
          log_op log = "SSTORE"
          /\ exists st k v,
               log_stack log = Some st /\ (2 <= length st)%nat
               /\ fromTop st 1 = Some k /\ fromTop st 2 = Some v
               /\ w = {| key := padHex k 64; value := padHex v 64 |}).
Proof.
  intros Hlogs Hi. unfold parseTrace. rewrite Hlogs. cbn [default from_option id].
  eexists. split; [apply (NormalizerProofs.parseLoop_lookup _ _ _ _ _ Hi) |].
  split; [reflexivity |]. intros w. split.
  - intros Hw. apply parseStep_storage in Hw as (st & k & v & Hop & Hst & Hk & Hv & ->).
    split; [exact Hop |]. exists st, k, v.
    destruct (log_stack log) as [st' |]; simpl in Hst; subst.
    + repeat split; try assumption.
      apply fromTop_length in Hv. now apply Nat.leb_le in Hv.
    + discriminate.
  - intros (Hop & st & k & v & Hst & Hlen & Hk & Hv & ->).
    cbn [parseStep storage]. rewrite Hop, Hst.
    cbn [default from_option id String.eqb Ascii.eqb Bool.eqb andb].
    apply Nat.leb_le in Hlen. now rewrite Hlen, Hk, Hv.
Qed.

Lemma parseTrace_storage_write_witness :
  exists t, parseTrace (Examples.traceOf Examples.storeOnly) !! 1%nat = Some t
    /\ storage t = Some {| key := Examples.word "2"; value := Examples.word "5" |}.
Proof.
  destruct (parseTrace_storage_write (Examples.traceOf Examples.storeOnly)
              Examples.storeOnly 1
              (Examples.record "SSTORE" 997 [Examples.word "5"; Examples.word "2"])
              eq_refl eq_refl) as (t & Ht & _ & Hw).
  exists t. split; [exact Ht |]. apply Hw. split; [reflexivity |].
  exists [Examples.word "5"; Examples.word "2"], (Examples.word "2"), (Examples.word "5").
  repeat split. simpl. lia.
Defined.

Lemma omap_writes (traces : list ExecutionTrace) :
  omap (fun t => (fun w => (key w, value w, step t)) <$> storage t) traces =
  (fun '(t, w) => (key w, value w, step t))
    <$> omap (fun t => pair t <$> storage t) traces.
Proof.
  induction traces as [| t rest IH]; [reflexivity |].
  csimpl. destruct (storage t); csimpl; now rewrite IH.
Qed.

(** X4. The changes are the writes of the trace, one change per write and
    in the order of the steps: nothing is merged, dropped or reordered,
    also when a slot is written several times. *)
Theorem changes_follow_writes (traces : list ExecutionTrace)
    (changes : list StorageChange) :
  extractStorageChanges traces = Some changes ->
  (fun c => (slot c, newValue c, changeStep c)) <$> changes =
  omap (fun t => (fun w => (key w, value w, step t)) <$> storage t) traces.
Proof.
  unfold extractStorageChanges. intros H. apply mapM_Some_1 in H.
  rewrite omap_writes.
  induction H as [| [t w] c l k Hf _ IH]; [reflexivity |].
  cbn [fmap list_fmap]. rewrite <- IH. f_equal.
  apply toStorageChange_fields in Hf as (-> & -> & _ & ->). reflexivity.
Qed.

Lemma changes_follow_writes_witness :
  exists changes,
    extractStorageChanges (parseTrace (Examples.traceOf Examples.incrementTwice))
      = Some changes
    /\ (fun c => (slot c, newValue c, changeStep c)) <$> changes =
       [ (Examples.word "1", Examples.word "8", 2);
         (Examples.word "1", Examples.word "9", 5) ].
Proof.
  destruct (extractStorageChanges
              (parseTrace (Examples.traceOf Examples.incrementTwice)))
    as [changes |] eqn:Hex; [| vm_compute in Hex; discriminate Hex].
  exists changes. split; [reflexivity |].
  rewrite (changes_follow_writes _ _ Hex). vm_compute. reflexivity.
Defined.

(** X5. When the value last loaded from a slot is a word [BigInt] cannot
    read, and the trace writes that slot, the extraction throws: no
    change is returned, for any slot. *)
Theorem unreadable_word_throws (traces : list ExecutionTrace) (i : nat)
    (s v : string) (t : ExecutionTrace) (w : StorageWrite) :
  sloadObserved traces i s v ->
  (forall i' v', (i < i')%nat -> ~ sloadObserved traces i' s v') ->
  BigInt v = None ->
  t ∈ traces -> storage t = Some w -> key w = s ->
  extractStorageChanges traces = None.
Proof.
  intros Hobs Hlast Hbig Ht Hw Hkey.
  destruct (extractStorageChanges traces) as [changes |] eqn:Hex; [| reflexivity].
  destruct (extract_has _ _ _ _ Hex Ht Hw) as (c & _ & Hf).
  unfold toStorageChange in Hf.
  rewrite Hkey, (reads_last _ _ _ _ Hobs Hlast) in Hf.
  rewrite stringOr_Some in Hf by now apply observed_value in Hobs.
  rewrite Hbig in Hf. discriminate.
Qed.

Lemma unreadable_word_throws_witness :
  extractStorageChanges (parseTrace (Examples.traceOf Examples.unprefixed)) = None.
Proof.
  eapply (unreadable_word_throws _ 0 (Examples.word "1") (padStart "a" 64 "0")).
  - eexists _, _, _. repeat split; try reflexivity; discriminate.
  - intros i' v' Hi' (t & _ & _ & Ht & Hop & _).
    do 3 (destruct i' as [| i'];
          [try lia; simpl in Ht; inversion Ht; subst t; discriminate Hop |]).
    simpl in Ht. discriminate Ht.
  - reflexivity.
  - apply (list_elem_of_lookup_2 _ 2). reflexivity.
  - reflexivity.
  - reflexivity.
Defined.

(** *** Decimal text *)

Lemma allDigits_uint_acc d : forall acc : positive,
  allDigits 10 (NilEmpty.string_of_uint d) (Z.pos acc) =
  Some (Z.pos (Pos.of_uint_acc d acc)).
Proof.
  induction d; intros acc; cbn [NilEmpty.string_of_uint Pos.of_uint_acc allDigits];
    [reflexivity | ..];
    match goal with
    | |- context [digitValue ?c] =>
        let v := eval vm_compute in (digitValue c) in
        change (digitValue c) with v
    end;
    cbv iota; cbn [Z.ltb Z.compare Pos.compare Pos.compare_cont];
    rewrite <- IHd; f_equal; lia.
Qed.

Lemma allDigits_uint d :
  allDigits 10 (NilEmpty.string_of_uint d) 0 = Some (Z.of_N (Pos.of_uint d)).
Proof.
  induction d; cbn [NilEmpty.string_of_uint Pos.of_uint allDigits];
    [reflexivity | ..];
    match goal with
    | |- context [digitValue ?c] =>
        let v := eval vm_compute in (digitValue c) in
        change (digitValue c) with v
    end;
    cbv iota; cbn [Z.ltb Z.compare Pos.compare Pos.compare_cont Z.mul Z.add];
    [exact IHd | apply allDigits_uint_acc ..].
Qed.

Lemma uint_digits_not_space d c :
  In c (list_ascii_of_string (NilEmpty.string_of_uint d)) -> isWhiteSpace c = false.
Proof.
  induction d; simpl; [tauto | ..]; intros [<- | Hin]; auto.
Qed.

Lemma to_uint_not_Nil p : Pos.to_uint p <> Decimal.Nil.
Proof.
  intros H. pose proof (DecimalPos.Unsigned.of_to p) as Hp.
  rewrite H in Hp. discriminate.
Qed.

(** The digits of a positive number are read back as a plain decimal
    literal. *)
Lemma BigInt_uint d :
  d <> Decimal.Nil ->
  BigInt (NilEmpty.string_of_uint d) = Some (Z.of_N (Pos.of_uint d)).
Proof.
  intros Hd. unfold BigInt, trim.
  assert (trimStart (NilEmpty.string_of_uint d) = NilEmpty.string_of_uint d) as ->
    by (destruct d; [congruence | reflexivity ..]).
  rewrite trimEnd_id by apply uint_digits_not_space.
  rewrite <- allDigits_uint.
  destruct d as [| d | d | d | d | d | d | d | d | d | d]; [congruence | ..];
    destruct d; reflexivity.
Qed.

(** Printing a BigInt and reading the text again gives the number. *)
Lemma string_of_uint_to_uint p :
  NilZero.string_of_uint (Pos.to_uint p) = NilEmpty.string_of_uint (Pos.to_uint p).
Proof.
  pose proof (to_uint_not_Nil p) as Hp.
  destruct (Pos.to_uint p); [congruence | reflexivity ..].
Qed.

Lemma BigInt_bigIntToString z : BigInt (bigIntToString z) = Some z.
Proof.
  unfold bigIntToString. destruct z as [| p | p]; [reflexivity | |].
  - change (NilZero.string_of_int (Z.to_int (Z.pos p)))
      with (NilZero.string_of_uint (Pos.to_uint p)).
    rewrite string_of_uint_to_uint, BigInt_uint by apply to_uint_not_Nil.
    now rewrite DecimalPos.Unsigned.of_to.
  - change (NilZero.string_of_int (Z.to_int (Z.neg p)))
      with (String "-" (NilZero.string_of_uint (Pos.to_uint p))).
    rewrite string_of_uint_to_uint.
    unfold BigInt, trim.
    change (trimStart (String "-" ?s)) with (String "-" s).
    rewrite trimEnd_id.
    + unfold nonEmptyDigits.
      rewrite allDigits_uint, DecimalPos.Unsigned.of_to.
      pose proof (to_uint_not_Nil p) as Hp.
      destruct (Pos.to_uint p); [congruence | reflexivity ..].
    + intros c [<- | Hin]; [reflexivity |]. now apply uint_digits_not_space in Hin.
Qed.

Lemma toStorageChange_numbers reads t w c :
  toStorageChange reads t w = Some c ->
  slotNumber c = parseInt (slot c) 16
  /\ (exists old, BigInt (oldValue c) = Some old /\ oldValueDecimal c = bigIntToString old)
  /\ (exists new, BigInt (newValue c) = Some new /\ newValueDecimal c = bigIntToString new).
Proof.
  unfold toStorageChange. intros H.
  destruct (BigInt (stringOr (reads !! key w) zeroWord)) as [old |] eqn:Hold;
    [| discriminate].
  destruct (BigInt (value w)) as [new |] eqn:Hnew; [| discriminate].
  simpl in H. inversion H; subst c. cbn. eauto 10.
Qed.

(** X6. The decimal texts of a change stand for the same numbers as its
    hexadecimal words: reading [oldValueDecimal] and [newValueDecimal]
    back gives the values of [oldValue] and [newValue]. *)
Theorem change_decimals_agree (traces : list ExecutionTrace)
    (changes : list StorageChange) (c : StorageChange) :
  extractStorageChanges traces = Some changes -> c ∈ changes ->
  is_Some (BigInt (oldValue c))
  /\ BigInt (oldValueDecimal c) = BigInt (oldValue c)
  /\ BigInt (newValueDecimal c) = BigInt (newValue c).
Proof.
  intros Hex Hc. destruct (extract_elem _ _ _ Hex Hc) as (t & w & _ & _ & Hf).
  apply toStorageChange_numbers in Hf as (_ & (old & Hold & ->) & (new & Hnew & ->)).
  rewrite !BigInt_bigIntToString, Hold, Hnew. eauto.
Qed.

Lemma change_decimals_agree_witness :
  exists c, extractStorageChanges (parseTrace (Examples.traceOf Examples.storeOnly))
            ≫= head = Some c
    /\ BigInt (newValueDecimal c) = BigInt (newValue c).
Proof.
  destruct (extractStorageChanges (parseTrace (Examples.traceOf Examples.storeOnly)))
    as [changes |] eqn:Hex; [| vm_compute in Hex; discriminate Hex].
  destruct changes as [| c rest]; [vm_compute in Hex; discriminate Hex |].
  exists c. split; [reflexivity |].
  apply (change_decimals_agree _ (c :: rest) c Hex). apply list_elem_of_here.
Defined.

Lemma digitsPrefix_all R s : forall acc v,
  allDigits R s acc = Some v -> digitsPrefix R s acc true = Some v.
Proof.
  induction s as [| c s IH]; intros acc v H; simpl in *; [exact H |].
  destruct (digitValue c) as [d |]; [| discriminate].
  destruct (d <? R); [now apply IH | discriminate].
Qed.

Lemma parseInt_hex ds v :
  ds <> EmptyString -> allDigits 16 ds 0 = Some v ->
  parseInt (String "0" (String "x" ds)) 16 = to_double v.
Proof.
  intros Hne Hv. unfold parseInt.
  change (trimStart (String "0" (String "x" ds))) with (String "0" (String "x" ds)).
  cbn -[digitsPrefix to_double].
  destruct ds as [| c ds]; [congruence |].
  cbn [digitsPrefix]. cbn [allDigits] in Hv.
  destruct (digitValue c) as [d |]; [| discriminate].
  destruct (d <? 16); [| discriminate].
  now rewrite (digitsPrefix_all _ _ _ _ Hv).
Qed.

Lemma slotNumber_of_change (traceResult : TraceResult)
    (logs : list StructLog) (changes : list StorageChange) (c : StorageChange) :
  structLogs traceResult = Some logs ->
  wellFormedLogs logs ->
  extractStorageChanges (parseTrace traceResult) = Some changes ->
  c ∈ changes ->
  exists n, BigInt (slot c) = Some n /\ 0 <= n
    /\ slotNumber c = to_double n
    /\ (n < 2 ^ 53 -> slotNumber c = Fin n).
Proof.
  intros Hlogs Hwf Hex Hc.
  replace (parseTrace traceResult) with (parseTrace (Examples.traceOf logs)) in Hex
    by (unfold parseTrace; now rewrite Hlogs).
  destruct (extract_elem _ _ _ Hex Hc) as (t & w & Ht & Hw & Hf).
  pose proof (toStorageChange_fields _ _ _ _ Hf) as (Hslot & _).
  apply toStorageChange_numbers in Hf as (Hnum & _).
  destruct (parseTrace_elem _ _ Ht) as (i & log & g & Hlog & ->).
  apply parseStep_storage in Hw as (st & k & u & _ & Hst & Hk & _ & ->).
  assert (isHexWord k = true) as Hhex.
  { apply fromTop_elem in Hk. destruct (log_stack log) as [st' |] eqn:Hs.
    - simpl in Hst. subst st'.
      apply (Hwf log st k); [now apply list_elem_of_lookup_2 in Hlog | exact Hs | exact Hk].
    - simpl in Hst. subst st. now apply elem_of_nil in Hk. }
  apply (padHex_hexWord k 64) in Hhex.
  simpl in Hslot. rewrite <- Hslot in Hhex.
  destruct (isHexWord_inv _ Hhex) as (ds & Heq & Hne & Hall).
  destruct (allDigits_hex ds 0 Hall) as [n Hn].
  assert (0 <= n) as Hpos.
  { clear - Hn. assert (forall s acc v, 0 <= acc -> allDigits 16 s acc = Some v -> 0 <= v)
      as Hgen.
    { induction s as [| ch s IH]; intros acc v Hacc H; simpl in H.
      - inversion H; subst. exact Hacc.
      - unfold digitValue in H.
        repeat match type of H with
               | context [if ?b then _ else _] => destruct b eqn:?
               end; try discriminate;
          (eapply IH; [| exact H]); lia. }
    now apply (Hgen ds 0 n). }
  exists n. rewrite Hnum, Heq, (BigInt_hex ds Hne Hall), (parseInt_hex ds n Hne Hn).
  repeat split; try assumption.
  intros Hsmall. unfold to_double.
  destruct (Z.ltb_spec (Z.abs n) (2 ^ 53)); [reflexivity | lia].
Qed.

(** X7. The slot number of a change is the double nearest to its slot: the
    slot itself below [2^53], a rounded number for the hashed slots of
    mappings and dynamic arrays. *)
Theorem slot_number_is_rounded_slot (traceResult : TraceResult)
    (logs : list StructLog) (changes : list StorageChange) (c : StorageChange) :
  structLogs traceResult = Some logs ->
  wellFormedLogs logs ->
  extractStorageChanges (parseTrace traceResult) = Some changes ->
  c ∈ changes ->
  exists n, BigInt (slot c) = Some n /\ 0 <= n
    /\ slotNumber c = to_double n
    /\ (n < 2 ^ 53 -> slotNumber c = Fin n).
Proof. apply slotNumber_of_change. Qed.

Lemma slot_number_is_rounded_slot_witness :
  exists c n, extractStorageChanges (parseTrace (Examples.traceOf Examples.storeOnly))
              ≫= head = Some c
    /\ BigInt (slot c) = Some n /\ slotNumber c = Fin n.
Proof.
  destruct (extractStorageChanges (parseTrace (Examples.traceOf Examples.storeOnly)))
    as [changes |] eqn:Hex; [| vm_compute in Hex; discriminate Hex].
  destruct changes as [| c rest]; [vm_compute in Hex; discriminate Hex |].
  destruct (slot_number_is_rounded_slot (Examples.traceOf Examples.storeOnly)
              Examples.storeOnly (c :: rest) c eq_refl) as (n & Hn & _ & _ & Hsmall).
  - apply hexStacks_wellFormed. reflexivity.
  - exact Hex.
  - apply list_elem_of_here.
  - exists c, n. split; [reflexivity | split; [exact Hn |]].
    apply Hsmall. vm_compute in Hex. inversion Hex; subst c.
    vm_compute in Hn. inversion Hn. reflexivity.
Defined.

End ExecutorMore.

(* ===================================================================== *)
(** ** Further properties of the disassembler *)
(* ===================================================================== *)

Module DisassemblerMore.
Import JS StorageLayoutParser DisassemblerProofs.

Lemma table_walk bytecode p i :
  buildPCToInstructionMap bytecode !! p = Some i <->
  walkFrom (strip0x bytecode) 0 0 p i.
Proof.
  unfold buildPCToInstructionMap. rewrite pcLoop_spec.
  - rewrite lookup_empty. split; [intros [H | H]; [discriminate | exact H] | auto].
  - lia.
  - lia.
  - intros q w Hq. rewrite lookup_empty in Hq. discriminate.
Qed.

Lemma walkFrom_inside code pc k p i :
  walkFrom code pc k p i -> p * 2 < Z.of_nat (String.length code).
Proof. induction 1; assumption. Qed.

(** From an instruction of the walk, the walk goes on from the next
    instruction to every later one. *)
Lemma walkFrom_later code pc k p i q j :
  walkFrom code pc k p i -> walkFrom code pc k q j -> p < q ->
  walkFrom code (p + 1 + operandBytes (opcodeAt code p)) (i + 1) q j.
Proof.
  intros Hp. revert q j.
  induction Hp as [pc k Hlt | pc k p i Hlt Hw IH]; intros q j Hq Hpq.
  - inversion Hq; subst; [lia | assumption].
  - inversion Hq; subst.
    + apply walkFrom_ge in Hw.
      pose proof (operandBytes_nonneg (opcodeAt code q)). lia.
    + now apply IH.
Qed.

Lemma walkFrom_monotone code pc k p i q j :
  walkFrom code pc k p i -> walkFrom code pc k q j -> (p < q <-> i < j).
Proof.
  intros Hp Hq.
  destruct (Z.lt_trichotomy p q) as [Hlt | [Heq | Hgt]].
  - pose proof (walkFrom_later _ _ _ _ _ _ _ Hp Hq Hlt) as H.
    apply walkFrom_ge in H. lia.
  - pose proof (proj1 (walkFrom_functional _ _ _ _ _ _ _ Hp Hq) Heq). lia.
  - pose proof (walkFrom_later _ _ _ _ _ _ _ Hq Hp Hgt) as H.
    apply walkFrom_ge in H. lia.
Qed.

(** X8. The table is a bijection that keeps the order: an offset has one
    index, an index one offset, and a later instruction a larger
    index. *)
Theorem table_is_monotone_bijection (bytecode : string) (p q i j : Z) :
  buildPCToInstructionMap bytecode !! p = Some i ->
  buildPCToInstructionMap bytecode !! q = Some j ->
  (p = q <-> i = j) /\ (p < q <-> i < j).
Proof.
  rewrite !table_walk. intros Hp Hq. split.
  - now apply (walkFrom_functional _ _ _ _ _ _ _ Hp Hq).
  - now apply (walkFrom_monotone _ _ _ _ _ _ _ Hp Hq).
Qed.

Lemma table_is_monotone_bijection_witness :
  (2 = 5 <-> 1 = 2) /\ (2 < 5 <-> 1 < 2).
Proof.
  apply (table_is_monotone_bijection "600161020300"); reflexivity.
Defined.

(** X9. An instruction start lies inside the code, and the operand bytes of
    a PUSH are never taken for instructions: no offset strictly between
    an instruction and the next one is in the table.  A PUSH cut short
    by the end of the code is the last instruction. *)
Theorem operand_bytes_are_skipped (bytecode : string) (p i : Z) :
  buildPCToInstructionMap bytecode !! p = Some i ->
  let code := strip0x bytecode in
  0 <= p /\ p * 2 < Z.of_nat (String.length code) /\ 0 <= i
  /\ (forall q, p < q < p + 1 + operandBytes (opcodeAt code p) ->
        buildPCToInstructionMap bytecode !! q = None)
  /\ (Z.of_nat (String.length code) <= (p + 1 + operandBytes (opcodeAt code p)) * 2 ->
      forall q, p < q -> buildPCToInstructionMap bytecode !! q = None).
Proof.
  intros Hp code. subst code. rewrite table_walk in Hp.
  pose proof (walkFrom_ge _ _ _ _ _ Hp) as [H0 Hi].
  pose proof (walkFrom_inside _ _ _ _ _ Hp) as Hin.
  repeat split; try assumption.
  - intros q Hq.
    destruct (buildPCToInstructionMap bytecode !! q) as [j |] eqn:Hj; [| reflexivity].
    rewrite table_walk in Hj.
    pose proof (walkFrom_later _ _ _ _ _ _ _ Hp Hj ltac:(lia)) as H.
    apply walkFrom_ge in H. lia.
  - intros Hend q Hq.
    destruct (buildPCToInstructionMap bytecode !! q) as [j |] eqn:Hj; [| reflexivity].
    rewrite table_walk in Hj.
    pose proof (walkFrom_later _ _ _ _ _ _ _ Hp Hj Hq) as H.
    pose proof (walkFrom_ge _ _ _ _ _ H) as [Hge _].
    apply walkFrom_inside in H. inversion H; lia.
Qed.

Lemma operand_bytes_are_skipped_witness :
  buildPCToInstructionMap "600161020300" !! 3 = None.
Proof.
  destruct (operand_bytes_are_skipped "600161020300" 2 1 eq_refl)
    as (_ & _ & _ & H & _).
  apply H. vm_compute. split; reflexivity.
Defined.

(** The loop keeps the indices dense: with [k] entries in the table,
    the indices are the numbers below [k]. *)
Lemma pcLoop_dense code fuel : forall pc k (m : gmap Z Z),
  (forall p v, m !! p = Some v -> p < pc) ->
  Z.of_nat (size m) = k ->
  (forall i, (exists p, m !! p = Some i) <-> 0 <= i < k) ->
  forall i, (exists p, pcLoop fuel code pc k m !! p = Some i) <->
            0 <= i < Z.of_nat (size (pcLoop fuel code pc k m)).
Proof.
  induction fuel as [| fuel IH]; intros pc k m Hkeys Hsize Hdense i; simpl.
  - rewrite Hsize. apply Hdense.
  - destruct (pc * 2 <? Z.of_nat (String.length code)); [| rewrite Hsize; apply Hdense].
    assert (m !! pc = None) as Hfresh.
    { destruct (m !! pc) eqn:H; [| reflexivity]. apply Hkeys in H. lia. }
    apply IH.
    + intros q w Hq. destruct (decide (pc = q)) as [<- | Hne].
      * pose proof (operandBytes_nonneg (opcodeAt code pc)).
        rewrite advance_operandBytes. lia.
      * rewrite lookup_insert_ne in Hq by exact Hne.
        apply Hkeys in Hq. pose proof (operandBytes_nonneg (opcodeAt code pc)).
        rewrite advance_operandBytes. lia.
    + rewrite map_size_insert_None by exact Hfresh. lia.
    + intros j. split.
      * intros [q Hq]. destruct (decide (pc = q)) as [<- | Hne].
        -- rewrite lookup_insert_eq in Hq. inversion Hq. lia.
        -- rewrite lookup_insert_ne in Hq by exact Hne.
           assert (0 <= j < k) by (apply Hdense; eauto). lia.
      * intros Hj. destruct (decide (j = k)) as [-> | Hne].
        -- exists pc. apply lookup_insert_eq.
        -- destruct (proj2 (Hdense j) ltac:(lia)) as [q Hq].
           exists q. rewrite lookup_insert_ne; [exact Hq |].
           intros <-. congruence.
Qed.

(** X10. The instruction indices are dense: a table of [n] entries holds
    each of the indices [0 .. n-1], and no other. *)
Theorem indices_are_dense (bytecode : string) (i : Z) :
  (exists p, buildPCToInstructionMap bytecode !! p = Some i) <->
  0 <= i < Z.of_nat (size (buildPCToInstructionMap bytecode)).
Proof.
  unfold buildPCToInstructionMap. apply pcLoop_dense.
  - intros p v H. rewrite lookup_empty in H. discriminate.
  - reflexivity.
  - intros j. split; [intros [p H]; rewrite lookup_empty in H; discriminate | lia].
Qed.

Lemma indices_are_dense_witness :
  exists p, buildPCToInstructionMap "600161020300" !! p = Some 2.
Proof. apply indices_are_dense. vm_compute. split; [discriminate | reflexivity]. Defined.

End DisassemblerMore.

(* ===================================================================== *)
(** ** Further properties of the source locations *)
(* ===================================================================== *)

Module LocationMore.
Import JS StorageLayoutParser SourceMapProofs.

Lemma to_double_small z : Z.abs z < 2 ^ 53 -> to_double z = Fin z.
Proof.
  intros H. unfold to_double.
  destruct (Z.ltb_spec (Z.abs z) (2 ^ 53)); [reflexivity | lia].
Qed.

Lemma lineStart_0 lines : lineStart lines 0 = 0.
Proof. now destruct lines. Qed.

Lemma lineStart_cons l rest k :
  lineStart (l :: rest) (S k) = Z.of_nat (String.length l) + 1 + lineStart rest k.
Proof. reflexivity. Qed.

Lemma lineStart_nonneg lines : forall k, 0 <= lineStart lines k.
Proof.
  induction lines as [| l rest IH]; intros [| k]; try (cbn; lia).
  rewrite lineStart_cons. specialize (IH k). lia.
Qed.

Lemma lineStart_S lines : forall k text,
  lines !! k = Some text ->
  lineStart lines (S k) = lineStart lines k + Z.of_nat (String.length text) + 1.
Proof.
  induction lines as [| l rest IH]; intros k text H.
  - rewrite lookup_nil in H. discriminate.
  - destruct k as [| k].
    + cbn in H. inversion H; subst.
      rewrite lineStart_cons, !lineStart_0. lia.
    + cbn in H. rewrite !lineStart_cons, (IH k text H). lia.
Qed.

Lemma lineStart_mono lines : forall a b,
  (a <= b)%nat -> lineStart lines a <= lineStart lines b.
Proof.
  induction lines as [| l rest IH]; intros a b Hab.
  - destruct a, b; cbn; lia.
  - destruct a as [| a], b as [| b]; try lia.
    + rewrite lineStart_0. apply lineStart_nonneg.
    + rewrite !lineStart_cons. specialize (IH a b ltac:(lia)). lia.
Qed.

(** The loop over the lines finds the line whose bytes hold the
    offset, and runs off the end for an offset past the last line. *)
Lemma scanLines_Fin lines : forall i off z,
  off <= z ->
  match scanLines lines i off (Fin z) with
  | Some (l, c) =>
      exists k text, lines !! k = Some text /\ l = i + Z.of_nat k + 1
        /\ off + lineStart lines k <= z < off + lineStart lines (S k)
        /\ c = number_add_Z (number_sub_Z (Fin z) (off + lineStart lines k)) 1
  | None => off + lineStart lines (length lines) <= z
  end.
Proof.
  induction lines as [| l rest IH]; intros i off z Hoff; cbn [scanLines].
  - cbn. lia.
  - cbn [Z_gt_number].
    destruct (Z.ltb_spec z (off + (Z.of_nat (String.length l) + 1))) as [Hin | Hout].
    + exists 0%nat, l. rewrite lineStart_cons, !lineStart_0.
      split; [reflexivity |]. split; [lia |]. split; [lia |].
      now rewrite Z.add_0_r.
    + specialize (IH (i + 1) (off + (Z.of_nat (String.length l) + 1)) z Hout).
      destruct (scanLines rest (i + 1) (off + (Z.of_nat (String.length l) + 1)) (Fin z))
        as [[ln c] |].
      * destruct IH as (k & text & Hk & Hl & Hrange & Hc).
        exists (S k), text. split; [exact Hk |]. split; [lia |].
        rewrite !lineStart_cons. split; [lia |].
        rewrite Hc. f_equal. f_equal. lia.
      * cbn [length]. rewrite lineStart_cons. lia.
Qed.

Lemma column_small z o :
  0 <= o <= z -> z < 2 ^ 53 - 1 ->
  number_add_Z (number_sub_Z (Fin z) o) 1 = Fin (z - o + 1).
Proof.
  intros Ho Hz. unfold number_sub_Z. cbn [number_add_Z].
  rewrite (to_double_small (z + - o)) by lia.
  cbn [number_add_Z]. rewrite to_double_small by lia. reflexivity.
Qed.

(** Where a byte of a text lies among its lines. *)
Lemma split_offset s : forall z,
  (z < String.length s)%nat ->
  exists k text,
    split newline s !! k = Some text
    /\ lineStart (split newline s) k <= Z.of_nat z
    /\ Z.of_nat z < lineStart (split newline s) (S k)
    /\ String.get z s =
       String.get (Z.to_nat (Z.of_nat z - lineStart (split newline s) k))
                  (text +:+ String newline EmptyString).
Proof.
  induction s as [| c s IH]; intros z Hz; [cbn in Hz; lia |].
  cbn [String.length] in Hz. cbn [split].
  destruct (Ascii.eqb_spec c newline) as [-> | Hc].
  - destruct z as [| z].
    + exists 0%nat, EmptyString. rewrite lineStart_cons, !lineStart_0.
      split; [reflexivity |]. split; [lia |]. split; [cbn; lia |]. reflexivity.
    + destruct (IH z ltac:(lia)) as (k & text & Hk & Hlo & Hhi & Hget).
      exists (S k), text. split; [exact Hk |].
      rewrite !lineStart_cons. cbn [String.length].
      split; [lia |]. split; [lia |].
      cbn [String.get]. rewrite Hget. f_equal. lia.
  - destruct (split newline s) as [| h t] eqn:Hsplit.
    { pose proof (split_length newline s) as Hl. rewrite Hsplit in Hl. discriminate. }
    destruct z as [| z].
    + exists 0%nat, (String c h). rewrite lineStart_cons, !lineStart_0.
      split; [reflexivity |]. split; [lia |]. split; [cbn [String.length]; lia |].
      reflexivity.
    + destruct (IH z ltac:(lia)) as (k & text & Hk & Hlo & Hhi & Hget).
      destruct k as [| k].
      * cbn in Hk. inversion Hk; subst text.
        exists 0%nat, (String c h). split; [reflexivity |].
        rewrite lineStart_cons, !lineStart_0 in *. cbn [String.length].
        split; [lia |]. split; [lia |].
        cbn [String.get]. rewrite Hget.
        replace (Z.to_nat (Z.of_nat z - 0)) with z by lia.
        replace (Z.to_nat (Z.of_nat (S z) - 0)) with (S z) by lia.
        reflexivity.
      * exists (S k), text. split; [exact Hk |].
        rewrite !lineStart_cons in *. cbn [String.length].
        split; [lia |]. split; [lia |].
        cbn [String.get]. rewrite Hget. f_equal. lia.
Qed.

Lemma lineStart_total s :
  lineStart (split newline s) (length (split newline s)) = Z.of_nat (String.length s) + 1.
Proof.
  induction s as [| c s IH]; [reflexivity |].
  cbn [split]. destruct (Ascii.eqb c newline).
  - cbn [length]. rewrite lineStart_cons, IH. cbn [String.length]. lia.
  - destruct (split newline s) as [| h t] eqn:Hsplit.
    { pose proof (split_length newline s) as Hl. rewrite Hsplit in Hl. discriminate. }
    cbn [length] in *. rewrite lineStart_cons in *. cbn [String.length]. lia.
Qed.

Lemma snippetAt_lookup lines (k : nat) text :
  lines !! k = Some text -> snippetAt lines (Z.of_nat k + 1) = trim text.
Proof.
  intros H. unfold snippetAt.
  destruct (Z.ltb_spec (Z.of_nat k + 1 - 1) 0); [lia |].
  replace (Z.to_nat (Z.of_nat k + 1 - 1)) with k by lia.
  now rewrite H.
Qed.

(** The line and the column reported for an offset inside the text
    are those of the character at that index: the offset lies on line
    [k + 1], and the character at the offset is the one at the column
    in that line, the newline that ends the line included. *)
Lemma location_of_unit (source : string) (z : Z) :
  0 <= z < Z.of_nat (String.length source) -> z < 2 ^ 53 - 1 ->
  exists (k : nat) (text : string) (col : Z),
    split newline source !! k = Some text
    /\ locate source (Fin z)
       = {| line := Z.of_nat k + 1; column := Fin col; snippet := trim text |}
    /\ col = z - lineStart (split newline source) k + 1
    /\ 1 <= col <= Z.of_nat (String.length text) + 1
    /\ String.get (Z.to_nat z) source
       = String.get (Z.to_nat (col - 1)) (text +:+ String newline EmptyString).
Proof.
  intros Hz Hsmall.
  destruct (split_offset source (Z.to_nat z) ltac:(lia))
    as (k & text & Hk & Hlo & Hhi & Hget).
  rewrite Z2Nat.id in Hlo, Hhi, Hget by lia.
  exists k, text, (z - lineStart (split newline source) k + 1).
  split; [exact Hk |].
  pose proof (lineStart_S _ _ _ Hk) as HS.
  pose proof (lineStart_nonneg (split newline source) k) as Hnn.
  split; [| split; [reflexivity | split; [lia |]]].
  - unfold locate.
    pose proof (scanLines_Fin (split newline source) 0 0 z ltac:(lia)) as Hscan.
    destruct (scanLines (split newline source) 0 0 (Fin z)) as [[l c] |].
    + destruct Hscan as (k' & text' & Hk' & Hl & Hrange & Hc).
      assert (k' = k) as ->.
      { destruct (Nat.lt_trichotomy k' k) as [Hlt | [Heq | Hgt]]; [| exact Heq |].
        - pose proof (lineStart_mono (split newline source) (S k') k ltac:(lia)). lia.
        - pose proof (lineStart_mono (split newline source) (S k) k' ltac:(lia)). lia. }
      cbn [default from_option id]. subst l.
      rewrite Z.add_0_l, (snippetAt_lookup _ _ _ Hk). f_equal.
      rewrite Hc, Z.add_0_l. apply column_small; lia.
    + exfalso. rewrite lineStart_total in Hscan. lia.
  - rewrite Hget. f_equal. lia.
Qed.

(** *** Bytes of the file and characters of the text *)

Lemma utf8Bytes_ascii_length s :
  isAscii s = true -> length (utf8Bytes s) = String.length s.
Proof.
  induction s as [| c s IH]; [reflexivity |].
  cbn [isAscii utf8Bytes String.length]. intros H.
  apply andb_true_iff in H as [Hc Hs].
  unfold utf8Char. rewrite Hc. cbn [app length]. now rewrite IH.
Qed.

Lemma utf8Bytes_ascii_get s : forall n,
  isAscii s = true ->
  utf8Bytes s !! n = (fun c => Z.of_N (N_of_ascii c)) <$> String.get n s.
Proof.
  induction s as [| c s IH]; intros n H; [now destruct n |].
  cbn [isAscii] in H. apply andb_true_iff in H as [Hc Hs].
  cbn [utf8Bytes]. unfold utf8Char. rewrite Hc.
  destruct n as [| n]; [reflexivity |].
  cbn [app String.get]. rewrite lookup_cons. now apply IH.
Qed.

Lemma isAscii_split sep s :
  isAscii s = true -> Forall (fun l => isAscii l = true) (split sep s).
Proof.
  induction s as [| c s IH]; intros H.
  - repeat constructor.
  - cbn [isAscii] in H. apply andb_true_iff in H as [Hc Hs].
    specialize (IH Hs). cbn [split].
    destruct (Ascii.eqb c sep); [now constructor |].
    destruct (split sep s) as [| h t]; [repeat constructor; cbn; now rewrite Hc |].
    inversion IH; subst. constructor; [| assumption].
    cbn [isAscii]. now rewrite Hc.
Qed.

Lemma isAscii_line text :
  isAscii text = true -> isAscii (text +:+ String newline EmptyString) = true.
Proof.
  induction text as [| c text IH]; [reflexivity |].
  cbn [isAscii]. intros H. apply andb_true_iff in H as [Hc Hs].
  change (String c text +:+ String newline EmptyString)
    with (String c (text +:+ String newline EmptyString)).
  cbn [isAscii]. now rewrite Hc, IH.
Qed.

Lemma byteLineStart_ascii lines : forall k,
  Forall (fun l => isAscii l = true) lines ->
  byteLineStart lines k = lineStart lines k.
Proof.
  induction lines as [| l rest IH]; intros k H; [now destruct k |].
  destruct k as [| k]; [reflexivity |].
  inversion H; subst. cbn [byteLineStart]. rewrite lineStart_cons.
  now rewrite utf8Bytes_ascii_length, IH.
Qed.

(** X11. In a source whose characters are all ASCII, the line and the
    column reported for a byte offset inside the file are those of that
    byte: the offset lies on line [k + 1], the column is the 1-based
    position of the byte in the line, and the byte at the offset is the
    one at the column in that line, the newline that ends the line
    included; the snippet is the line, trimmed.  The loop counts
    characters and not bytes: in the source with an accented letter on
    line 1 and [ab] on line 2, byte 3 of the file is the [a], in
    column 1 of line 2, and the column reported for offset 3 is 2. *)
Theorem location_of_offset :
  (forall (source : string) (z : Z),
      isAscii source = true ->
      0 <= z < Z.of_nat (length (utf8Bytes source)) -> z < 2 ^ 53 - 1 ->
      exists (k : nat) (text : string) (col : Z),
        split newline source !! k = Some text
        /\ locate source (Fin z)
           = {| line := Z.of_nat k + 1; column := Fin col; snippet := trim text |}
        /\ col = z - byteLineStart (split newline source) k + 1
        /\ 1 <= col <= Z.of_nat (length (utf8Bytes text)) + 1
        /\ utf8Bytes source !! Z.to_nat z
           = utf8Bytes (text +:+ String newline EmptyString) !! Z.to_nat (col - 1))
  /\ isAscii Examples.accented = false
  /\ utf8Bytes Examples.accented = [0xc3; 0xa9; 0x0a; 0x61; 0x62]
  /\ split newline Examples.accented !! 1%nat = Some "ab"
  /\ byteLineStart (split newline Examples.accented) 1 = 3
  /\ locate Examples.accented (Fin 3)
     = {| line := 2; column := Fin 2; snippet := "ab" |}.
Proof.
  split; [| repeat split].
  intros source z Hascii Hz Hsmall.
  rewrite utf8Bytes_ascii_length in Hz by exact Hascii.
  destruct (location_of_unit source z Hz Hsmall)
    as (k & text & col & Hk & Hloc & Hcol & Hrange & Hget).
  pose proof (isAscii_split newline source Hascii) as Hlines.
  assert (isAscii text = true) as Htext.
  { rewrite Forall_forall in Hlines. apply Hlines.
    now apply list_elem_of_lookup_2 with k. }
  exists k, text, col.
  split; [exact Hk |]. split; [exact Hloc |].
  rewrite byteLineStart_ascii by exact Hlines.
  rewrite utf8Bytes_ascii_length by exact Htext.
  split; [exact Hcol |]. split; [exact Hrange |].
  rewrite !utf8Bytes_ascii_get by (exact Hascii || now apply isAscii_line).
  now rewrite Hget.
Qed.

Lemma location_of_offset_witness :
  exists (k : nat) (text : string) (col : Z),
    split newline Examples.fooSource !! k = Some text
    /\ locate Examples.fooSource (Fin 20)
       = {| line := Z.of_nat k + 1; column := Fin col; snippet := trim text |}
    /\ col = 20 - byteLineStart (split newline Examples.fooSource) k + 1
    /\ 1 <= col <= Z.of_nat (length (utf8Bytes text)) + 1
    /\ utf8Bytes Examples.fooSource !! Z.to_nat 20
       = utf8Bytes (text +:+ String newline EmptyString) !! Z.to_nat (col - 1).
Proof.
  destruct location_of_offset as [H _].
  apply (H Examples.fooSource 20); vm_compute; [reflexivity | split |]; congruence.
Defined.

Lemma Z_gt_number_mono a b n :
  a <= b -> Z_gt_number a n = true -> Z_gt_number b n = true.
Proof.
  destruct n as [| neg | z]; cbn; intros Hab H; try exact H.
  apply Z.ltb_lt in H. apply Z.ltb_lt. lia.
Qed.

Lemma scanLines_past lines : forall i off start,
  Z_gt_number (off + lineStart lines (length lines)) start = false ->
  scanLines lines i off start = None.
Proof.
  induction lines as [| l rest IH]; intros i off start H; cbn [scanLines];
    [reflexivity |].
  cbn [length] in H. rewrite lineStart_cons in H.
  pose proof (lineStart_nonneg rest (length rest)) as Hnn.
  destruct (Z_gt_number (off + (Z.of_nat (String.length l) + 1)) start) eqn:Hgt.
  - apply (Z_gt_number_mono _
             (off + (Z.of_nat (String.length l) + 1 + lineStart rest (length rest))))
      in Hgt; [congruence | lia].
  - apply IH. rewrite <- H. f_equal. lia.
Qed.

Lemma scanLines_line lines : forall i off start l c,
  scanLines lines i off start = Some (l, c) ->
  exists (k : nat) text, lines !! k = Some text /\ l = i + Z.of_nat k + 1.
Proof.
  induction lines as [| x rest IH]; intros i off start l c H; cbn [scanLines] in H;
    [discriminate |].
  destruct (Z_gt_number (off + (Z.of_nat (String.length x) + 1)) start).
  - inversion H; subst. exists 0%nat, x. split; [reflexivity | lia].
  - destruct (IH _ _ _ _ _ H) as (k & text & Hk & Hl).
    exists (S k), text. split; [exact Hk | lia].
Qed.

Lemma split_head sep s : exists h t, split sep s = h :: t.
Proof.
  destruct (split sep s) as [| h t] eqn:E; [| eauto].
  pose proof (split_length sep s) as Hl. rewrite E in Hl. discriminate.
Qed.

(** The line of a location is a line of the source, and the snippet
    is that line, trimmed. *)
Lemma located_line source start :
  exists (k : nat) text,
    split newline source !! k = Some text
    /\ line (locate source start) = Z.of_nat k + 1
    /\ snippet (locate source start) = trim text
    /\ line (locateNearby source start) = Z.of_nat k + 1
    /\ snippet (locateNearby source start) = trim text
    /\ column (locateNearby source start) = Fin 1.
Proof.
  unfold locate, locateNearby.
  destruct (scanLines (split newline source) 0 0 start) as [[l c] |] eqn:Hscan.
  - destruct (scanLines_line _ _ _ _ _ _ Hscan) as (k & text & Hk & Hl).
    exists k, text. cbn [default from_option id fst line snippet column].
    subst l. rewrite Z.add_0_l, (snippetAt_lookup _ _ _ Hk).
    split; [exact Hk |]. repeat split.
  - destruct (split_head newline source) as (h & t & E).
    exists 0%nat, h. rewrite E.
    cbn [default from_option id fst line snippet column].
    change (snippetAt (h :: t) 1) with (trim h). repeat split.
Qed.

(** X12. A start that is no offset of the source (it lies after the end,
    or is NaN or Infinity) is reported as line 1, column 1: the loop
    over the lines leaves its initial values in place. *)
Theorem offset_past_the_end (source : string) (start : number) :
  Z_gt_number (Z.of_nat (String.length source) + 1) start = false ->
  exists text,
    split newline source !! 0%nat = Some text
    /\ locate source start = {| line := 1; column := Fin 1; snippet := trim text |}.
Proof.
  intros H. destruct (split_head newline source) as (h & t & E).
  exists h. rewrite E. split; [reflexivity |].
  unfold locate. rewrite scanLines_past.
  - rewrite E. cbn [default from_option id].
    reflexivity.
  - now rewrite Z.add_0_l, lineStart_total.
Qed.

Lemma offset_past_the_end_witness :
  exists text,
    split newline Examples.fooSource !! 0%nat = Some text
    /\ locate Examples.fooSource NaN
       = {| line := 1; column := Fin 1; snippet := trim text |}.
Proof. apply offset_past_the_end. reflexivity. Defined.

Lemma getSourceLocation_line (this : Parser) (pc : Z) (loc : SourceLocation) :
  getSourceLocation this pc = Some loc ->
  is_Some (pcToInstructionIndex this !! pc)
  /\ exists (k : nat) text,
       split newline (sourceCode this) !! k = Some text
       /\ line loc = Z.of_nat k + 1
       /\ snippet loc = trim text.
Proof.
  unfold getSourceLocation. intros H.
  destruct (String.eqb (sourceMap this) EmptyString
            || String.eqb (sourceCode this) EmptyString); [discriminate |].
  destruct (pcToInstructionIndex this !! pc) as [i |]; [| discriminate].
  split; [eauto |].
  destruct (buildSourceMapCache (sourceMap this) !! i) as [position |].
  - destruct (negb (isZero (fileIndex position))).
    + destruct (searchBackwards _ _ _ _) as [prev |]; [| discriminate].
      inversion H; subst loc.
      destruct (located_line (sourceCode this) (start prev))
        as (k & text & Hk & Hl & Hs & _). eauto.
    + inversion H; subst loc.
      destruct (located_line (sourceCode this) (start position))
        as (k & text & Hk & Hl & Hs & _). eauto.
  - destruct (searchNearby _ _ _ _) as [near |]; [| discriminate].
    inversion H; subst loc.
    destruct (located_line (sourceCode this) (start near))
      as (k & text & Hk & _ & _ & Hl & Hs & _). eauto.
Qed.

(** X13. Every location [getSourceLocation] returns names a line of the
    source, with that line, trimmed, as its snippet; the program
    counter it is asked about starts an instruction of the table. *)
Theorem reported_location_is_a_source_line (this : Parser) (pc : Z)
    (loc : SourceLocation) :
  getSourceLocation this pc = Some loc ->
  is_Some (pcToInstructionIndex this !! pc)
  /\ exists (k : nat) text,
       split newline (sourceCode this) !! k = Some text
       /\ line loc = Z.of_nat k + 1
       /\ snippet loc = trim text.
Proof. apply getSourceLocation_line. Qed.

Lemma reported_location_is_a_source_line_witness :
  is_Some (pcToInstructionIndex Examples.syntheticOnly !! 1)
  /\ exists (k : nat) text,
       split newline (sourceCode Examples.syntheticOnly) !! k = Some text
       /\ 1 = Z.of_nat k + 1
       /\ "contract C {}" = trim text.
Proof.
  apply (reported_location_is_a_source_line Examples.syntheticOnly 1
           {| line := 1; column := Fin 1; snippet := "contract C {}" |}).
  reflexivity.
Defined.

Lemma searchNearby_first cache i turns : forall offset j e,
  (forall k, i + offset <= k < j -> cache !! k = None) ->
  cache !! j = Some e ->
  i + offset <= j < i + offset + Z.of_nat turns ->
  searchNearby cache i offset turns = Some e.
Proof.
  induction turns as [| turns IH]; intros offset j e Hnone Hj Hrange; [lia |].
  cbn [searchNearby].
  destruct (decide (j = i + offset)) as [-> | Hne].
  - now rewrite Hj.
  - rewrite (Hnone (i + offset)) by lia.
    apply (IH (offset + 1) j e); [| exact Hj | lia].
    intros k Hk. apply Hnone. lia.
Qed.

Lemma searchNearby_none cache i turns : forall offset,
  (forall k, i + offset <= k < i + offset + Z.of_nat turns -> cache !! k = None) ->
  searchNearby cache i offset turns = None.
Proof.
  induction turns as [| turns IH]; intros offset Hnone; [reflexivity |].
  cbn [searchNearby]. rewrite (Hnone (i + offset)) by lia.
  apply IH. intros k Hk. apply Hnone. lia.
Qed.

Lemma cache_keys sourceMap q :
  sourceMap <> EmptyString ->
  is_Some (buildSourceMapCache sourceMap !! q)
  <-> 0 <= q < Z.of_nat (length (split ";" sourceMap)).
Proof.
  intros Hne. split.
  - intros [e He].
    destruct (Z.lt_ge_cases q 0) as [Hneg | Hpos].
    { rewrite cache_lookup_outside in He by lia. discriminate. }
    destruct (Z.lt_ge_cases q (Z.of_nat (length (split ";" sourceMap))));
      [lia |].
    rewrite cache_lookup_outside in He by lia. discriminate.
  - intros Hq. replace q with (Z.of_nat (Z.to_nat q)) by lia.
    rewrite cache_lookup by exact Hne.
    destruct (Nat.ltb_spec (Z.to_nat q) (length (split ";" sourceMap)));
      [eauto | lia].
Qed.

(** X14. The neighbour fallback is taken exactly for an instruction past
    the end of the source map.  It then looks at one entry only: the
    one five instructions back (the first one, for an index below 5),
    if the source map reaches that far, and reports its line with
    column 1; an index five or more past the end has no location. *)
Theorem neighbour_fallback_entry (this : Parser) (pc i : Z) :
  sourceMap this <> EmptyString -> sourceCode this <> EmptyString ->
  pcToInstructionIndex this !! pc = Some i -> 0 <= i ->
  let n := Z.of_nat (length (split ";" (sourceMap this))) in
  (buildSourceMapCache (sourceMap this) !! i = None <-> n <= i)
  /\ (n <= i < n + 5 ->
      exists e, buildSourceMapCache (sourceMap this) !! Z.max (i - 5) 0 = Some e
        /\ getSourceLocation this pc
           = Some (locateNearby (sourceCode this) (start e)))
  /\ (n + 5 <= i -> getSourceLocation this pc = None).
Proof.
  intros Hmap Hsrc Hpc Hi n.
  pose proof (cache_keys (sourceMap this)) as Hkeys.
  assert (buildSourceMapCache (sourceMap this) !! i = None <-> n <= i) as Hnone.
  { rewrite eq_None_not_Some, (Hkeys i Hmap). subst n. lia. }
  assert (0 < n) as Hn.
  { subst n. rewrite split_length. lia. }
  assert (forall k, buildSourceMapCache (sourceMap this) !! k = None
                    <-> (k < 0 \/ n <= k)) as Hout.
  { intros k. rewrite eq_None_not_Some, (Hkeys k Hmap). subst n. lia. }
  split; [exact Hnone |].
  assert (getSourceLocation this pc =
          match searchNearby (buildSourceMapCache (sourceMap this)) i (-5) 11 with
          | Some nearbyPos => Some (locateNearby (sourceCode this) (start nearbyPos))
          | None => None
          end \/ i < n) as Hget.
  { destruct (Z.lt_ge_cases i n) as [Hlt | Hge]; [now right | left].
    unfold getSourceLocation.
    destruct (String.eqb_spec (sourceMap this) EmptyString); [congruence |].
    destruct (String.eqb_spec (sourceCode this) EmptyString); [congruence |].
    cbn [orb]. rewrite Hpc. now rewrite (proj2 Hnone) by lia. }
  split.
  - intros Hrange. destruct Hget as [Hget | Hlt]; [| lia].
    destruct (proj2 (Hkeys (Z.max (i - 5) 0) Hmap) ltac:(fold n; lia)) as [e He].
    exists e. split; [exact He |]. rewrite Hget.
    rewrite (searchNearby_first _ i 11 (-5) (Z.max (i - 5) 0) e); [reflexivity | | exact He | lia].
    intros k Hk. apply Hout. lia.
  - intros Hfar. destruct Hget as [Hget | Hlt]; [| lia].
    rewrite Hget, searchNearby_none; [reflexivity |].
    intros k Hk. apply Hout. lia.
Qed.

Lemma neighbour_fallback_entry_witness :
  exists e,
    buildSourceMapCache (sourceMap Examples.syntheticOnly) !! Z.max (1 - 5) 0 = Some e
    /\ getSourceLocation Examples.syntheticOnly 1
       = Some (locateNearby (sourceCode Examples.syntheticOnly) (start e)).
Proof.
  apply (neighbour_fallback_entry Examples.syntheticOnly 1 1);
    first [discriminate | reflexivity | vm_compute; split; congruence].
Defined.

(** X30. A program counter that points into the operand bytes of a PUSH,
    or outside the code, has no location: for a parser loaded with a
    bytecode, [getSourceLocation] answers only at the offsets where
    the instructions of that bytecode start. *)
Theorem operand_pc_has_no_location (source map code : string) (p i q : Z) :
  let this := loaded source map code in
  let text := strip0x (bytecode this) in
  pcToInstructionIndex this !! p = Some i ->
  p < q < p + 1 + operandBytes (opcodeAt text p)
  \/ Z.of_nat (String.length text) <= q * 2 \/ q < 0 ->
  getSourceLocation this q = None.
Proof.
  intros this text Hp Hq.
  assert (pcToInstructionIndex this !! q = None) as Hnone.
  { destruct (pcToInstructionIndex this !! q) as [j |] eqn:Hj; [| reflexivity].
    exfalso. cbn [this loaded pcToInstructionIndex] in Hp, Hj.
    apply DisassemblerMore.table_walk in Hp, Hj.
    change (strip0x (strip0x code)) with text in Hp, Hj.
    destruct Hq as [Hin | [Hpast | Hneg]].
    - pose proof (DisassemblerMore.walkFrom_later _ _ _ _ _ _ _ Hp Hj ltac:(lia)) as H.
      apply DisassemblerProofs.walkFrom_ge in H. lia.
    - apply DisassemblerMore.walkFrom_inside in Hj. lia.
    - apply DisassemblerProofs.walkFrom_ge in Hj. lia. }
  unfold getSourceLocation. rewrite Hnone.
  now destruct (String.eqb (sourceMap this) EmptyString
                || String.eqb (sourceCode this) EmptyString).
Qed.

Lemma operand_pc_has_no_location_witness :
  getSourceLocation (loaded Examples.fooSource "42:15:0:-;;" "600161020300") 3 = None.
Proof.
  apply (operand_pc_has_no_location Examples.fooSource "42:15:0:-;;" "600161020300" 2 1 3).
  - reflexivity.
  - left. vm_compute. split; reflexivity.
Defined.

End LocationMore.

(* ===================================================================== *)
(** ** Further properties of the function contexts and of the scan for
       statements that may revert *)
(* ===================================================================== *)

Module ContextMore.
Import JS StorageLayoutParser.

Lemma findFunctionStart_S (lines : list string) i :
  findFunctionStart lines (S i) =
  match declaredName (default EmptyString (trim <$> lines !! i)) with
  | Some name => Some (name, Z.of_nat i + 1)
  | None => findFunctionStart lines i
  end.
Proof.
  cbn [findFunctionStart]. unfold declaredName.
  destruct (includes _ "function "); [| reflexivity].
  now destruct (matchFunctionName _).
Qed.

Lemma declared_line (lines : list string) (i : nat) name :
  declaredName (default EmptyString (trim <$> lines !! i)) = Some name ->
  exists text, lines !! i = Some text /\ declaredName (trim text) = Some name.
Proof.
  destruct (lines !! i) as [text |]; cbn [fmap option_fmap option_map default from_option id].
  - eauto.
  - intros H. vm_compute in H. discriminate.
Qed.

(** The backward scan stops at the nearest declaration above the line
    it starts from. *)
Lemma findFunctionStart_Some (lines : list string) count : forall name s,
  findFunctionStart lines count = Some (name, s) ->
  exists (k : nat) text,
    (k < count)%nat /\ lines !! k = Some text /\ s = Z.of_nat k + 1
    /\ declaredName (trim text) = Some name
    /\ forall (j : nat) text', (k < j < count)%nat -> lines !! j = Some text' ->
         declaredName (trim text') = None.
Proof.
  induction count as [| i IH]; intros name s H; [discriminate |].
  rewrite findFunctionStart_S in H.
  destruct (declaredName (default EmptyString (trim <$> lines !! i))) as [n |] eqn:Hd.
  - inversion H; subst. destruct (declared_line _ _ _ Hd) as (text & Hi & Hn).
    exists i, text.
    split; [lia |]. split; [exact Hi |]. split; [reflexivity |]. split; [exact Hn |].
    intros j text' Hj. lia.
  - destruct (IH _ _ H) as (k & text & Hk & Hl & Hs & Hn & Hnear).
    exists k, text.
    split; [lia |]. split; [exact Hl |]. split; [exact Hs |]. split; [exact Hn |].
    intros j text' Hj Hl'. destruct (decide (j = i)) as [-> | Hne].
    + rewrite Hl' in Hd. exact Hd.
    + apply (Hnear j); [lia | exact Hl'].
Qed.

Lemma findFunctionStart_None (lines : list string) count :
  findFunctionStart lines count = None <->
  forall (j : nat) text, (j < count)%nat -> lines !! j = Some text ->
    declaredName (trim text) = None.
Proof.
  induction count as [| i IH].
  - split; [intros _ j text Hj; lia | reflexivity].
  - rewrite findFunctionStart_S.
    destruct (declaredName (default EmptyString (trim <$> lines !! i))) as [n |] eqn:Hd.
    + split; [discriminate |]. intros Hall.
      destruct (declared_line _ _ _ Hd) as (text & Hi & Hn).
      rewrite (Hall i text) in Hn by (lia || assumption). discriminate.
    + rewrite IH. split.
      * intros Hall j text Hj Hl. destruct (decide (j = i)) as [-> | Hne].
        -- rewrite Hl in Hd. exact Hd.
        -- apply (Hall j); [lia | exact Hl].
      * intros Hall j text Hj. apply Hall. lia.
Qed.

Lemma scanForward_range lines : forall i d b e,
  scanForward lines i d b = Some e -> i + 1 <= e <= i + Z.of_nat (length lines).
Proof.
  induction lines as [| l rest IH]; intros i d b e H; cbn [scanForward] in H;
    [discriminate |].
  destruct (scanChars l d b) as [d' found]. cbn [length].
  destruct found.
  - inversion H. lia.
  - apply IH in H. lia.
Qed.

(** X15. What a function context holds: the nearest declaration at or
    above the line asked about gives the name and the start line; the
    end line is not before the start and not after the last line; the
    code is the text of the lines from the start to the end. *)
Theorem function_context_shape (this : Parser) (lineNumber : Z)
    (context : FunctionContext) :
  getFunctionContext this lineNumber = Some context ->
  let lines := split newline (sourceCode this) in
  exists (k : nat) text,
    lines !! k = Some text
    /\ declaredName (trim text) = Some (functionName context)
    /\ startLine context = Z.of_nat k + 1
    /\ startLine context <= lineNumber
    /\ (forall (j : nat) text', Z.of_nat k < Z.of_nat j < lineNumber ->
          lines !! j = Some text' -> declaredName (trim text') = None)
    /\ startLine context <= endLine context <= Z.of_nat (length lines)
    /\ revertLine context = lineNumber
    /\ code context
       = join (String newline EmptyString)
              (drop k (take (Z.to_nat (endLine context)) lines)).
Proof.
  intros H lines. unfold getFunctionContext in H.
  destruct (String.eqb (sourceCode this) EmptyString); [discriminate |].
  fold lines in H.
  destruct (findFunctionStart lines (Z.to_nat lineNumber)) as [[name s] |] eqn:Hstart;
    [| discriminate].
  destruct (findFunctionStart_Some _ _ _ _ Hstart)
    as (k & text & Hk & Hl & Hs & Hn & Hnear).
  inversion H; subst context; clear H.
  cbn [functionName startLine endLine revertLine code].
  exists k, text. subst s.
  replace (Z.to_nat (Z.of_nat k + 1 - 1)) with k by lia.
  replace (Z.of_nat k + 1 - 1) with (Z.of_nat k) by lia.
  pose proof (lookup_lt_Some _ _ _ Hl) as Hlen.
  split; [exact Hl |]. split; [exact Hn |]. split; [reflexivity |].
  split; [lia |].
  split; [intros j text' Hj; apply Hnear; lia |].
  split; [| split; reflexivity].
  destruct (scanForward (drop k lines) (Z.of_nat k) 0 false) as [e |] eqn:He;
    cbn [default from_option id].
  - apply scanForward_range in He. rewrite length_drop in He. lia.
  - lia.
Qed.

Lemma function_context_shape_witness :
  exists context,
    getFunctionContext (loaded Examples.fooSource "0:1:0" "00") 3 = Some context
    /\ startLine context <= endLine context
       <= Z.of_nat (length (split newline Examples.fooSource)).
Proof.
  destruct (getFunctionContext (loaded Examples.fooSource "0:1:0" "00") 3)
    as [context |] eqn:H;
    [| vm_compute in H; discriminate H].
  exists context. split; [reflexivity |].
  destruct (function_context_shape _ _ _ H) as (k & text & _ & _ & _ & _ & _ & Hr & _).
  exact Hr.
Defined.

(** X16. [getFunctionContext] answers [null] exactly when the source is
    empty or no line at or above the one asked about declares a
    function. *)
Theorem no_function_context (this : Parser) (lineNumber : Z) :
  getFunctionContext this lineNumber = None <->
  sourceCode this = EmptyString
  \/ forall (j : nat) text, Z.of_nat j < lineNumber ->
       split newline (sourceCode this) !! j = Some text ->
       declaredName (trim text) = None.
Proof.
  unfold getFunctionContext.
  destruct (String.eqb_spec (sourceCode this) EmptyString) as [E | E].
  - split; auto.
  - destruct (findFunctionStart (split newline (sourceCode this)) (Z.to_nat lineNumber))
      as [[name s] |] eqn:Hstart.
    + split; [discriminate |]. intros [Hempty | Hall]; [congruence |].
      assert (findFunctionStart (split newline (sourceCode this)) (Z.to_nat lineNumber)
              = None) as Hnone.
      { apply findFunctionStart_None. intros j text Hj. apply Hall. lia. }
      congruence.
    + split; [| reflexivity]. intros _. right.
      intros j text Hj. apply (proj1 (findFunctionStart_None _ _) Hstart). lia.
Qed.

Lemma nameBefore_S (lines : list string) (k : nat) l :
  lines !! k = Some l ->
  nameBefore lines (S k) =
  if includes (trim l) "function " then
    match matchFunctionName (trim l) with
    | Some name => name
    | None => nameBefore lines k
    end
  else nameBefore lines k.
Proof.
  intros H. unfold nameBefore. cbn [findFunctionStart]. rewrite H.
  cbn [fmap option_fmap option_map default from_option id].
  destruct (includes (trim l) "function "); [| reflexivity].
  now destruct (matchFunctionName (trim l)).
Qed.

Lemma checksOf_elem i t f r :
  r ∈ checksOf i t f <->
  pr_line r = i + 1 /\ pr_snippet r = t /\ pr_functionName r = f
  /\ markOf (pr_type r) t = true.
Proof.
  unfold checksOf. rewrite !elem_of_app. split.
  - intros H.
    repeat match type of H with
           | _ \/ _ => destruct H as [H | H]
           end;
      match type of H with
      | _ ∈ (if ?c then _ else _) =>
          destruct c eqn:E; [| now apply elem_of_nil in H]
      end;
      apply list_elem_of_singleton in H; subst r; repeat split; exact E.
  - destruct r as [ln s fn ty]. cbn [pr_line pr_snippet pr_functionName pr_type].
    intros (-> & -> & -> & Hm). unfold markOf in Hm.
    destruct (String.eqb_spec ty "require") as [E | _].
    { subst ty. left. rewrite Hm. apply list_elem_of_here. }
    destruct (String.eqb_spec ty "revert") as [E | _].
    { subst ty. right; left. rewrite Hm. apply list_elem_of_here. }
    destruct (String.eqb_spec ty "assert") as [E | _].
    { subst ty. right; right; left. rewrite Hm. apply list_elem_of_here. }
    destruct (String.eqb_spec ty "division") as [E | _].
    { subst ty. right; right; right; left. rewrite Hm. apply list_elem_of_here. }
    destruct (String.eqb_spec ty "array_access") as [E | _]; [| discriminate].
    subst ty. right; right; right; right. rewrite Hm. apply list_elem_of_here.
Qed.

(** The loop in closed form: the entries of a line are the tests of
    that line, made with the name of the nearest declaration at or
    above it. *)
Lemma revertLoop_elem (all : list string) r : forall rest (k : nat),
  drop k all = rest ->
  r ∈ revertLoop rest (Z.of_nat k) (nameBefore all k) <->
  exists (j : nat) text,
    (k <= j)%nat /\ all !! j = Some text
    /\ r ∈ checksOf (Z.of_nat j) (trim text) (nameBefore all (S j)).
Proof.
  induction rest as [| l rest IH]; intros k Hdrop.
  - cbn [revertLoop]. rewrite elem_of_nil. split; [tauto |].
    intros (j & text & Hj & Hl & _).
    apply lookup_lt_Some in Hl.
    assert (length (drop k all) = 0%nat) as Hlen by now rewrite Hdrop.
    rewrite length_drop in Hlen. lia.
  - destruct (StorageDiffProofs.drop_cons_inv _ _ _ _ Hdrop) as [Hk Hrest].
    cbn [revertLoop]. rewrite <- (nameBefore_S all k l Hk).
    rewrite elem_of_app.
    replace (Z.of_nat k + 1) with (Z.of_nat (S k)) by lia.
    rewrite (IH (S k) Hrest). split.
    + intros [H | (j & text & Hj & Hl & H)].
      * exists k, l. split; [lia |]. split; [exact Hk | exact H].
      * exists j, text. split; [lia |]. split; [exact Hl | exact H].
    + intros (j & text & Hj & Hl & H).
      destruct (decide (j = k)) as [-> | Hne].
      * left. rewrite Hk in Hl. inversion Hl; subst. exact H.
      * right. exists j, text. split; [lia |]. split; [exact Hl | exact H].
Qed.

Lemma potential_revert_elem (this : Parser) r :
  r ∈ findAllPotentialReverts this <->
  sourceCode this <> EmptyString
  /\ exists (j : nat) text,
       split newline (sourceCode this) !! j = Some text
       /\ r ∈ checksOf (Z.of_nat j) (trim text)
                       (nameBefore (split newline (sourceCode this)) (S j)).
Proof.
  unfold findAllPotentialReverts.
  destruct (String.eqb_spec (sourceCode this) EmptyString) as [E | E].
  - rewrite elem_of_nil. tauto.
  - pose proof (revertLoop_elem (split newline (sourceCode this)) r
                  (split newline (sourceCode this)) 0%nat eq_refl) as Hloop.
    change (Z.of_nat 0) with 0 in Hloop.
    change (nameBefore (split newline (sourceCode this)) 0) with "unknown" in Hloop.
    rewrite Hloop. split.
    + intros (j & text & _ & Hl & H). eauto.
    + intros (_ & j & text & Hl & H). exists j, text. split; [lia | eauto].
Qed.

(** Membership of the entry of a given line and type. *)
Lemma potential_revert_of_line (this : Parser) (j : nat) text type :
  sourceCode this <> EmptyString ->
  split newline (sourceCode this) !! j = Some text ->
  {| pr_line := Z.of_nat j + 1; pr_snippet := trim text;
     pr_functionName := nameBefore (split newline (sourceCode this)) (S j);
     pr_type := type |} ∈ findAllPotentialReverts this
  <-> markOf type (trim text) = true.
Proof.
  intros Hne Hl. rewrite potential_revert_elem. split.
  - intros (_ & j' & text' & Hl' & H).
    apply checksOf_elem in H.
    cbn [pr_line pr_snippet pr_functionName pr_type] in H.
    destruct H as (Hj & Ht & _ & Hm).
    now rewrite Ht.
  - intros Hm. split; [exact Hne |]. exists j, text. split; [exact Hl |].
    apply checksOf_elem. cbn [pr_line pr_snippet pr_functionName pr_type].
    auto.
Qed.

(** X17. The entries of [findAllPotentialReverts] are, for every line
    of the source and every type whose test the trimmed line passes,
    the line number, the trimmed line, the name of the nearest function
    declaration at or above the line, and the type.  A line with
    [require(] is reported as a require, one with [revert(] or [revert ]
    as a revert and one with [assert(] as an assert, also when the
    line is a comment; a line with [ / ] is reported as a division and
    one with a bracketed word as an array access only when it does not
    start with [//].  In the example the comment line is reported for
    its require and not for its division. *)
Theorem potential_reverts_shape (this : Parser) :
  sourceCode this <> EmptyString ->
  let lines := split newline (sourceCode this) in
  let reported (j : nat) (text type : string) :=
    {| pr_line := Z.of_nat j + 1; pr_snippet := trim text;
       pr_functionName := nameBefore lines (S j); pr_type := type |}
      ∈ findAllPotentialReverts this in
  (forall r, r ∈ findAllPotentialReverts this <->
     exists (j : nat) text,
       lines !! j = Some text
       /\ r = {| pr_line := Z.of_nat j + 1; pr_snippet := trim text;
                 pr_functionName := nameBefore lines (S j);
                 pr_type := pr_type r |}
       /\ reported j text (pr_type r))
  /\ (forall r, r ∈ findAllPotentialReverts this ->
        In (pr_type r) ["require"; "revert"; "assert"; "division"; "array_access"])
  /\ (forall (j : nat) text, lines !! j = Some text ->
        (reported j text "require" <-> includes (trim text) "require(" = true)
        /\ (reported j text "revert" <->
              includes (trim text) "revert(" = true
              \/ includes (trim text) "revert " = true)
        /\ (reported j text "assert" <-> includes (trim text) "assert(" = true)
        /\ (reported j text "division" <->
              includes (trim text) " / " = true
              /\ startsWith (trim text) "//" = false)
        /\ (reported j text "array_access" <->
              matchesIndex (trim text) = true
              /\ startsWith (trim text) "//" = false))
  /\ findAllPotentialReverts (loaded Examples.commentedSource "0:1:0" "00")
     = [ {| pr_line := 2; pr_snippet := "// require(b > 0); return a / b;";
            pr_functionName := "f"; pr_type := "require" |};
         {| pr_line := 3; pr_snippet := "return a / b;";
            pr_functionName := "f"; pr_type := "division" |} ].
Proof.
  intros Hne lines reported. subst reported lines.
  split; [| split; [| split]].
  - intros r. split.
    + intros Hr. pose proof Hr as Hin.
      rewrite potential_revert_elem in Hr.
      destruct Hr as (_ & j & text & Hl & H).
      apply checksOf_elem in H. destruct H as (H1 & H2 & H3 & H4).
      exists j, text. split; [exact Hl |].
      assert (r = {| pr_line := Z.of_nat j + 1; pr_snippet := trim text;
                     pr_functionName :=
                       nameBefore (split newline (sourceCode this)) (S j);
                     pr_type := pr_type r |}) as Hr.
      { destruct r as [ln s fn ty].
        cbn [pr_line pr_snippet pr_functionName pr_type] in *. now subst. }
      split; [exact Hr |]. now rewrite <- Hr.
    + intros (j & text & _ & Hr & Hin). now rewrite Hr.
  - intros r Hr. rewrite potential_revert_elem in Hr.
    destruct Hr as (_ & j & text & _ & H).
    apply checksOf_elem in H. destruct H as (_ & _ & _ & Hm).
    unfold markOf in Hm. cbn [In].
    destruct (String.eqb_spec (pr_type r) "require") as [E | _]; [auto |].
    destruct (String.eqb_spec (pr_type r) "revert") as [E | _]; [auto |].
    destruct (String.eqb_spec (pr_type r) "assert") as [E | _]; [auto |].
    destruct (String.eqb_spec (pr_type r) "division") as [E | _]; [auto |].
    destruct (String.eqb_spec (pr_type r) "array_access") as [E | _];
      [auto 6 | discriminate].
  - intros j text Hl.
    rewrite !(potential_revert_of_line this j text _ Hne Hl).
    unfold markOf. cbn [String.eqb Ascii.eqb Bool.eqb andb].
    rewrite orb_true_iff, !andb_true_iff, !negb_true_iff. tauto.
  - reflexivity.
Qed.

Lemma potential_reverts_shape_witness :
  includes (trim "  // require(b > 0); return a / b;") "require(" = true
  /\ {| pr_line := 2; pr_snippet := "// require(b > 0); return a / b;";
        pr_functionName := "f"; pr_type := "require" |}
       ∈ findAllPotentialReverts (loaded Examples.commentedSource "0:1:0" "00").
Proof.
  split; [reflexivity |].
  destruct (potential_reverts_shape
              (loaded Examples.commentedSource "0:1:0" "00") ltac:(discriminate))
    as (_ & _ & H & _).
  destruct (H 1%nat "  // require(b > 0); return a / b;" eq_refl)
    as ((_ & Hrequire) & _).
  exact (Hrequire eq_refl).
Defined.

(** X18. The function name of an entry is the one [getFunctionContext]
    gives for the line of the entry, and [unknown] when it gives no
    context. *)
Theorem revert_function_names_agree (this : Parser) (r : PotentialRevert) :
  r ∈ findAllPotentialReverts this ->
  match getFunctionContext this (pr_line r) with
  | Some context =>
      functionName context = pr_functionName r
      /\ startLine context <= pr_line r
      /\ revertLine context = pr_line r
  | None => pr_functionName r = "unknown"
  end.
Proof.
  rewrite potential_revert_elem. intros (Hsrc & j & text & Hl & H).
  apply checksOf_elem in H. destruct H as (H1 & _ & H3 & _).
  unfold getFunctionContext.
  destruct (String.eqb_spec (sourceCode this) EmptyString) as [E | _]; [congruence |].
  rewrite H1. replace (Z.to_nat (Z.of_nat j + 1)) with (S j) by lia.
  unfold nameBefore in H3.
  destruct (findFunctionStart (split newline (sourceCode this)) (S j))
    as [[name s] |] eqn:Hstart.
  - cbn [functionName startLine revertLine].
    destruct (findFunctionStart_Some _ _ _ _ Hstart) as (k & _ & Hk & _ & Hs & _).
    split; [now symmetry |]. split; [lia | reflexivity].
  - exact H3.
Qed.

Lemma revert_function_names_agree_witness :
  match getFunctionContext (loaded Examples.fooSource "0:1:0" "00") 3 with
  | Some context =>
      functionName context = "foo" /\ startLine context <= 3
      /\ revertLine context = 3
  | None => "foo" = "unknown"
  end.
Proof.
  apply (revert_function_names_agree (loaded Examples.fooSource "0:1:0" "00")
           {| pr_line := 3; pr_snippet := "require(x > 0);";
              pr_functionName := "foo"; pr_type := "require" |}).
  vm_compute. apply list_elem_of_here.
Defined.

Lemma filter_checksOf i t f :
  List.filter (fun r => String.eqb (pr_type r) "require") (checksOf i t f) =
  if includes t "require("
  then [{| pr_line := i + 1; pr_snippet := t; pr_functionName := f;
           pr_type := "require" |}]
  else [].
Proof.
  unfold checksOf.
  destruct (includes t "require("),
           (includes t "revert(" || includes t "revert "),
           (includes t "assert("),
           (includes t " / " && negb (startsWith t "//")),
           (matchesIndex t && negb (startsWith t "//")); reflexivity.
Qed.

Lemma require_lines_sorted rest : forall i cur,
  let lines :=
    pr_line <$> List.filter (fun r => String.eqb (pr_type r) "require")
                            (revertLoop rest i cur) in
  StronglySorted Z.lt lines /\ Forall (fun x => i < x) lines.
Proof.
  induction rest as [| l rest IH]; intros i cur; cbn zeta.
  - cbn. split; constructor.
  - cbn [revertLoop]. rewrite List.filter_app, filter_checksOf, fmap_app.
    match goal with
    | |- context [revertLoop rest (i + 1) ?c] => destruct (IH (i + 1) c) as [Hs Hf]
    end.
    assert (forall xs : list Z, Forall (fun x => i + 1 < x) xs ->
                                Forall (fun x => i < x) xs) as Hweak.
    { intros xs Hxs. eapply Forall_impl; [exact Hxs |]. intros x Hx. cbn in Hx. lia. }
    destruct (includes (trim l) "require(").
    + cbn [fmap list_fmap app pr_line]. split.
      * constructor; [exact Hs | exact Hf].
      * constructor; [lia | now apply Hweak].
    + cbn [fmap list_fmap app]. split; [exact Hs | now apply Hweak].
Qed.

Lemma findAllRequires_elem (this : Parser) (r : RequireStatement) :
  r ∈ findAllRequires this <->
  exists (j : nat) text,
    split newline (sourceCode this) !! j = Some text
    /\ includes (trim text) "require(" = true
    /\ r = {| rq_line := Z.of_nat j + 1; rq_snippet := trim text;
              rq_functionName
                := nameBefore (split newline (sourceCode this)) (S j) |}.
Proof.
  unfold findAllRequires. rewrite list_elem_of_fmap. split.
  - intros (p & -> & Hp). apply list_elem_of_In, List.filter_In in Hp.
    destruct Hp as [Hp Hty]. apply list_elem_of_In in Hp.
    apply String.eqb_eq in Hty.
    apply potential_revert_elem in Hp. destruct Hp as (_ & j & text & Hl & H).
    apply checksOf_elem in H. destruct H as (H1 & H2 & H3 & H4).
    rewrite Hty in H4. exists j, text. split; [exact Hl |].
    split; [exact H4 |]. now rewrite H1, H2, H3.
  - intros (j & text & Hl & Hinc & ->).
    exists {| pr_line := Z.of_nat j + 1; pr_snippet := trim text;
              pr_functionName := nameBefore (split newline (sourceCode this)) (S j);
              pr_type := "require" |}.
    split; [reflexivity |].
    apply list_elem_of_In, List.filter_In. split; [| reflexivity].
    apply list_elem_of_In, potential_revert_elem. split.
    + intros E. rewrite E in Hl. destruct j as [| j]; [| discriminate].
      inversion Hl; subst text. discriminate.
    + exists j, text. split; [exact Hl |]. apply checksOf_elem.
      repeat split. exact Hinc.
Qed.

(** X19. [findAllRequires] returns the lines that hold [require(], once
    each and in the order of the source: an entry is in the result
    exactly when its line is one, its snippet is the line, trimmed,
    and its function name is that of the nearest declaration at or
    above the line. *)
Theorem requires_are_the_require_lines (this : Parser) :
  (forall r, r ∈ findAllRequires this <->
     exists (j : nat) text,
       split newline (sourceCode this) !! j = Some text
       /\ includes (trim text) "require(" = true
       /\ r = {| rq_line := Z.of_nat j + 1; rq_snippet := trim text;
                 rq_functionName
                   := nameBefore (split newline (sourceCode this)) (S j) |})
  /\ StronglySorted Z.lt (rq_line <$> findAllRequires this).
Proof.
  split; [apply findAllRequires_elem |].
  unfold findAllRequires, findAllPotentialReverts.
  rewrite <- list_fmap_compose.
  destruct (String.eqb (sourceCode this) EmptyString); [constructor |].
  apply (require_lines_sorted _ 0 "unknown").
Qed.

Lemma no_function_context_witness :
  getFunctionContext Examples.syntheticOnly 1 = None.
Proof.
  apply no_function_context. right. intros j text Hj Hl.
  destruct j as [| j]; [| lia]. vm_compute in Hl. inversion Hl. reflexivity.
Defined.

Lemma requires_are_the_require_lines_witness :
  {| rq_line := 3; rq_snippet := "require(x > 0);"; rq_functionName := "foo" |}
  ∈ findAllRequires Examples.fooParser.
Proof.
  apply (proj1 (requires_are_the_require_lines Examples.fooParser)).
  exists 2%nat, "  require(x > 0);". repeat split.
Defined.

End ContextMore.

(* ===================================================================== *)
(** ** Properties of the revert location of a session *)
(* ===================================================================== *)

Module DebugMore.
Import JS TransactionExecutor StorageLayoutParser DebugService.

Lemma findIndex_Some {A : Type} (f : A -> bool) (l : list A) : forall i k,
  findIndex f l i = Some k ->
  exists (j : nat) x, k = (i + j)%nat /\ l !! j = Some x /\ f x = true
    /\ forall (j' : nat) y, (j' < j)%nat -> l !! j' = Some y -> f y = false.
Proof.
  induction l as [| x rest IH]; intros i k H; cbn [findIndex] in H; [discriminate |].
  destruct (f x) eqn:Hx.
  - inversion H; subst. exists 0%nat, x. split; [lia |]. split; [reflexivity |].
    split; [exact Hx |]. intros j' y Hj. lia.
  - destruct (IH _ _ H) as (j & y & Hk & Hj & Hy & Hfirst).
    exists (S j), y. split; [lia |]. split; [exact Hj |]. split; [exact Hy |].
    intros [| j'] z Hlt Hz.
    + inversion Hz; subst. exact Hx.
    + apply (Hfirst j'); [lia | exact Hz].
Qed.

Lemma located_line_positive (parser : Parser) (q : Z) (loc : SourceLocation) :
  getSourceLocation parser q = Some loc -> (0 <? line loc) = true.
Proof.
  intros H. destruct (LocationMore.getSourceLocation_line _ _ _ H)
    as (_ & k & text & _ & Hl & _).
  apply Z.ltb_lt. lia.
Qed.

(** X20. The trigger is the program counter of the nearest step before the
    revert whose program counter has a location, whatever its line:
    the test [tempLoc.line > 0] never fails.  Without such a step it
    is the program counter of the revert. *)
Theorem trigger_is_nearest_located_step (parser : Parser)
    (traces : list ExecutionTrace) (count : nat) (revertPC : Z) :
  ((forall (i : nat) t, (i < count)%nat -> traces !! i = Some t ->
      getSourceLocation parser (pc t) = None) ->
   findTrigger parser traces count revertPC = revertPC)
  /\ (forall (i : nat) t,
        (i < count)%nat -> traces !! i = Some t ->
        is_Some (getSourceLocation parser (pc t)) ->
        (forall (j : nat) t', (i < j < count)%nat -> traces !! j = Some t' ->
           getSourceLocation parser (pc t') = None) ->
        findTrigger parser traces count revertPC = pc t).
Proof.
  induction count as [| n IH]; (split; [intros Hnone | intros i t Hi Ht Hloc Hlater]).
  - reflexivity.
  - lia.
  - cbn [findTrigger]. destruct (traces !! n) as [t |] eqn:Hn.
    + rewrite (Hnone n t) by (lia || assumption).
      apply IH. intros i t' Hi. apply Hnone. lia.
    + apply IH. intros i t' Hi. apply Hnone. lia.
  - cbn [findTrigger]. destruct (decide (i = n)) as [-> | Hne].
    + rewrite Ht. destruct Hloc as [loc Hloc]. rewrite Hloc.
      now rewrite (located_line_positive _ _ _ Hloc).
    + assert (findTrigger parser traces n revertPC = pc t) as Hrec.
      { apply (proj2 IH i t); [lia | exact Ht | exact Hloc |].
        intros j t' Hj. apply Hlater. lia. }
      destruct (traces !! n) as [t' |] eqn:Hn; [| exact Hrec].
      rewrite (Hlater n t') by (lia || assumption). exact Hrec.
Qed.

Lemma firstRequire_Some (parser : Parser) (rl : RevertLocation) :
  firstRequire parser = Some rl ->
  rl_column rl = Fin 1
  /\ rl_functionContext rl = getFunctionContext parser (rl_line rl)
  /\ exists (k : nat) text,
       split newline (sourceCode parser) !! k = Some text
       /\ includes (trim text) "require(" = true
       /\ rl_line rl = Z.of_nat k + 1
       /\ rl_snippet rl = trim text.
Proof.
  unfold firstRequire. destruct (findAllRequires parser) as [| req rest] eqn:Hreq;
    [discriminate |].
  intros H. inversion H; subst rl; clear H.
  cbn [rl_line rl_column rl_snippet rl_functionContext].
  split; [reflexivity |]. split; [reflexivity |].
  assert (req ∈ findAllRequires parser) as Hin by (rewrite Hreq; apply list_elem_of_here).
  apply ContextMore.findAllRequires_elem in Hin.
  destruct Hin as (j & text & Hl & Hinc & ->). exists j, text. auto.
Qed.

(** X21. A revert location is only reported for a failed transaction with
    a parser and a REVERT or INVALID step.  It names an existing line
    of the source with that line, trimmed, as snippet, and carries the
    function context of that line.  It is either a location of the
    source map on a line after the first, or the first line of the
    source that holds [require(], with column 1: a location on line 1
    is never taken from the source map. *)
Theorem revert_location_origin (success : bool) (parser : option Parser)
    (traces : list ExecutionTrace) (rl : RevertLocation) :
  revertLocation success parser traces = Some rl ->
  success = false
  /\ exists p,
       parser = Some p
       /\ (exists t, t ∈ traces /\ isRevertStep t = true)
       /\ (exists (k : nat) text,
             split newline (sourceCode p) !! k = Some text
             /\ rl_line rl = Z.of_nat k + 1
             /\ rl_snippet rl = trim text)
       /\ rl_functionContext rl = getFunctionContext p (rl_line rl)
       /\ ((1 < rl_line rl
            /\ exists q, getSourceLocation p q
                         = Some {| line := rl_line rl; column := rl_column rl;
                                   snippet := rl_snippet rl |})
           \/ (firstRequire p = Some rl /\ rl_column rl = Fin 1)).
Proof.
  unfold revertLocation. intros H.
  destruct success; [discriminate |]. split; [reflexivity |].
  destruct parser as [p |]; [| discriminate]. exists p. split; [reflexivity |].
  destruct (findIndex isRevertStep traces 0) as [revertIndex |] eqn:Hidx;
    [| discriminate].
  destruct (findIndex_Some _ _ _ _ Hidx) as (j & t & _ & Hj & Ht & _).
  split; [exists t; split; [exact (list_elem_of_lookup_2 _ _ _ Hj) | exact Ht] |].
  destruct (traces !! revertIndex) as [revertTrace |]; [| discriminate].
  assert (firstRequire p = Some rl ->
          (exists (k : nat) text,
             split newline (sourceCode p) !! k = Some text
             /\ rl_line rl = Z.of_nat k + 1 /\ rl_snippet rl = trim text)
          /\ rl_functionContext rl = getFunctionContext p (rl_line rl)
          /\ ((1 < rl_line rl
               /\ exists q, getSourceLocation p q
                            = Some {| line := rl_line rl; column := rl_column rl;
                                      snippet := rl_snippet rl |})
              \/ (firstRequire p = Some rl /\ rl_column rl = Fin 1))) as Hfallback.
  { intros Hreq. destruct (firstRequire_Some _ _ Hreq)
      as (Hcol & Hctx & k & text & Hl & _ & Hline & Hsnip).
    split; [exists k, text; auto |]. split; [exact Hctx |]. right. auto. }
  destruct (getSourceLocation p (findTrigger p traces revertIndex (pc revertTrace)))
    as [loc |] eqn:Hloc; [| exact (Hfallback H)].
  destruct (Z.ltb_spec 1 (line loc)) as [Hlt | Hle]; [| exact (Hfallback H)].
  inversion H; subst rl; clear H.
  cbn [rl_line rl_column rl_snippet rl_functionContext].
  destruct (LocationMore.getSourceLocation_line _ _ _ Hloc) as (_ & k & text & Hl & Hline & Hsnip).
  split; [exists k, text; auto |]. split; [reflexivity |]. left.
  split; [exact Hlt |]. exists (findTrigger p traces revertIndex (pc revertTrace)).
  rewrite Hloc. now destruct loc.
Qed.

Lemma trigger_is_nearest_located_step_witness :
  findTrigger Examples.fooParser
    (parseTrace (Examples.traceOf Examples.revertedCall)) 1 1 = 0.
Proof.
  destruct (parseTrace (Examples.traceOf Examples.revertedCall) !! 0%nat)
    as [t |] eqn:Ht; [| vm_compute in Ht; discriminate Ht].
  assert (pc t = 0) as Hpc by (vm_compute in Ht; now inversion Ht).
  rewrite <- Hpc.
  apply (proj2 (trigger_is_nearest_located_step Examples.fooParser
                  (parseTrace (Examples.traceOf Examples.revertedCall)) 1 1) 0%nat t).
  - lia.
  - exact Ht.
  - rewrite Hpc. vm_compute. eauto.
  - intros j t' Hj. lia.
Defined.

Lemma revert_location_origin_witness :
  exists rl,
    revertLocation false (Some Examples.fooParser)
      (parseTrace (Examples.traceOf Examples.revertedCall)) = Some rl
    /\ rl_functionContext rl = getFunctionContext Examples.fooParser (rl_line rl).
Proof.
  destruct (revertLocation false (Some Examples.fooParser)
              (parseTrace (Examples.traceOf Examples.revertedCall)))
    as [rl |] eqn:H; [| vm_compute in H; discriminate H].
  exists rl. split; [reflexivity |].
  destruct (revert_location_origin _ _ _ _ H) as (_ & p & Hp & _ & _ & Hctx & _).
  inversion Hp; subst p. exact Hctx.
Defined.

End DebugMore.

(* ===================================================================== *)
(** ** Properties of the decoding of storage values *)
(* ===================================================================== *)

Module DecodingMore.
Import JS TransactionExecutor StorageLayoutParser PDFGenerator.

Lemma tryDecodeString_number hexValue d :
  tryDecodeString hexValue = Some d -> isString d = false ->
  exists b, BigInt hexValue = Some b /\ decodedValue d = bigIntToString b.
Proof.
  unfold tryDecodeString. intros H Hs.
  destruct (shortString _); [inversion H; subst d; discriminate |].
  destruct (BigInt hexValue) as [b |]; [| discriminate].
  exists b. split; [reflexivity |].
  destruct (Z.eqb_spec b 0) as [E | _]; inversion H; [now rewrite E | reflexivity].
Qed.

Lemma tryDecodeString_total hexValue b :
  BigInt hexValue = Some b -> is_Some (tryDecodeString hexValue).
Proof.
  unfold tryDecodeString. intros Hb. rewrite Hb.
  destruct (shortString _); [eauto |]. destruct (b =? 0); eauto.
Qed.

(** X22. The report does not fail on a change the executor produced, and
    prints a value that is no short string as the decimal text the
    executor computed for it: when neither value is a short string the
    two texts are the decimal fields, and the text a decoding gives
    for a number is the decimal field itself. *)
Theorem report_texts_of_executor_changes (traces : list ExecutionTrace)
    (changes : list StorageChange) (c : StorageChange) :
  extractStorageChanges traces = Some changes -> c ∈ changes ->
  exists oldDecoded newDecoded texts,
    tryDecodeString (oldValue c) = Some oldDecoded
    /\ tryDecodeString (newValue c) = Some newDecoded
    /\ valueTexts c = Some texts
    /\ (isString oldDecoded = false -> decodedValue oldDecoded = oldValueDecimal c)
    /\ (isString newDecoded = false -> decodedValue newDecoded = newValueDecimal c)
    /\ (isString oldDecoded = false -> isString newDecoded = false ->
        texts = (oldValueDecimal c, newValueDecimal c)).
Proof.
  intros Hex Hc.
  destruct (StorageDiffProofs.extract_elem _ _ _ Hex Hc) as (t & w & _ & _ & Hchange).
  destruct (ExecutorMore.toStorageChange_numbers _ _ _ _ Hchange)
    as (_ & (old & Hold & Holdtext) & (new & Hnew & Hnewtext)).
  destruct (tryDecodeString_total _ _ Hold) as [od Hod].
  destruct (tryDecodeString_total _ _ Hnew) as [nd Hnd].
  assert (isString od = false -> decodedValue od = oldValueDecimal c) as Ho.
  { intros Hs. destruct (tryDecodeString_number _ _ Hod Hs) as (b & Hb & ->).
    congruence. }
  assert (isString nd = false -> decodedValue nd = newValueDecimal c) as Hn.
  { intros Hs. destruct (tryDecodeString_number _ _ Hnd Hs) as (b & Hb & ->).
    congruence. }
  unfold valueTexts. rewrite Hod, Hnd. cbn [mbind option_bind].
  exists od, nd,
    (if isString od || isString nd then
       (if isString od then decodedValue od
        else if String.eqb (oldValueDecimal c) "0" then quote +:+ quote
             else decodedValue od,
        if isString nd then decodedValue nd
        else if String.eqb (newValueDecimal c) "0" then quote +:+ quote
             else decodedValue nd)
     else (oldValueDecimal c, newValueDecimal c)).
  split; [reflexivity |]. split; [reflexivity |].
  split; [now destruct (isString od || isString nd) |].
  split; [exact Ho |]. split; [exact Hn |].
  intros -> ->. reflexivity.
Qed.

Lemma report_texts_of_executor_changes_witness :
  exists c texts,
    extractStorageChanges (parseTrace (Examples.traceOf Examples.storeOnly))
      ≫= head = Some c
    /\ valueTexts c = Some texts.
Proof.
  destruct (extractStorageChanges (parseTrace (Examples.traceOf Examples.storeOnly)))
    as [changes |] eqn:Hex; [| vm_compute in Hex; discriminate Hex].
  destruct changes as [| c rest]; [vm_compute in Hex; discriminate Hex |].
  destruct (report_texts_of_executor_changes _ (c :: rest) c Hex)
    as (od & nd & texts & _ & _ & Htexts & _); [apply list_elem_of_here |].
  exists c, texts. split; [reflexivity | exact Htexts].
Defined.

Lemma substring_skip pre : forall x n,
  substring (String.length pre) n (pre +:+ x) = substring 0 n x.
Proof. induction pre as [| c pre IH]; intros x n; [reflexivity | apply IH]. Qed.

Lemma substring_prefix a : forall b,
  substring 0 (String.length a) (a +:+ b) = a.
Proof.
  induction a as [| c a IH]; intros b.
  - now destruct b.
  - change (String c (substring 0 (String.length a) (a +:+ b)) = String c a).
    f_equal. apply IH.
Qed.

Lemma append_cons x (a b : string) : String x a +:+ b = String x (a +:+ b).
Proof. reflexivity. Qed.

Lemma append_assoc (a b c : string) : (a +:+ b) +:+ c = a +:+ (b +:+ c).
Proof.
  induction a as [| x a IH]; [reflexivity |].
  now rewrite !append_cons, IH.
Qed.

Lemma append_empty (a : string) : a +:+ EmptyString = a.
Proof.
  induction a as [| x a IH]; [reflexivity |].
  now rewrite append_cons, IH.
Qed.

Lemma length_toHex s : String.length (toHex s) = (2 * String.length s)%nat.
Proof.
  induction s as [| c s IH]; [reflexivity |].
  cbn [toHex String.length]. rewrite IH. lia.
Qed.

Lemma toHex_cons c s :
  toHex (String c s) = toHex (String c EmptyString) +:+ toHex s.
Proof. reflexivity. Qed.

Lemma parse_toHex c :
  parseInt (toHex (String c EmptyString)) 16 = Fin (Z.of_N (N_of_ascii c)).
Proof. ascii_cases c; vm_compute; reflexivity. Qed.

Lemma fromCharCode_byte c : fromCharCode (Fin (Z.of_N (N_of_ascii c))) = c.
Proof. ascii_cases c; vm_compute; reflexivity. Qed.

Lemma length_toHex_one c : String.length (toHex (String c EmptyString)) = 2%nat.
Proof. reflexivity. Qed.

Lemma slice_pair c s :
  substring 0 2 (toHex (String c s)) = toHex (String c EmptyString).
Proof. cbn [toHex substring]. now destruct (toHex s). Qed.

(** The loop of [decodeValue] reads the bytes back from their
    hexadecimal digits. *)
Lemma hexToChars_toHex s : forall pre turns,
  (String.length s <= turns)%nat ->
  hexToChars (pre +:+ toHex s) (String.length pre) turns = s.
Proof.
  induction s as [| c s IH]; intros pre turns Hle.
  - destruct turns as [| turns]; [reflexivity |].
    cbn [hexToChars toHex]. rewrite append_empty.
    now rewrite Nat.ltb_irrefl.
  - destruct turns as [| turns]; [cbn in Hle; lia |].
    cbn [hexToChars].
    destruct (Nat.ltb_spec (String.length pre)
                (String.length (pre +:+ toHex (String c s)))) as [_ | Hge].
    2: { rewrite ExecutorMore.length_append, length_toHex in Hge.
         cbn [String.length] in Hge. lia. }
    unfold slice.
    replace (String.length pre + 2 - String.length pre)%nat with 2%nat by lia.
    rewrite substring_skip.
    rewrite slice_pair, parse_toHex, fromCharCode_byte. f_equal.
    rewrite toHex_cons, <- append_assoc.
    replace (String.length pre + 2)%nat
      with (String.length (pre +:+ toHex (String c EmptyString)))
      by (rewrite ExecutorMore.length_append; reflexivity).
    apply IH. cbn [String.length] in Hle. lia.
Qed.

Lemma decodeValue_string hexValue type :
  includes type "string" = true ->
  decodeValue hexValue type =
  let hex := digitsOf hexValue in
  if String.eqb hex (repeat "0" 64) then StorageLayoutParser.quote +:+ StorageLayoutParser.quote
  else
    match parseInt (slice hex 62 64) 16 with
    | Fin z =>
        if isEven (Fin z) && (0 <? z / 2) && (z / 2 <=? 31) then
          let stringHex := slice hex 0 (Z.to_nat (z / 2 * 2)) in
          StorageLayoutParser.quote +:+ hexToChars stringHex 0 (String.length stringHex)
            +:+ StorageLayoutParser.quote
        else "string (long)"
    | _ => "string (long)"
    end.
Proof.
  intros H. unfold decodeValue. rewrite H. cbn zeta. fold (digitsOf hexValue).
  destruct (String.eqb (digitsOf hexValue) (repeat "0" 64)); [reflexivity |].
  now destruct (parseInt (slice (digitsOf hexValue) 62 64) 16).
Qed.

Lemma length_word s :
  (String.length s <= 31)%nat ->
  String.length (toHex s +:+ repeat "0" (62 - 2 * String.length s)) = 62%nat.
Proof.
  intros H. rewrite ExecutorMore.length_append, length_toHex, ExecutorMore.length_repeat.
  lia.
Qed.

Lemma word_last_byte s :
  (String.length s <= 31)%nat ->
  parseInt (slice (shortStringWord s) 62 64) 16
  = Fin (Z.of_nat (2 * String.length s)).
Proof.
  intros H. unfold shortStringWord, slice. rewrite <- append_assoc.
  rewrite <- (length_word s H) at 1. rewrite substring_skip.
  change (64 - 62)%nat with 2%nat.
  change (substring 0 2 (toHex (String ?c EmptyString)))
    with (toHex (String c EmptyString)).
  rewrite parse_toHex. f_equal.
  rewrite <- (nat_ascii_embedding (2 * String.length s)) at 2 by lia.
  unfold nat_of_ascii. now rewrite N_nat_Z.
Qed.

Lemma word_bytes s :
  slice (shortStringWord s) 0 (2 * String.length s) = toHex s.
Proof.
  unfold shortStringWord, slice. rewrite Nat.sub_0_r, <- length_toHex.
  apply substring_prefix.
Qed.

Lemma toHex_no_prefix c r :
  startsWith (toHex (String c EmptyString) +:+ r) "0x" = false.
Proof. ascii_cases c; reflexivity. Qed.

Lemma digitsOf_word s :
  (1 <= String.length s)%nat ->
  digitsOf (shortStringWord s) = shortStringWord s.
Proof.
  intros H. destruct s as [| c s]; [cbn in H; lia |].
  unfold digitsOf, shortStringWord. rewrite toHex_cons, append_assoc.
  now rewrite toHex_no_prefix.
Qed.

(** X23. Round trip of a short string through its storage word: for a
    text of 1 to 31 bytes, [decodeValue] gives the text back between
    quotes for every type that names a string, with or without the
    [0x] prefix. *)
Theorem decodeValue_short_string (s type : string) :
  (1 <= String.length s <= 31)%nat -> includes type "string" = true ->
  decodeValue ("0x" +:+ shortStringWord s) type
  = StorageLayoutParser.quote +:+ s +:+ StorageLayoutParser.quote
  /\ decodeValue (shortStringWord s) type
     = StorageLayoutParser.quote +:+ s +:+ StorageLayoutParser.quote.
Proof.
  intros Hlen Htype.
  assert (forall hexValue, digitsOf hexValue = shortStringWord s ->
            decodeValue hexValue type
            = StorageLayoutParser.quote +:+ s +:+ StorageLayoutParser.quote) as Hboth.
  { intros hexValue Hhex. rewrite (decodeValue_string _ _ Htype). cbn zeta.
    rewrite Hhex.
    pose proof (word_last_byte s ltac:(lia)) as Hlast.
    destruct (String.eqb_spec (shortStringWord s) (repeat "0" 64)) as [E | _].
    { rewrite E in Hlast.
      change (parseInt (slice (repeat "0" 64) 62 64) 16) with (Fin 0) in Hlast.
      inversion Hlast. lia. }
    rewrite Hlast.
    replace (Z.of_nat (2 * String.length s) / 2) with (Z.of_nat (String.length s))
      by (rewrite Nat2Z.inj_mul, Z.mul_comm, Z.div_mul; lia).
    replace (isEven (Fin (Z.of_nat (2 * String.length s)))) with true.
    2: { cbn [isEven]. symmetry. apply Z.eqb_eq.
         rewrite Nat2Z.inj_mul, Z.mul_comm. apply Z.rem_mul. lia. }
    destruct (Z.ltb_spec 0 (Z.of_nat (String.length s))); [| lia].
    destruct (Z.leb_spec (Z.of_nat (String.length s)) 31); [| lia].
    cbn [andb].
    replace (Z.to_nat (Z.of_nat (String.length s) * 2))
      with (2 * String.length s)%nat by lia.
    rewrite word_bytes.
    now rewrite (hexToChars_toHex s EmptyString) by (rewrite length_toHex; lia). }
  split; apply Hboth; [reflexivity | apply digitsOf_word; lia].
Qed.

Lemma decodeValue_short_string_witness :
  decodeValue ("0x" +:+ shortStringWord "hi") "t_string_storage"
  = StorageLayoutParser.quote +:+ "hi" +:+ StorageLayoutParser.quote
  /\ decodeValue (shortStringWord "hi") "t_string_storage"
     = StorageLayoutParser.quote +:+ "hi" +:+ StorageLayoutParser.quote.
Proof. apply decodeValue_short_string; [cbn; lia | reflexivity]. Defined.

Lemma pair_parse a b x y :
  digitValue a = Some x -> digitValue b = Some y ->
  (x <? 16) = true -> (y <? 16) = true ->
  parseInt (String a (String b EmptyString)) 16 = Fin (x * 16 + y).
Proof.
  intros Ha Hb Hx Hy.
  ascii_cases a; vm_compute in Ha; try discriminate Ha;
    inversion Ha; subst x; vm_compute in Hx; try discriminate Hx; clear Ha Hx;
    ascii_cases b; vm_compute in Hb; try discriminate Hb;
    inversion Hb; subst y; vm_compute in Hy; try discriminate Hy;
    reflexivity.
Qed.

Lemma digitValue_range c d : digitValue c = Some d -> 0 <= d < 36.
Proof.
  unfold digitValue. intros H.
  repeat match type of H with
         | (if ?b then _ else _) = _ => destruct b eqn:?
         end; inversion H; subst; lia.
Qed.

Lemma substring_two a b r :
  substring 0 2 (String a (String b r)) = String a (String b EmptyString).
Proof. cbn [substring]. now destruct r. Qed.

Lemma not_printable_high n s :
  (128 <= n < 256)%N -> isPrintable (String (ascii_of_N n) s) = false.
Proof.
  intros Hn. cbn [isPrintable]. rewrite N_ascii_embedding by lia.
  destruct (N.leb_spec n 126); [lia |]. now rewrite andb_false_r.
Qed.

Lemma codePoint_above c k mask next res :
  Abi.codePoint c k mask next = Some res -> mask < res.
Proof.
  unfold Abi.codePoint.
  destruct (foldl _ _ next) as [r |]; [| discriminate].
  destruct (0x10ffff <? r); [discriminate |].
  destruct ((0xd800 <=? r) && (r <=? 0xdfff)); [discriminate |].
  destruct (Z.leb_spec r mask) as [| Hlt]; [discriminate |].
  intros Hsome. inversion Hsome; subst. exact Hlt.
Qed.

(** The code points of a byte sequence start with its first byte,
    when that byte is below 128, and with a code point above 127
    otherwise. *)
Lemma codePoints_cons c rest cps0 :
  Abi.codePoints (c :: rest) = Some cps0 ->
  (Z.shiftr c 7 = 0 /\ exists cps, cps0 = c :: cps /\ Abi.codePoints rest = Some cps)
  \/ (exists res cps, cps0 = res :: cps /\ 127 < res).
Proof.
  cbn [Abi.codePoints]. destruct (Z.eqb_spec (Z.shiftr c 7) 0) as [Hlow | _].
  - destruct (Abi.codePoints rest) as [cps |]; [| discriminate].
    intros Hsome. inversion Hsome. left. eauto.
  - intros H. right.
    destruct (Z.land c 0xe0 =? 0xc0).
    { destruct rest as [| c1 rest1]; [discriminate |].
      destruct (Abi.codePoint c 1 0x7f [c1]) as [res |] eqn:Hres; [| discriminate].
      destruct (Abi.codePoints rest1) as [cps |]; [| discriminate].
      inversion H. apply codePoint_above in Hres. exists res, cps. split; [reflexivity | lia]. }
    destruct (Z.land c 0xf0 =? 0xe0).
    { destruct rest as [| c1 [| c2 rest2]]; try discriminate.
      destruct (Abi.codePoint c 2 0x7ff [c1; c2]) as [res |] eqn:Hres; [| discriminate].
      destruct (Abi.codePoints rest2) as [cps |]; [| discriminate].
      inversion H. apply codePoint_above in Hres. exists res, cps. split; [reflexivity | lia]. }
    destruct (Z.land c 0xf8 =? 0xf0); [| discriminate].
    destruct rest as [| c1 [| c2 [| c3 rest3]]]; try discriminate.
    destruct (Abi.codePoint c 3 0xffff [c1; c2; c3]) as [res |] eqn:Hres; [| discriminate].
    destruct (Abi.codePoints rest3) as [cps |]; [| discriminate].
    inversion H. apply codePoint_above in Hres. exists res, cps. split; [reflexivity | lia].
Qed.

Lemma toUtf8String_Text bs d :
  Abi.toUtf8String bs = Abi.Text d <->
  exists cps, Abi.codePoints bs = Some cps /\ Abi.narrow cps = Some d.
Proof.
  unfold Abi.toUtf8String. split.
  - destruct (Abi.codePoints bs) as [cps |]; [| discriminate].
    destruct (Abi.narrow cps) as [s |] eqn:Hs; [| discriminate].
    intros H. inversion H; subst. eauto.
  - intros (cps & -> & ->). reflexivity.
Qed.

(** Printable text comes from bytes below 128, one character per
    byte. *)
Lemma utf8_printable_head b bs d :
  0 <= b < 256 ->
  Abi.toUtf8String (b :: bs) = Abi.Text d -> isPrintable d = true ->
  b < 128 /\ exists d', d = String (ascii_of_N (Z.to_N b)) d'
                        /\ Abi.toUtf8String bs = Abi.Text d'.
Proof.
  intros Hb H Hprint. apply toUtf8String_Text in H as (cps0 & Hcps & Hnarrow).
  destruct (codePoints_cons _ _ _ Hcps) as [(Hlow & cps & -> & Hrest) | (res & cps & -> & Hres)].
  - cbn [Abi.narrow] in Hnarrow.
    destruct (b <? 256); [| discriminate].
    destruct (Abi.narrow cps) as [d' |] eqn:Hd'; [| discriminate].
    cbn in Hnarrow. inversion Hnarrow; subst d. split.
    + rewrite Z.shiftr_div_pow2 in Hlow by lia.
      apply Z.div_small_iff in Hlow; lia.
    + exists d'. split; [reflexivity |]. apply toUtf8String_Text. eauto.
  - exfalso. cbn [Abi.narrow] in Hnarrow.
    destruct (Z.ltb_spec res 256); [| discriminate].
    destruct (Abi.narrow cps) as [d' |]; [| discriminate].
    cbn in Hnarrow. inversion Hnarrow; subst d.
    rewrite (not_printable_high (Z.to_N res)) in Hprint; [discriminate | lia].
Qed.

(** On bytes that decode to printable text, the loop of [decodeValue]
    and the UTF-8 decoder give the same characters. *)
Lemma hexToChars_utf8 n : forall sh bytes d pre turns,
  (String.length sh <= n)%nat ->
  Abi.hexPairs sh = Some bytes -> Abi.toUtf8String bytes = Abi.Text d ->
  isPrintable d = true ->
  (String.length sh <= 2 * turns)%nat ->
  hexToChars (pre +:+ sh) (String.length pre) turns = d.
Proof.
  induction n as [| n IH]; intros sh bytes d pre turns Hn Hpairs Hutf Hprint Hturns.
  - destruct sh; [| cbn in Hn; lia]. cbn in Hpairs. inversion Hpairs; subst bytes.
    cbn in Hutf. inversion Hutf; subst d.
    destruct turns; [reflexivity |]. cbn [hexToChars]. rewrite append_empty.
    now rewrite Nat.ltb_irrefl.
  - destruct sh as [| a [| b rest]].
    + cbn in Hpairs. inversion Hpairs; subst bytes.
      cbn in Hutf. inversion Hutf; subst d.
      destruct turns; [reflexivity |]. cbn [hexToChars]. rewrite append_empty.
      now rewrite Nat.ltb_irrefl.
    + discriminate.
    + cbn [Abi.hexPairs] in Hpairs.
      destruct (digitValue a) as [x |] eqn:Ha; [| discriminate].
      destruct (digitValue b) as [y |] eqn:Hb; [| discriminate].
      destruct (Abi.hexPairs rest) as [bs |] eqn:Hrest; [| discriminate].
      destruct ((x <? 16) && (y <? 16)) eqn:Hxy; [| discriminate].
      apply andb_true_iff in Hxy as [Hx Hy].
      inversion Hpairs; subst bytes; clear Hpairs.
      pose proof (digitValue_range _ _ Ha) as Rx.
      pose proof (digitValue_range _ _ Hb) as Ry.
      apply Z.ltb_lt in Hx as Hx'. apply Z.ltb_lt in Hy as Hy'.
      assert (0 <= x * 16 + y < 256) as Hrange by lia.
      destruct (utf8_printable_head _ _ _ Hrange Hutf Hprint)
        as (Hlow & d' & -> & Hd').
      cbn [isPrintable] in Hprint. apply andb_true_iff in Hprint as [_ Hprint].
      destruct turns as [| turns]; [cbn in Hturns; lia |].
      cbn [hexToChars].
      destruct (Nat.ltb_spec (String.length pre)
                  (String.length (pre +:+ String a (String b rest)))) as [_ | Hge].
      2: { rewrite ExecutorMore.length_append in Hge. cbn [String.length] in Hge. lia. }
      unfold slice.
      replace (String.length pre + 2 - String.length pre)%nat with 2%nat by lia.
      rewrite substring_skip, substring_two, (pair_parse a b x y Ha Hb Hx Hy).
      cbn [fromCharCode].
      rewrite (Z.mod_small (x * 16 + y) 65536) by lia.
      rewrite (Z.mod_small (x * 16 + y) 256) by lia.
      f_equal.
      change (String a (String b rest))
        with (String a (String b EmptyString) +:+ rest).
      rewrite <- append_assoc.
      replace (String.length pre + 2)%nat
        with (String.length (pre +:+ String a (String b EmptyString)))
        by (rewrite ExecutorMore.length_append; reflexivity).
      apply (IH rest bs d'); try assumption; cbn [String.length] in *; lia.
Qed.

Lemma substring_all s : substring 0 (String.length s) s = s.
Proof.
  induction s as [| c s IH]; [reflexivity |].
  change (String c (substring 0 (String.length s) s) = String c s).
  now rewrite IH.
Qed.

Lemma sliceFrom_substring s : forall a,
  sliceFrom s a = substring a (String.length s - a) s.
Proof.
  induction s as [| c s IH]; intros [| a]; try reflexivity.
  - rewrite Nat.sub_0_r, substring_all. reflexivity.
  - change (sliceFrom s a = substring a (String.length s - a) s). apply IH.
Qed.

Lemma lastTwo_slice hex :
  String.length hex = 64%nat -> lastTwo hex = slice hex 62 64.
Proof.
  intros H. unfold lastTwo, slice. rewrite sliceFrom_substring, H. reflexivity.
Qed.

Lemma shortString_chars hex decoded :
  String.length hex = 64%nat -> shortString hex = Some decoded ->
  exists z,
    parseInt (slice hex 62 64) 16 = Fin z
    /\ 0 < z < 64 /\ Z.rem z 2 = 0
    /\ decoded
       = hexToChars (slice hex 0 (Z.to_nat (z / 2 * 2))) 0
                    (String.length (slice hex 0 (Z.to_nat (z / 2 * 2)))).
Proof.
  intros Hlen H. unfold shortString in H. rewrite (lastTwo_slice _ Hlen) in H.
  destruct (parseInt (slice hex 62 64) 16) as [| neg | z]; try discriminate.
  destruct ((0 <? z) && (Z.rem z 2 =? 0) && (z <? 64)) eqn:Hcond; [| discriminate].
  apply andb_true_iff in Hcond as [Hcond H3].
  apply andb_true_iff in Hcond as [H1 H2].
  apply Z.ltb_lt in H1, H3. apply Z.eqb_eq in H2.
  exists z. split; [reflexivity |]. split; [lia |]. split; [exact H2 |].
  unfold toUtf8String in H.
  change (Abi.getBytes ("0x" +:+ ?x)) with (Abi.hexPairs x) in H.
  destruct (Abi.hexPairs (slice hex 0 (Z.to_nat (z / 2 * 2)))) as [bs |] eqn:Hbs;
    [| discriminate].
  destruct (Abi.toUtf8String bs) as [d | |] eqn:Hd; try discriminate.
  destruct (isPrintable d) eqn:Hp; [| discriminate].
  inversion H; subst d. symmetry.
  apply (hexToChars_utf8 _ _ bs decoded EmptyString _ (Nat.le_refl _) Hbs Hd Hp).
  lia.
Qed.

(** X24. The two decoders agree on a 32-byte word: what the report prints
    as a short string is what [decodeValue] returns for the word under
    a string type. *)
Theorem decoders_agree (hexValue type : string) (d : Decoded) :
  String.length (digitsOf hexValue) = 64%nat ->
  includes type "string" = true ->
  tryDecodeString hexValue = Some d -> isString d = true ->
  decodeValue hexValue type = decodedValue d.
Proof.
  intros Hlen Htype H Hs. unfold tryDecodeString in H.
  fold (digitsOf hexValue) in H.
  rewrite ExecutorMore.padStart_long in H by lia.
  destruct (shortString (digitsOf hexValue)) as [decoded |] eqn:Hshort.
  2: { destruct (BigInt hexValue) as [b |]; [| discriminate].
       destruct (b =? 0); inversion H; subst d; discriminate. }
  inversion H; subst d; clear H. cbn [decodedValue].
  destruct (shortString_chars _ _ Hlen Hshort) as (z & Hlast & Hz & Heven & ->).
  rewrite (decodeValue_string _ _ Htype). cbn zeta.
  destruct (String.eqb_spec (digitsOf hexValue) (repeat "0" 64)) as [E | _].
  { rewrite E in Hlast.
    change (parseInt (slice (repeat "0" 64) 62 64) 16) with (Fin 0) in Hlast.
    inversion Hlast. lia. }
  rewrite Hlast. cbn [isEven]. rewrite Heven.
  destruct (Z.ltb_spec 0 (z / 2)) as [_ | Hbad].
  2: { exfalso. apply Z.rem_divide in Heven; [| lia].
       destruct Heven as [k ->]. rewrite Z.div_mul in Hbad; lia. }
  destruct (Z.leb_spec (z / 2) 31) as [_ | Hbad]; [reflexivity |].
  exfalso. pose proof (Z.mul_div_le z 2 ltac:(lia)). lia.
Qed.

Lemma decoders_agree_witness :
  decodeValue Examples.shortHi "string" = quote +:+ "hi" +:+ quote.
Proof.
  apply (decoders_agree Examples.shortHi "string"
           {| isString := true; decodedValue := quote +:+ "hi" +:+ quote |});
    reflexivity.
Defined.

Lemma hex_pair c :
  let n := N_of_ascii c in
  digitValue (hexDigit (n / 16)) = Some (Z.of_N (n / 16))
  /\ digitValue (hexDigit (n mod 16)) = Some (Z.of_N (n mod 16))
  /\ (Z.of_N (n / 16) <? 16) = true
  /\ (Z.of_N (n mod 16) <? 16) = true
  /\ Z.of_N (n / 16) * 16 + Z.of_N (n mod 16) = Z.of_N n.
Proof. ascii_cases c; vm_compute; repeat split. Qed.

Lemma hexPairs_toHex c s :
  Abi.hexPairs (toHex (String c s)) =
  match Abi.hexPairs (toHex s) with
  | Some bs => Some (Z.of_N (N_of_ascii c) :: bs)
  | None => None
  end.
Proof.
  destruct (hex_pair c) as (H1 & H2 & H3 & H4 & H5).
  cbn [toHex Abi.hexPairs]. rewrite H1, H2, H3, H4, H5. cbn [andb].
  now destruct (Abi.hexPairs (toHex s)).
Qed.

Lemma utf8_toHex s :
  isPrintable s = true ->
  exists bs, Abi.hexPairs (toHex s) = Some bs /\ Abi.toUtf8String bs = Abi.Text s.
Proof.
  induction s as [| c s IH]; intros H.
  - exists []. split; reflexivity.
  - cbn [isPrintable] in H. apply andb_true_iff in H as [Hc Hs].
    apply andb_true_iff in Hc as [_ Hc]. apply N.leb_le in Hc.
    destruct (IH Hs) as (bs & Hbs & Hu).
    apply toUtf8String_Text in Hu as (cps & Hcps & Hnarrow).
    exists (Z.of_N (N_of_ascii c) :: bs). split.
    + now rewrite hexPairs_toHex, Hbs.
    + apply toUtf8String_Text. exists (Z.of_N (N_of_ascii c) :: cps). split.
      * cbn [Abi.codePoints].
        assert (Z.shiftr (Z.of_N (N_of_ascii c)) 7 = 0) as ->.
        { rewrite Z.shiftr_div_pow2 by lia. apply Z.div_small. lia. }
        cbn [Z.eqb]. now rewrite Hcps.
      * cbn [Abi.narrow].
        destruct (Z.ltb_spec (Z.of_N (N_of_ascii c)) 256); [| lia].
        rewrite Hnarrow. cbn [fmap option_fmap option_map].
        now rewrite N2Z.id, ascii_N_embedding.
Qed.

Lemma length_shortStringWord s :
  (String.length s <= 31)%nat -> String.length (shortStringWord s) = 64%nat.
Proof.
  intros H. unfold shortStringWord. rewrite <- append_assoc.
  rewrite ExecutorMore.length_append, (length_word s H). reflexivity.
Qed.

(** X25. The report recognises every printable short string: for a text
    of 1 to 31 printable ASCII characters, [tryDecodeString] applied
    to its storage word gives the text back between quotes. *)
Theorem tryDecodeString_short_string (s : string) :
  (1 <= String.length s <= 31)%nat -> isPrintable s = true ->
  tryDecodeString ("0x" +:+ shortStringWord s)
  = Some {| isString := true; decodedValue := quote +:+ s +:+ quote |}.
Proof.
  intros Hlen Hprint. unfold tryDecodeString.
  change (if startsWith ("0x" +:+ shortStringWord s) "0x"
          then sliceFrom ("0x" +:+ shortStringWord s) 2
          else "0x" +:+ shortStringWord s)
    with (shortStringWord s).
  pose proof (length_shortStringWord s ltac:(lia)) as Hword.
  rewrite ExecutorMore.padStart_long by lia.
  assert (shortString (shortStringWord s) = Some s) as ->; [| reflexivity].
  unfold shortString. rewrite (lastTwo_slice _ Hword), (word_last_byte s) by lia.
  replace (Z.of_nat (2 * String.length s) / 2) with (Z.of_nat (String.length s))
    by (rewrite Nat2Z.inj_mul, Z.mul_comm, Z.div_mul; lia).
  replace (Z.rem (Z.of_nat (2 * String.length s)) 2) with 0.
  2: { symmetry. rewrite Nat2Z.inj_mul, Z.mul_comm. apply Z.rem_mul. lia. }
  destruct (Z.ltb_spec 0 (Z.of_nat (2 * String.length s))); [| lia].
  destruct (Z.ltb_spec (Z.of_nat (2 * String.length s)) 64); [| lia].
  cbn [andb Z.eqb].
  replace (Z.to_nat (Z.of_nat (String.length s) * 2))
    with (2 * String.length s)%nat by lia.
  rewrite word_bytes. unfold toUtf8String.
  change (Abi.getBytes ("0x" +:+ toHex s)) with (Abi.hexPairs (toHex s)).
  destruct (utf8_toHex s Hprint) as (bs & -> & Hu).
  now rewrite Hu, Hprint.
Qed.

Lemma tryDecodeString_short_string_witness :
  tryDecodeString ("0x" +:+ shortStringWord "DogTrace")
  = Some {| isString := true; decodedValue := quote +:+ "DogTrace" +:+ quote |}.
Proof. apply tryDecodeString_short_string; [cbn; lia | reflexivity]. Defined.

Lemma prefix_restore h :
  startsWith h "0x" = true -> "0x" +:+ sliceFrom h 2 = h.
Proof.
  destruct h as [| a [| b r]]; try discriminate.
  - change (startsWith (String a EmptyString) "0x")
      with (Ascii.eqb "0" a && false).
    now rewrite andb_false_r.
  - change (startsWith (String a (String b r)) "0x")
      with (Ascii.eqb "0" a && (Ascii.eqb "x" b && true)).
    intros H. apply andb_true_iff in H as [Ha Hb].
    apply andb_true_iff in Hb as [Hb _].
    apply Ascii.eqb_eq in Ha, Hb. subst a b. reflexivity.
Qed.

Lemma decodeValue_decimal hexValue type b :
  startsWith hexValue "0x" = true -> BigInt hexValue = Some b ->
  includes type "string" = false -> includes type "address" = false ->
  includes type "bool" = false ->
  includes type "uint" || includes type "int" || negb (includes type "bytes") = true ->
  decodeValue hexValue type = bigIntToString b.
Proof.
  intros Hprefix Hb Hs Ha Hbool Hnum. unfold decodeValue.
  rewrite Hprefix, (prefix_restore _ Hprefix), Hb, Hs, Ha, Hbool.
  destruct (includes type "uint" || includes type "int"); [reflexivity |].
  cbn [orb] in Hnum. now destruct (includes type "bytes").
Qed.

(** X26. [decodeValue] and the executor agree on numbers: under a type
    that is read as a number, the new value of a storage change
    decodes to its [newValueDecimal], and the old value to its
    [oldValueDecimal] when it carries the [0x] prefix. *)
Theorem decodeValue_agrees_with_executor (traceResult : TraceResult)
    (changes : list StorageChange) (c : StorageChange) (type : string) :
  extractStorageChanges (parseTrace traceResult) = Some changes -> c ∈ changes ->
  includes type "string" = false -> includes type "address" = false ->
  includes type "bool" = false ->
  includes type "uint" || includes type "int" || negb (includes type "bytes") = true ->
  decodeValue (newValue c) type = newValueDecimal c
  /\ (startsWith (oldValue c) "0x" = true ->
      decodeValue (oldValue c) type = oldValueDecimal c).
Proof.
  intros Hex Hc Hs Ha Hbool Hnum.
  destruct (StorageDiffProofs.extract_elem _ _ _ Hex Hc) as (t & w & Ht & Hw & Hchange).
  destruct (ExecutorMore.toStorageChange_numbers _ _ _ _ Hchange)
    as (_ & (old & Hold & Holdtext) & (new & Hnew & Hnewtext)).
  destruct (StorageDiffProofs.toStorageChange_fields _ _ _ _ Hchange)
    as (_ & Hvalue & _ & _).
  change (parseTrace traceResult)
    with (parseTrace (Examples.traceOf (default [] (structLogs traceResult)))) in Ht.
  destruct (StorageDiffProofs.parseTrace_elem _ _ Ht) as (i & log & g & _ & ->).
  apply StorageDiffProofs.parseStep_storage in Hw
    as (st & k & v & _ & _ & _ & _ & ->).
  cbn [value] in Hvalue. split.
  - rewrite Hnewtext. apply decodeValue_decimal; try assumption.
    now rewrite Hvalue, ExecutorMore.padHex_unfold.
  - intros Hprefix. rewrite Holdtext. now apply decodeValue_decimal.
Qed.

Lemma decodeValue_agrees_with_executor_witness :
  exists c,
    extractStorageChanges (parseTrace (Examples.traceOf Examples.storeOnly))
      ≫= head = Some c
    /\ decodeValue (newValue c) "t_uint256" = newValueDecimal c.
Proof.
  destruct (extractStorageChanges (parseTrace (Examples.traceOf Examples.storeOnly)))
    as [changes |] eqn:Hex; [| vm_compute in Hex; discriminate Hex].
  destruct changes as [| c rest]; [vm_compute in Hex; discriminate Hex |].
  exists c. split; [reflexivity |].
  apply (decodeValue_agrees_with_executor _ (c :: rest) c "t_uint256" Hex);
    first [apply list_elem_of_here | reflexivity].
Defined.

End DecodingMore.

(* ===================================================================== *)
(** ** Properties of the request validation and of the storage layout *)
(* ===================================================================== *)

Module InputMore.
Import JS StorageLayoutParser RequestValidator.

Lemma isHexChar_digit c :
  isHexChar c = match digitValue c with
                | Some d => d <? 16
                | None => false
                end.
Proof. ascii_cases c; reflexivity. Qed.

Lemma hexPairs_Some n : forall ds bs,
  (String.length ds <= n)%nat -> Abi.hexPairs ds = Some bs ->
  String.length ds = (2 * length bs)%nat /\ allHexChars ds = true.
Proof.
  induction n as [| n IH]; intros ds bs Hn H.
  - destruct ds; [| cbn in Hn; lia]. inversion H. split; reflexivity.
  - destruct ds as [| a [| b rest]]; [inversion H; split; reflexivity | discriminate |].
    cbn [Abi.hexPairs] in H.
    pose proof (isHexChar_digit a) as Ea. pose proof (isHexChar_digit b) as Eb.
    destruct (digitValue a) as [x |]; [| discriminate].
    destruct (digitValue b) as [y |]; [| discriminate].
    destruct (Abi.hexPairs rest) as [bs' |] eqn:Hrest; [| discriminate].
    destruct ((x <? 16) && (y <? 16)) eqn:Hxy; [| discriminate].
    apply andb_true_iff in Hxy as [Hx Hy]. inversion H; subst bs.
    destruct (IH rest bs' ltac:(cbn [String.length] in Hn; lia) Hrest) as [Hl Hh].
    cbn [String.length length allHexChars]. rewrite Ea, Eb, Hx, Hy, Hh.
    split; [lia | reflexivity].
Qed.

Lemma hexPairs_total n : forall ds,
  String.length ds = (2 * n)%nat -> allHexChars ds = true ->
  exists bs, Abi.hexPairs ds = Some bs /\ length bs = n.
Proof.
  induction n as [| n IH]; intros ds Hl Hh.
  - destruct ds; [| cbn in Hl; lia]. exists []. split; reflexivity.
  - destruct ds as [| a [| b rest]]; try (cbn in Hl; lia).
    cbn [allHexChars] in Hh. apply andb_true_iff in Hh as [Ha Hh].
    apply andb_true_iff in Hh as [Hb Hh].
    rewrite isHexChar_digit in Ha, Hb.
    destruct (digitValue a) as [x |] eqn:Ea; [| discriminate].
    destruct (digitValue b) as [y |] eqn:Eb; [| discriminate].
    destruct (IH rest ltac:(cbn [String.length] in Hl; lia) Hh) as (bs & Hbs & Hlen).
    exists (x * 16 + y :: bs). cbn [Abi.hexPairs length].
    rewrite Ea, Eb, Hbs, Ha, Hb. split; [reflexivity | lia].
Qed.

Lemma isValid_inv h :
  isValid h = true ->
  exists ds, h = String "0" (String "x" ds)
    /\ String.length ds = 64%nat /\ allHexChars ds = true.
Proof.
  destruct h as [| a [| b ds]]; unfold isValid; try discriminate.
  - ascii_cases a; discriminate.
  - ascii_cases a; try discriminate.
    ascii_cases b; try discriminate.
    intros H. apply andb_true_iff in H as [Hl Hh]. apply Nat.eqb_eq in Hl.
    exists ds. auto.
Qed.

Lemma getBytes_inv h bs :
  Abi.getBytes h = Some bs ->
  exists ds, h = String "0" (String "x" ds) /\ Abi.hexPairs ds = Some bs.
Proof.
  destruct h as [| a [| b ds]]; unfold Abi.getBytes; try discriminate.
  - ascii_cases a; discriminate.
  - ascii_cases a; try discriminate.
    ascii_cases b; try discriminate.
    intros H. exists ds. auto.
Qed.

(** X27. The middleware lets a request through exactly when its hash is
    the [0x]-prefixed hexadecimal text of 32 bytes; a request without
    a hash is never let through. *)
Theorem accepted_hash_is_32_bytes (txHash : string) :
  (validateTxHash (Some txHash) = Next <->
   exists bytes, Abi.getBytes txHash = Some bytes /\ length bytes = 32%nat)
  /\ validateTxHash None <> Next.
Proof.
  split; [| discriminate]. unfold validateTxHash. split.
  - intros H. destruct (isValid txHash) eqn:Hv; [| discriminate].
    destruct (isValid_inv _ Hv) as (ds & -> & Hl & Hh).
    change (Abi.getBytes (String "0" (String "x" ds))) with (Abi.hexPairs ds).
    apply (hexPairs_total 32); assumption.
  - intros (bs & Hbs & Hlen).
    destruct (getBytes_inv _ _ Hbs) as (ds & -> & Hp).
    destruct (hexPairs_Some _ _ _ (Nat.le_refl _) Hp) as [Hl Hh].
    change (isValid (String "0" (String "x" ds)))
      with ((String.length ds =? 64)%nat && allHexChars ds).
    rewrite Hh, Hl, Hlen. reflexivity.
Qed.

Lemma lookup_setVariable storageMap item s :
  setVariable storageMap item !! s =
  if decide (parseInt (item_slot item) 0 = s)
  then Some {| var_name := item_label item; var_type := item_type item;
               var_slot := s |}
  else storageMap !! s.
Proof.
  unfold setVariable. cbn zeta.
  destruct (decide (parseInt (item_slot item) 0 = s)) as [<- | Hne].
  - apply lookup_insert_eq.
  - now apply lookup_insert_ne.
Qed.

Lemma storageMapOf_lookup (items : list StorageItem) (s : number)
    (v : StorageVariable) :
  storageMapOf items !! s = Some v <->
  exists (i : nat) item,
    items !! i = Some item
    /\ parseInt (item_slot item) 0 = s
    /\ v = {| var_name := item_label item; var_type := item_type item; var_slot := s |}
    /\ forall (j : nat) item', (i < j)%nat -> items !! j = Some item' ->
         parseInt (item_slot item') 0 <> s.
Proof.
  unfold storageMapOf.
  assert (forall (m : gmap number StorageVariable),
            foldl setVariable m items !! s = Some v <->
            (exists (i : nat) item,
               items !! i = Some item
               /\ parseInt (item_slot item) 0 = s
               /\ v = {| var_name := item_label item; var_type := item_type item;
                         var_slot := s |}
               /\ forall (j : nat) item', (i < j)%nat -> items !! j = Some item' ->
                    parseInt (item_slot item') 0 <> s)
            \/ (m !! s = Some v
                /\ forall (j : nat) item', items !! j = Some item' ->
                     parseInt (item_slot item') 0 <> s)) as Hgen.
  { induction items as [| item rest IH]; intros m; cbn [foldl].
    - split.
      + intros H. right. split; [exact H |]. intros j item' Hj.
        rewrite lookup_nil in Hj. discriminate.
      + intros [(i & item & Hi & _) | [H _]]; [| exact H].
        rewrite lookup_nil in Hi. discriminate.
    - rewrite IH, lookup_setVariable. split.
      + intros [(i & it & Hi & Hs & Hv & Hlast) | [Hm Hnone]].
        * left. exists (S i), it. split; [exact Hi |]. split; [exact Hs |].
          split; [exact Hv |]. intros [| j] item' Hj Hl; [lia |].
          apply (Hlast j); [lia | exact Hl].
        * destruct (decide (parseInt (item_slot item) 0 = s)) as [Hs | Hs].
          -- left. exists 0%nat, item. split; [reflexivity |]. split; [exact Hs |].
             split; [now inversion Hm |]. intros [| j] item' Hj Hl; [lia |].
             apply (Hnone j). exact Hl.
          -- right. split; [exact Hm |]. intros [| j] item' Hl.
             ++ inversion Hl; subst. exact Hs.
             ++ apply (Hnone j). exact Hl.
      + intros [(i & it & Hi & Hs & Hv & Hlast) | [Hm Hnone]].
        * destruct i as [| i].
          -- inversion Hi; subst it. right. split.
             ++ destruct (decide (parseInt (item_slot item) 0 = s)); [| congruence].
                now rewrite Hv.
             ++ intros j item' Hl. apply (Hlast (S j)); [lia | exact Hl].
          -- left. exists i, it. split; [exact Hi |]. split; [exact Hs |].
             split; [exact Hv |]. intros j item' Hj Hl.
             apply (Hlast (S j)); [lia | exact Hl].
        * right. split.
          -- destruct (decide (parseInt (item_slot item) 0 = s)) as [Hs | _];
               [| exact Hm].
             exfalso. apply (Hnone 0%nat item eq_refl Hs).
          -- intros j item' Hl. apply (Hnone (S j)). exact Hl. }
  rewrite Hgen, lookup_empty. split.
  - intros [H | [H _]]; [exact H | discriminate].
  - auto.
Qed.

(** X28. The storage map keeps one variable per slot number, the last one
    the layout lists for it: of the variables packed into one slot
    only the last is known to the report.  A slot text that is no
    number puts its variable under the key NaN. *)
Theorem last_variable_of_a_slot (items : list StorageItem) (s : number)
    (v : StorageVariable) :
  storageMapOf items !! s = Some v <->
  exists (i : nat) item,
    items !! i = Some item
    /\ parseInt (item_slot item) 0 = s
    /\ v = {| var_name := item_label item; var_type := item_type item; var_slot := s |}
    /\ forall (j : nat) item', (i < j)%nat -> items !! j = Some item' ->
         parseInt (item_slot item') 0 <> s.
Proof. apply storageMapOf_lookup. Qed.

Lemma accepted_hash_is_32_bytes_witness :
  validateTxHash (Some ("0x" +:+ repeat "a" 64)) = Next.
Proof.
  apply (proj1 (accepted_hash_is_32_bytes ("0x" +:+ repeat "a" 64))).
  eexists. split; reflexivity.
Defined.

Lemma last_variable_of_a_slot_witness :
  storageMapOf
    [ {| item_label := "owner"; item_type := "t_address"; item_slot := "0" |};
      {| item_label := "paused"; item_type := "t_bool"; item_slot := "0" |} ]
    !! Fin 0
  = Some {| var_name := "paused"; var_type := "t_bool"; var_slot := Fin 0 |}.
Proof.
  apply last_variable_of_a_slot.
  exists 1%nat, {| item_label := "paused"; item_type := "t_bool"; item_slot := "0" |}.
  split; [reflexivity |]. split; [reflexivity |]. split; [reflexivity |].
  intros [| [| j]] item' Hj Hl; try lia. discriminate Hl.
Defined.

Lemma digitsPrefix_unseen R s : forall acc v,
  s <> EmptyString -> allDigits R s acc = Some v ->
  digitsPrefix R s acc false = Some v.
Proof.
  destruct s as [| c s]; intros acc v Hne H; [congruence |].
  cbn [allDigits] in H. cbn [digitsPrefix].
  destruct (digitValue c) as [d |]; [| discriminate].
  destruct (d <? R); [| discriminate].
  now apply ExecutorMore.digitsPrefix_all.
Qed.

(** The decimal text of a natural number is read back by [parseInt]
    without a radix. *)
Lemma parseInt_decimal k :
  0 <= k -> parseInt (bigIntToString k) 0 = to_double k.
Proof.
  intros Hk. destruct k as [| p | p]; [reflexivity | | lia].
  unfold bigIntToString.
  change (NilZero.string_of_int (Z.to_int (Z.pos p)))
    with (NilZero.string_of_uint (Pos.to_uint p)).
  rewrite ExecutorMore.string_of_uint_to_uint.
  pose proof (ExecutorMore.allDigits_uint (Pos.to_uint p)) as Hall.
  rewrite DecimalPos.Unsigned.of_to in Hall.
  pose proof (ExecutorMore.to_uint_not_Nil p) as Hnil.
  assert (NilEmpty.string_of_uint (Pos.to_uint p) <> EmptyString) as Hne
    by (destruct (Pos.to_uint p); [congruence | discriminate ..]).
  pose proof (digitsPrefix_unseen 10 _ 0 _ Hne Hall) as Hdigits.
  unfold parseInt.
  destruct (Pos.to_uint p) as [| d | d | d | d | d | d | d | d | d | d];
    [congruence | ..];
    try (cbn [NilEmpty.string_of_uint] in *;
         match goal with
         | |- context [trimStart (String ?c ?r)] =>
             change (trimStart (String c r)) with (String c r)
         end;
         cbv iota beta;
         cbn [negb andb orb Z.eqb Z.ltb Z.compare stripHexPrefix];
         rewrite Hdigits; reflexivity).
  cbn [NilEmpty.string_of_uint] in *.
  change (trimStart (String "0" ?r)) with (String "0" r).
  cbv iota beta. cbn [negb andb orb Z.eqb Z.ltb Z.compare].
  assert (stripHexPrefix (String "0" (NilEmpty.string_of_uint d)) = None) as ->
    by (destruct d; reflexivity).
  rewrite Hdigits. reflexivity.
Qed.

(** X29. The variable a report shows for a storage change: when the slot
    of the change is a number below 2^53, the lookup by [slotNumber]
    finds the variable the layout declares under the decimal text of
    that slot (the last one declared for it). *)
Theorem declared_variable_is_found (traceResult : TransactionExecutor.TraceResult)
    (logs : list TransactionExecutor.StructLog)
    (changes : list TransactionExecutor.StorageChange)
    (c : TransactionExecutor.StorageChange) (k : Z)
    (items : list StorageItem) (i : nat) (item : StorageItem) :
  TransactionExecutor.structLogs traceResult = Some logs ->
  TransactionExecutor.wellFormedLogs logs ->
  TransactionExecutor.extractStorageChanges
    (TransactionExecutor.parseTrace traceResult) = Some changes ->
  c ∈ changes ->
  BigInt (TransactionExecutor.slot c) = Some k -> k < 2 ^ 53 ->
  items !! i = Some item -> item_slot item = bigIntToString k ->
  (forall (j : nat) item', (i < j)%nat -> items !! j = Some item' ->
     parseInt (item_slot item') 0 <> Fin k) ->
  storageMapOf items !! TransactionExecutor.slotNumber c
  = Some {| var_name := item_label item; var_type := item_type item;
            var_slot := Fin k |}.
Proof.
  intros Hlogs Hwf Hex Hc Hslot Hsmall Hitem Htext Hlast.
  destruct (ExecutorMore.slotNumber_of_change _ _ _ _ Hlogs Hwf Hex Hc)
    as (n & Hn & Hpos & _ & Hfin).
  assert (n = k) as -> by congruence.
  rewrite (Hfin Hsmall). apply storageMapOf_lookup.
  exists i, item. split; [exact Hitem |]. split; [| split; [reflexivity | exact Hlast]].
  rewrite Htext, parseInt_decimal by exact Hpos.
  apply LocationMore.to_double_small. lia.
Qed.

Lemma declared_variable_is_found_witness :
  exists c,
    TransactionExecutor.extractStorageChanges
      (TransactionExecutor.parseTrace (Examples.traceOf Examples.storeOnly))
      ≫= head = Some c
    /\ storageMapOf
         [ {| item_label := "owner"; item_type := "t_address"; item_slot := "0" |};
           {| item_label := "count"; item_type := "t_uint256"; item_slot := "2" |} ]
         !! TransactionExecutor.slotNumber c
       = Some {| var_name := "count"; var_type := "t_uint256"; var_slot := Fin 2 |}.
Proof.
  destruct (TransactionExecutor.extractStorageChanges
              (TransactionExecutor.parseTrace (Examples.traceOf Examples.storeOnly)))
    as [changes |] eqn:Hex; [| vm_compute in Hex; discriminate Hex].
  destruct changes as [| c rest]; [vm_compute in Hex; discriminate Hex |].
  exists c. split; [reflexivity |].
  apply (declared_variable_is_found (Examples.traceOf Examples.storeOnly)
           Examples.storeOnly (c :: rest) c 2 _ 1%nat
           {| item_label := "count"; item_type := "t_uint256"; item_slot := "2" |}
           eq_refl).
  - apply StorageDiffProofs.hexStacks_wellFormed. reflexivity.
  - exact Hex.
  - apply list_elem_of_here.
  - vm_compute in Hex. inversion Hex; subst c. reflexivity.
  - reflexivity.
  - reflexivity.
  - reflexivity.
  - intros [| [| j]] item' Hj Hl; try lia. discriminate Hl.
Defined.

End InputMore.

(* ===================================================================== *)
(** ** Properties of the revert-reason decoding *)
(* ===================================================================== *)

Module RevertProofs.
Import JS TransactionExecutor PDFGenerator.

Lemma error_selector_is_not_panic s :
  startsWith s errorSelector = true -> startsWith s panicSelector = false.
Proof.
  destruct s as [| c s]; [discriminate |].
  change (startsWith (String c s) errorSelector)
    with (Ascii.eqb (ascii_of_N 0x08) c
          && startsWith s (sliceFrom errorSelector 1)).
  change (startsWith (String c s) panicSelector)
    with (Ascii.eqb (ascii_of_N 0x4e) c
          && startsWith s (sliceFrom panicSelector 1)).
  destruct (Ascii.eqb_spec (ascii_of_N 0x08) c) as [<- | _];
    [reflexivity | discriminate].
Qed.

(** Two bytes have the same two hexadecimal digits exactly when they
    are the same byte. *)
Lemma pair_eqb t c :
  Ascii.eqb (hexDigit (N_of_ascii t / 16)) (hexDigit (N_of_ascii c / 16))
  && Ascii.eqb (hexDigit (N_of_ascii t mod 16)) (hexDigit (N_of_ascii c mod 16))
  = Ascii.eqb t c.
Proof.
  destruct (Ascii.eqb_spec t c) as [-> | Hne].
  - now rewrite !Ascii.eqb_refl.
  - destruct (Ascii.eqb_spec (hexDigit (N_of_ascii t / 16))
                             (hexDigit (N_of_ascii c / 16))) as [Hhi | _];
      [| reflexivity].
    destruct (Ascii.eqb_spec (hexDigit (N_of_ascii t mod 16))
                             (hexDigit (N_of_ascii c mod 16))) as [Hlo | _];
      [| reflexivity].
    exfalso. apply Hne.
    destruct (DecodingMore.hex_pair t) as (T1 & T2 & _ & _ & T5).
    destruct (DecodingMore.hex_pair c) as (C1 & C2 & _ & _ & C5).
    rewrite Hhi, C1 in T1. rewrite Hlo, C2 in T2.
    inversion T1. inversion T2.
    assert (Z.of_N (N_of_ascii t) = Z.of_N (N_of_ascii c)) as E by lia.
    apply N2Z.inj in E.
    rewrite <- (ascii_N_embedding t), <- (ascii_N_embedding c). now rewrite E.
Qed.

(** The test on the hexadecimal text of a payload is the test on its
    bytes. *)
Lemma startsWith_toHex pre : forall s,
  startsWith (toHex s) (toHex pre) = startsWith s pre.
Proof.
  induction pre as [| t pre IH]; intros s; [reflexivity |].
  destruct s as [| c s]; [reflexivity |].
  change (startsWith (toHex (String c s)) (toHex (String t pre)))
    with (Ascii.eqb (hexDigit (N_of_ascii t / 16)) (hexDigit (N_of_ascii c / 16))
          && (Ascii.eqb (hexDigit (N_of_ascii t mod 16))
                        (hexDigit (N_of_ascii c mod 16))
              && startsWith (toHex s) (toHex pre))).
  change (startsWith (String c s) (String t pre))
    with (Ascii.eqb t c && startsWith s pre).
  now rewrite andb_assoc, pair_eqb, IH.
Qed.

Lemma sliceFrom_toHex payload :
  sliceFrom (toHex payload) 8 = toHex (sliceFrom payload 4).
Proof. destruct payload as [| c1 [| c2 [| c3 [| c4 rest]]]]; reflexivity. Qed.

Lemma toHex_nonempty payload : payload <> EmptyString -> toHex payload <> EmptyString.
Proof. destruct payload; [congruence | discriminate]. Qed.

Lemma allDigits_toHex s : forall acc,
  allDigits 16 (toHex s) acc = Some (bytesValueFrom acc s).
Proof.
  induction s as [| c s IH]; intros acc; [reflexivity |].
  destruct (DecodingMore.hex_pair c) as (H1 & H2 & H3 & H4 & H5).
  cbn [toHex allDigits bytesValueFrom]. rewrite H1, H3. cbn [allDigits].
  rewrite H2, H4, IH. f_equal. f_equal. lia.
Qed.

Lemma parseInt_toHex_cons c rest :
  parseInt (toHex (String c rest)) 16 =
  match digitsPrefix 16 (toHex rest) (Z.of_N (N_of_ascii c)) true with
  | Some v => to_double v
  | None => NaN
  end.
Proof. ascii_cases c; reflexivity. Qed.

(** The panic code: [parseInt] of the hexadecimal text of the
    trailing bytes is the number they stand for, as a double, and NaN
    when there are none. *)
Lemma parseInt_toHex trailing :
  parseInt (toHex trailing) 16 =
  match trailing with
  | EmptyString => NaN
  | _ => to_double (bytesValue trailing)
  end.
Proof.
  destruct trailing as [| c rest]; [reflexivity |].
  rewrite parseInt_toHex_cons.
  now rewrite (ExecutorMore.digitsPrefix_all _ _ _ _ (allDigits_toHex rest _)).
Qed.

Lemma parseInt_toHex_nonempty trailing :
  trailing <> EmptyString ->
  parseInt (toHex trailing) 16 = to_double (bytesValue trailing).
Proof. intros H. rewrite parseInt_toHex. now destruct trailing. Qed.

Lemma bytesValueFrom_nonneg s : forall acc, 0 <= acc -> 0 <= bytesValueFrom acc s.
Proof.
  induction s as [| c s IH]; intros acc Hacc; cbn [bytesValueFrom]; [exact Hacc |].
  apply IH. lia.
Qed.

(** A number from [2^53] on is rounded to a double that is at least
    [2^52]. *)
Lemma to_double_large z :
  2 ^ 53 <= z ->
  match to_double z with
  | Fin v => 2 ^ 52 <= v
  | Infinity _ => True
  | NaN => False
  end.
Proof.
  intros Hz. unfold to_double.
  rewrite (Z.abs_eq z) by lia.
  destruct (Z.ltb_spec z (2 ^ 53)); [lia |].
  set (e := Z.log2 z - 52).
  assert (53 <= Z.log2 z) as Hlog by (apply Z.log2_le_pow2; lia).
  assert (1 <= e) as He by (subst e; lia).
  assert (2 ^ 52 <= Z.shiftr z e) as Hq.
  { rewrite Z.shiftr_div_pow2 by lia.
    apply Z.div_le_lower_bound; [apply Z.pow_pos_nonneg; lia |].
    rewrite <- Z.pow_add_r by lia.
    replace (e + 52) with (Z.log2 z) by (subst e; lia).
    apply Z.log2_spec. lia. }
  set (q := Z.shiftr z e) in *.
  set (q' := if z - Z.shiftl q e <? 2 ^ (e - 1) then q
             else if 2 ^ (e - 1) <? z - Z.shiftl q e then q + 1
                  else if Z.even q then q else q + 1).
  assert (q <= q') as Hq'.
  { subst q'. destruct (z - Z.shiftl q e <? 2 ^ (e - 1)); [lia |].
    destruct (2 ^ (e - 1) <? z - Z.shiftl q e); [lia |].
    destruct (Z.even q); lia. }
  destruct (2 ^ 1024 <=? Z.shiftl q' e); [exact I |].
  rewrite Z.sgn_pos by lia. rewrite Z.mul_1_l, Z.shiftl_mul_pow2 by lia.
  assert (1 <= 2 ^ e) by (apply (Z.pow_le_mono_r 2 0 e); lia).
  nia.
Qed.

Lemma panicReasons_None n :
  (forall k, In k panicCodes -> n <> Fin k) -> panicReasons n = None.
Proof.
  intros H. destruct n as [| negative | z]; try reflexivity.
  destruct z as [| p | p]; try reflexivity.
  repeat first
    [ reflexivity
    | exfalso; apply (fun Hin => H _ Hin eq_refl); cbn; tauto
    | destruct p as [p | p |] ].
Qed.

Lemma unknown_code code :
  0 <= code -> ~ In code panicCodes -> panicReasons (to_double code) = None.
Proof.
  intros Hpos Hnot. apply panicReasons_None. intros k Hk E.
  destruct (Z.lt_ge_cases code (2 ^ 53)) as [Hsmall | Hlarge].
  - rewrite LocationMore.to_double_small in E by lia.
    inversion E; subst. contradiction.
  - pose proof (to_double_large code Hlarge) as Hd. rewrite E in Hd.
    cbn in Hk. lia.
Qed.

(** The message behind the Panic selector. *)
Lemma panic_message abiDecodeString traceResult payload :
  returnValue traceResult = Some (toHex payload) ->
  startsWith payload panicSelector = true ->
  errorMessage abiDecodeString 0 traceResult =
  "Panic(" +:+ numberToString (parseInt (toHex (sliceFrom payload 4)) 16) +:+ "): "
    +:+ stringOr (panicReasons (parseInt (toHex (sliceFrom payload 4)) 16))
                 "Unknown panic".
Proof.
  intros Hret Hpanic. unfold errorMessage. rewrite Hret.
  assert (payload <> EmptyString) as Hne by (intros ->; discriminate).
  rewrite (StorageDiffProofs.string_eqb_false _ _ (toHex_nonempty _ Hne)).
  cbn [Z.eqb andb negb].
  change "4e487b71" with (toHex panicSelector).
  now rewrite startsWith_toHex, Hpanic, sliceFrom_toHex.
Qed.

(** C4.  For a failed transaction whose return payload, printed by
    the node as lower-case hexadecimal text, is not empty.  When the
    leading four bytes are the Panic selector, the message is made
    from the number the trailing bytes stand for and the fixed table:
    each of the nine codes has its text ([0x11] the one with
    [overflow] in it), and every other code, and a payload with no
    trailing bytes, has [Unknown panic].  When they are the
    Error(string) selector, the message is [Error: ] and the string the
    ABI decoder returns, and the fallback when the decoder throws.
    Behind any other selector it is the fallback, which is the plain
    revert reason when one is supplied and [Transaction reverted]
    otherwise.  The encoding of [bad input] gives [Error: bad input];
    a payload the decoder cannot read gives the fallback. *)
Theorem C4_revert_reason_decoding (abiDecodeString : string -> option string) :
  Abi.agrees abiDecodeString ->
  (forall (traceResult : TraceResult) (payload : string),
      returnValue traceResult = Some (toHex payload) ->
      payload <> EmptyString ->
      let message := errorMessage abiDecodeString 0 traceResult in
      let fallback := stringOr (revertReason traceResult) "Transaction reverted" in
      let trailing := sliceFrom payload 4 in
      let code := bytesValue trailing in
      let data := "0x" +:+ toHex trailing in
      (startsWith payload panicSelector = true ->
         (trailing = EmptyString -> message = "Panic(NaN): Unknown panic")
         /\ (trailing <> EmptyString ->
             (code = 0x01 -> message = "Panic(1): Assertion failed")
             /\ (code = 0x11 ->
                 message = "Panic(17): Arithmetic overflow/underflow (unchecked)"
                 /\ includes message "overflow" = true)
             /\ (code = 0x12 -> message = "Panic(18): Division or modulo by zero")
             /\ (code = 0x21 -> message = "Panic(33): Invalid enum value")
             /\ (code = 0x22 -> message = "Panic(34): Invalid storage byte array")
             /\ (code = 0x31 -> message = "Panic(49): Pop on empty array")
             /\ (code = 0x32 -> message = "Panic(50): Array index out of bounds")
             /\ (code = 0x41 -> message = "Panic(65): Out of memory")
             /\ (code = 0x51 -> message = "Panic(81): Invalid internal function")
             /\ (~ In code panicCodes ->
                 message = "Panic(" +:+ numberToString (to_double code)
                             +:+ "): Unknown panic")))
      /\ (startsWith payload errorSelector = true ->
            (forall decoded, Abi.decodeString data = Abi.Text decoded ->
               message = "Error: " +:+ decoded)
            /\ (Abi.decodeString data = Abi.Throws -> message = fallback)
            /\ (forall decoded, abiDecodeString data = Some decoded ->
                  message = "Error: " +:+ decoded)
            /\ (abiDecodeString data = None -> message = fallback))
      /\ (startsWith payload panicSelector = false ->
          startsWith payload errorSelector = false -> message = fallback)
      /\ (forall reason, revertReason traceResult = Some reason ->
            reason <> EmptyString -> fallback = reason)
      /\ (revertReason traceResult = None -> fallback = "Transaction reverted"))
  /\ toHex Examples.panicBytes = Examples.panicPayload
  /\ bytesValue (sliceFrom Examples.panicBytes 4) = 0x11
  /\ errorMessage abiDecodeString 0 (Examples.failed Examples.panicPayload None)
     = "Panic(17): Arithmetic overflow/underflow (unchecked)"
  /\ errorMessage abiDecodeString 0
       (Examples.failed ("4e487b71" +:+ padStart "99" 64 "0") None)
     = "Panic(153): Unknown panic"
  /\ errorMessage abiDecodeString 0 (Examples.failed "4e487b71" None)
     = "Panic(NaN): Unknown panic"
  /\ Abi.decodeString ("0x" +:+ sliceFrom Examples.errorPayload 8)
     = Abi.Text "bad input"
  /\ errorMessage abiDecodeString 0 (Examples.failed Examples.errorPayload None)
     = "Error: bad input"
  /\ Abi.decodeString "0xffff" = Abi.Throws
  /\ errorMessage abiDecodeString 0 (Examples.failed "08c379a0ffff" (Some "why"))
     = "why"
  /\ errorMessage abiDecodeString 0 (Examples.failed "08c379a0ffff" None)
     = "Transaction reverted".
Proof.
  intros Hagrees.
  assert (abiDecodeString ("0x" +:+ sliceFrom Examples.errorPayload 8)
          = Some "bad input") as Hbad.
  { pose proof (Hagrees ("0x" +:+ sliceFrom Examples.errorPayload 8)) as H.
    assert (Abi.decodeString ("0x" +:+ sliceFrom Examples.errorPayload 8)
            = Abi.Text "bad input") as E by (vm_compute; reflexivity).
    now rewrite E in H. }
  assert (abiDecodeString "0xffff" = None) as Hmalformed.
  { pose proof (Hagrees "0xffff") as H.
    assert (Abi.decodeString "0xffff" = Abi.Throws) as E by (vm_compute; reflexivity).
    now rewrite E in H. }
  split.
  2: { split; [vm_compute; reflexivity |]. split; [vm_compute; reflexivity |].
       split; [reflexivity |]. split; [reflexivity |]. split; [reflexivity |].
       split; [vm_compute; reflexivity |].
       split.
       { unfold errorMessage. cbn [returnValue Examples.failed].
         change (startsWith Examples.errorPayload "4e487b71") with false.
         change (startsWith Examples.errorPayload "08c379a0") with true.
         change (String.eqb Examples.errorPayload EmptyString) with false.
         cbn [Z.eqb andb negb]. now rewrite Hbad. }
       split; [vm_compute; reflexivity |].
       split.
       { unfold errorMessage. cbn [returnValue Examples.failed].
         change (startsWith "08c379a0ffff" "4e487b71") with false.
         change (startsWith "08c379a0ffff" "08c379a0") with true.
         change (String.eqb "08c379a0ffff" EmptyString) with false.
         cbn [Z.eqb andb negb].
         change ("0x" +:+ sliceFrom "08c379a0ffff" 8) with "0xffff".
         now rewrite Hmalformed. }
       unfold errorMessage. cbn [returnValue Examples.failed].
       change (startsWith "08c379a0ffff" "4e487b71") with false.
       change (startsWith "08c379a0ffff" "08c379a0") with true.
       change (String.eqb "08c379a0ffff" EmptyString) with false.
       cbn [Z.eqb andb negb].
       change ("0x" +:+ sliceFrom "08c379a0ffff" 8) with "0xffff".
       now rewrite Hmalformed. }
  intros traceResult payload Hret Hne message fallback trailing code data.
  split; [| split; [| split; [| split]]].
  - intros Hpanic. subst message.
    rewrite (panic_message _ _ _ Hret Hpanic). fold trailing. split.
    + intros E. rewrite E. reflexivity.
    + intros Htrailing. rewrite (parseInt_toHex_nonempty _ Htrailing).
      fold code.
      assert (0 <= code) as Hpos by (apply bytesValueFrom_nonneg; lia).
      assert (forall k,
                code = k -> k < 2 ^ 53 ->
                "Panic(" +:+ numberToString (to_double code) +:+ "): "
                  +:+ stringOr (panicReasons (to_double code)) "Unknown panic"
                = "Panic(" +:+ numberToString (Fin k) +:+ "): "
                    +:+ stringOr (panicReasons (Fin k)) "Unknown panic") as Hknown.
      { intros k E Hk. rewrite E in Hpos. rewrite E.
        now rewrite LocationMore.to_double_small by lia. }
      repeat (split;
              [ intros E; rewrite (Hknown _ E) by lia; try split; reflexivity |]).
      intros Hnot. now rewrite (unknown_code code Hpos Hnot).
  - intros Herror. subst message. unfold errorMessage. rewrite Hret.
    rewrite (StorageDiffProofs.string_eqb_false _ _ (toHex_nonempty _ Hne)).
    cbn [Z.eqb andb negb].
    change "4e487b71" with (toHex panicSelector).
    change "08c379a0" with (toHex errorSelector).
    rewrite !startsWith_toHex, (error_selector_is_not_panic _ Herror), Herror.
    rewrite sliceFrom_toHex. fold trailing. fold data.
    pose proof (Hagrees data) as Hdata.
    split; [| split; [| split]].
    + intros decoded E. rewrite E in Hdata. now rewrite Hdata.
    + intros E. rewrite E in Hdata. now rewrite Hdata.
    + intros decoded E. now rewrite E.
    + intros E. now rewrite E.
  - intros Hp He. subst message. unfold errorMessage. rewrite Hret.
    rewrite (StorageDiffProofs.string_eqb_false _ _ (toHex_nonempty _ Hne)).
    cbn [Z.eqb andb negb].
    change "4e487b71" with (toHex panicSelector).
    change "08c379a0" with (toHex errorSelector).
    now rewrite !startsWith_toHex, Hp, He.
  - intros reason Hr Hrne. subst fallback. rewrite Hr.
    now apply StorageDiffProofs.stringOr_Some.
  - intros Hr. subst fallback. now rewrite Hr.
Qed.

Lemma narrowDecoder_agrees : Abi.agrees Abi.narrowDecoder.
Proof.
  intros data. unfold Abi.narrowDecoder.
  now destruct (Abi.decodeString data).
Qed.

Lemma C4_revert_reason_decoding_witness :
  errorMessage Abi.narrowDecoder 0
    (Examples.failed (toHex Examples.panicBytes) (Some "why"))
  = "Panic(17): Arithmetic overflow/underflow (unchecked)"
  /\ errorMessage Abi.narrowDecoder 0
       (Examples.failed (toHex Examples.unknownPanicBytes) (Some "why"))
     = "Panic(153): Unknown panic".
Proof.
  destruct (C4_revert_reason_decoding Abi.narrowDecoder narrowDecoder_agrees)
    as [H _].
  split.
  - destruct (H (Examples.failed (toHex Examples.panicBytes) (Some "why"))
                Examples.panicBytes eq_refl ltac:(discriminate))
      as (Hpanic & _).
    destruct (Hpanic eq_refl) as (_ & Hcodes).
    destruct (Hcodes ltac:(discriminate)) as (_ & H11 & _).
    apply H11. reflexivity.
  - destruct (H (Examples.failed (toHex Examples.unknownPanicBytes) (Some "why"))
                Examples.unknownPanicBytes eq_refl ltac:(discriminate))
      as (Hpanic & _).
    destruct (Hpanic eq_refl) as (_ & Hcodes).
    destruct (Hcodes ltac:(discriminate))
      as (_ & _ & _ & _ & _ & _ & _ & _ & _ & Hunknown).
    rewrite Hunknown; [reflexivity |].
    intros Hin. vm_compute in Hin.
    repeat (destruct Hin as [Hin | Hin]; [discriminate |]). exact Hin.
Defined.

End RevertProofs.
